(** * PandoraPFA: forced clustering and mip-photon separation

    A shallow embedding of
      - src/Algorithms/Clustering/ForcedClusteringAlgorithm.cc
      - src/Algorithms/TopologicalAssociation/MipPhotonSeparationAlgorithm.cc

    Conventions of the embedding.
      - A [float] value is the rational ([Q]) it stands for; comparisons
        are the boolean tests [Qltb] and [Qeqb].  Where the mip-photon
        separation computes with floats, the rounded operations of the
        hardware are a parameter ([FloatArithmetic]), so that nothing
        depends on how a sum, product or quotient is rounded; the examples
        compute with [binary32].  Infinities and not-a-number are outside
        the model.
      - [unsigned int] values ([PseudoLayer], counters) are integers in
        [0, 2^32) with the wrap-around of [++] and [-] written out.
      - A [CaloHit *] is the hit record itself; its address is [hitId], the
        only field pointer comparisons look at.  The mutable availability flag
        lives in the event state, keyed by [hitId].
      - A [Cluster *] that is shared (forced clustering) is an index into the
        current cluster list; [NULL]-able out parameters are [option]s.
      - [std::sort] is a parameter of the forced clustering, held to what
        the standard asks of it; where a statement is about records that
        tie, the sort is the routine of the GNU C++ library
        ([libstdcxx.sort]).
      - Every fallible call returns a [StatusCode]; the macro
        PANDORA_RETURN_RESULT_IF(STATUS_CODE_SUCCESS, !=, ...) is an early
        return that keeps the state reached so far. *)

From stdpp Require Import base list gmap strings.
From Stdlib Require Import ZArith QArith Qabs Lqa Lia Permutation Sorted.

Local Open Scope Z_scope.

(** ** Numbers *)

Module Numeric.

(** [a < b] on floats. *)
Definition Qltb (a b : Q) : bool := negb (Qle_bool b a).
(** [a == b] on floats. *)
Definition Qeqb (a b : Q) : bool := Qeq_bool a b.

(** 32-bit unsigned arithmetic. *)
Definition UINT_MOD : Z := 2 ^ 32.
Definition wrap32 (z : Z) : Z := z mod UINT_MOD.
(** [++n] *)
Definition incr32 (n : Z) : Z := wrap32 (n + 1).
(** [a - b] *)
Definition sub32 (a b : Z) : Z := wrap32 (a - b).

Definition is_uint32 (z : Z) : Prop := 0 <= z < UINT_MOD.

(** The four operations on floats, each with its rounding. *)
Record FloatArithmetic : Set := mkFloatArithmetic {
  Fadd : Q -> Q -> Q;
  Fsub : Q -> Q -> Q;
  Fmul : Q -> Q -> Q;
  Fdiv : Q -> Q -> Q
}.

(** The integer nearest to [a / b] for [0 < b], the even one of two that
    are equally near. *)
Definition RoundHalfEven (a b : Z) : Z :=
  let f := a / b in
  let r := a mod b in
  if 2 * r <? b then f
  else if b <? 2 * r then f + 1
  else if Z.even f then f else f + 1.

(** The exponent [e] with [2^e <= |q| < 2^(e+1)], for [q] other than 0. *)
Definition BinaryExponent (q : Q) : Z :=
  let n := Z.abs (Qnum q) in
  let d := Z.pos (Qden q) in
  let e := Z.log2 n - Z.log2 d in
  if n * 2 ^ Z.max 0 (- e) <? d * 2 ^ Z.max 0 e then e - 1 else e.

(** Rounding to the nearest binary32 number, ties to even: 24 significant
    bits, gradual underflow below [2^-126]. *)
Definition Round32 (q : Q) : Q :=
  if Qeq_bool q 0 then 0%Q
  else
    let shift := Z.max (BinaryExponent q) (-126) - 23 in
    let m := RoundHalfEven (Qnum q * 2 ^ Z.max 0 (- shift))
                           (Z.pos (Qden q) * 2 ^ Z.max 0 shift) in
    Qred (inject_Z m * (2 ^ Z.max 0 shift # Z.to_pos (2 ^ Z.max 0 (- shift)))).

(** IEEE 754 single precision, as the hardware computes [float]
    expressions. *)
(** The operations without rounding, for comparison. *)
Definition exact : FloatArithmetic := mkFloatArithmetic Qplus Qminus Qmult Qdiv.

Definition binary32 : FloatArithmetic :=
  mkFloatArithmetic (fun a b => Round32 (a + b)) (fun a b => Round32 (a - b))
                    (fun a b => Round32 (a * b)) (fun a b => Round32 (a / b)).

End Numeric.
Export Numeric.

(** ** Status codes and the objects of the event *)

Inductive StatusCode : Set :=
| STATUS_CODE_SUCCESS
| STATUS_CODE_FAILURE
| STATUS_CODE_NOT_FOUND
| STATUS_CODE_INVALID_PARAMETER
| STATUS_CODE_UNCHANGED.

Definition StatusCode_eqb (a b : StatusCode) : bool :=
  match a, b with
  | STATUS_CODE_SUCCESS, STATUS_CODE_SUCCESS
  | STATUS_CODE_FAILURE, STATUS_CODE_FAILURE
  | STATUS_CODE_NOT_FOUND, STATUS_CODE_NOT_FOUND
  | STATUS_CODE_INVALID_PARAMETER, STATUS_CODE_INVALID_PARAMETER
  | STATUS_CODE_UNCHANGED, STATUS_CODE_UNCHANGED => true
  | _, _ => false
  end.

Abbreviation PseudoLayer := Z (only parsing).

(** Modelled from the spec: the detector subsystem tag of a hit (the enum is
    declared outside src/); the spec names two subsystems. *)
Inductive HitType : Set := ECAL | HCAL.

(** Modelled from the spec: the CartesianVector class is declared outside
    src/; difference and cross product are the usual ones, computed with
    floats. *)
Record CartesianVector : Set := mkVector { vx : Q; vy : Q; vz : Q }.

Definition VectorMinus (fp : FloatArithmetic) (a b : CartesianVector) : CartesianVector :=
  mkVector (Fsub fp (vx a) (vx b)) (Fsub fp (vy a) (vy b)) (Fsub fp (vz a) (vz b)).

Definition GetCrossProduct (fp : FloatArithmetic) (a b : CartesianVector) : CartesianVector :=
  mkVector (Fsub fp (Fmul fp (vy a) (vz b)) (Fmul fp (vz a) (vy b)))
           (Fsub fp (Fmul fp (vz a) (vx b)) (Fmul fp (vx a) (vz b)))
           (Fsub fp (Fmul fp (vx a) (vy b)) (Fmul fp (vy a) (vx b))).

(** A magnitude for the examples: the sum of the absolute values of the
    components, which is the Euclidean length of every vector that is
    parallel to an axis.  The examples only measure such vectors. *)
Definition AxisMagnitude (v : CartesianVector) : Q :=
  (Qabs (vx v) + Qabs (vy v) + Qabs (vz v))%Q.

(** Modelled from the spec: the fields of a hit that the two algorithms
    read (the CaloHit class is declared outside src/). *)
Record CaloHit : Set := mkCaloHit {
  hitId : nat;
  GetPositionVector : CartesianVector;
  GetHitType : HitType;
  GetCellLengthScale : Q;
  GetHitHadronicEnergy : Q;
  GetPseudoLayer : PseudoLayer;
  IsIsolated : bool;
  IsPossibleMip : bool
}.

Abbreviation CaloHitList := (list CaloHit) (only parsing).


(** Handle of the external helix fit of a track. *)
Abbreviation Helix := nat (only parsing).

(** Modelled from the spec: the fields of a track that the two algorithms
    read (the Track class is declared outside src/). *)
Record Track : Set := mkTrack {
  trackId : nat;
  GetEnergyAtDca : Q;
  GetHelixFitAtCalorimeter : Helix;
  GetTrackStateAtECalPosition : CartesianVector
}.

(** ** Ordered hit collections and clusters *)

(** Modelled from the spec: an ordered calo hit list maps a pseudo layer to the
    hits of that layer and is iterated in increasing layer order (the
    OrderedCaloHitList class is declared outside src/).  It is kept as an
    association list sorted by layer. *)
Abbreviation OrderedCaloHitList := (list (PseudoLayer * list CaloHit)) (only parsing).

Module OrderedCaloHitList.

(** [orderedCaloHitList.find(iLayer)] *)
Fixpoint find (iLayer : PseudoLayer) (l : OrderedCaloHitList) : option CaloHitList :=
  match l with
  | [] => None
  | (k, hs) :: rest => if k =? iLayer then Some hs else find iLayer rest
  end.

(** Adding one hit files it under its own pseudo layer. *)
Fixpoint AddCaloHit (h : CaloHit) (l : OrderedCaloHitList) : OrderedCaloHitList :=
  match l with
  | [] => [(GetPseudoLayer h, [h])]
  | (k, hs) :: rest =>
      if GetPseudoLayer h <? k then (GetPseudoLayer h, [h]) :: (k, hs) :: rest
      else if GetPseudoLayer h =? k then (k, hs ++ [h]) :: rest
      else (k, hs) :: AddCaloHit h rest
  end.

(** [orderedCaloHitList.Add(caloHitList)]: merging a hit list in. *)
Definition Add (hits : CaloHitList) (l : OrderedCaloHitList) : OrderedCaloHitList :=
  fold_left (fun acc h => AddCaloHit h acc) hits l.

(** [GetCaloHitList]: all hits, layer by layer. *)
Definition GetCaloHitList (l : OrderedCaloHitList) : CaloHitList :=
  concat (map snd l).

(** [empty()] *)
Definition empty (l : OrderedCaloHitList) : bool :=
  match l with [] => true | _ => false end.

End OrderedCaloHitList.

(** Modelled from the spec: a cluster is an ordered hit collection, an isolated
    hit collection, its associated tracks and a running hadronic energy (the
    Cluster class is declared outside src/). *)
Record Cluster : Set := mkCluster {
  GetOrderedCaloHitList : OrderedCaloHitList;
  GetIsolatedCaloHitList : list CaloHit;
  GetAssociatedTrackList : list Track;
  GetHadronicEnergy : Q
}.

Module ClusterOps.

Definition GetCaloHits (c : Cluster) : CaloHitList :=
  OrderedCaloHitList.GetCaloHitList (GetOrderedCaloHitList c).

Definition GetNCaloHits (c : Cluster) : Z :=
  Z.of_nat (length (GetCaloHits c)).

(** The outermost occupied pseudo layer (0 for a cluster without hits). *)
Definition GetOuterPseudoLayer (c : Cluster) : PseudoLayer :=
  fold_right (fun kv acc => Z.max (fst kv) acc) 0 (GetOrderedCaloHitList c).

(** Modelled from the spec: adding a hit files it in the ordered hit
    collection and adds its energy to the running hadronic energy. *)
Definition AddCaloHit (h : CaloHit) (c : Cluster) : Cluster :=
  mkCluster (OrderedCaloHitList.AddCaloHit h (GetOrderedCaloHitList c))
            (GetIsolatedCaloHitList c)
            (GetAssociatedTrackList c)
            (GetHadronicEnergy c + GetHitHadronicEnergy h)%Q.

(** Modelled from the spec: a cluster seeded by a track has that track
    associated and holds no hits yet. *)
Definition CreateFromTrack (t : Track) : Cluster :=
  mkCluster [] [] [t] 0%Q.

Definition Empty : Cluster := mkCluster [] [] [] 0%Q.

(** Modelled from the spec: a cluster seeded by hits has no associated
    track and holds exactly these hits. *)
Definition CreateFromCaloHitList (hits : CaloHitList) : Cluster :=
  fold_left (fun c h => AddCaloHit h c) hits Empty.

Definition CreateFromCaloHit (h : CaloHit) : Cluster :=
  AddCaloHit h Empty.

End ClusterOps.

(** * MipPhotonSeparationAlgorithm.cc *)

Module MipPhotonSeparation.

(** The member variables that ReadSettings fills in. *)
Record Settings : Set := mkSettings {
  m_nLayersForMipRegion : Z;
  m_nLayersForShowerRegion : Z;
  m_maxLayersMissed : Z;
  m_minMipRegion2Span : Z;
  m_maxShowerStartLayer : Z;
  m_minShowerRegionSpan : Z;
  m_maxShowerStartLayer2 : Z;
  m_minShowerRegionSpan2 : Z;
  m_nonPhotonDeltaChi2Cut : Q;
  m_photonDeltaChi2Cut : Q;
  m_minHitsInPhotonCluster : Z;
  m_genericDistanceCut : Q;
  m_trackPathWidth : Q;
  m_maxTrackSeparation : Q;
  m_additionalPadWidthsECal : Q;
  m_additionalPadWidthsHCal : Q
}.

(** The defaults of ReadSettings. *)
Definition DefaultSettings : Settings :=
  mkSettings 2 2 1 4 20 4 5 200 0%Q 1%Q 6 1%Q 2%Q 1000%Q 2.5%Q 2.5%Q.

Definition LAYER_MAX : PseudoLayer := UINT_MOD - 1.
(** [std::numeric_limits<float>::max()] *)
Definition FLOAT_MAX : Q := inject_Z ((2 ^ 24 - 1) * 2 ^ 104).

(** The two cluster lists of a fragmentation: the names that
    InitializeFragmentation hands out. *)
Inductive FragmentationList : Set := OriginalClusters | FragmentClusters.

(** The per-layer findings of the scan. *)
Record LayerFlags : Set := mkLayerFlags {
  trackHitFound : bool;
  mipTrackHitFound : bool;
  showerTrackHitFound : bool
}.

(** The local variables of ShouldFragmentCluster together with its two
    reference parameters. *)
Record ScanState : Set := mkScanState {
  mipRegion1StartLayer : PseudoLayer;
  mipRegion1EndLayer : PseudoLayer;
  mipRegion2StartLayer : PseudoLayer;
  mipRegion2EndLayer : PseudoLayer;
  showerStartLayer : PseudoLayer;
  showerEndLayer : PseudoLayer;
  shouldContinue : bool;
  layersMissed : Z;
  mipCount : Z;
  showerCount : Z;
  mipRegion1 : bool;
  mipRegion2 : bool;
  showerRegion : bool
}.

Definition set_mipRegion1StartLayer (v : PseudoLayer) (s : ScanState) : ScanState :=
  mkScanState v (mipRegion1EndLayer s) (mipRegion2StartLayer s) (mipRegion2EndLayer s)
    (showerStartLayer s) (showerEndLayer s) (shouldContinue s) (layersMissed s)
    (mipCount s) (showerCount s) (mipRegion1 s) (mipRegion2 s) (showerRegion s).
Definition set_mipRegion1EndLayer (v : PseudoLayer) (s : ScanState) : ScanState :=
  mkScanState (mipRegion1StartLayer s) v (mipRegion2StartLayer s) (mipRegion2EndLayer s)
    (showerStartLayer s) (showerEndLayer s) (shouldContinue s) (layersMissed s)
    (mipCount s) (showerCount s) (mipRegion1 s) (mipRegion2 s) (showerRegion s).
Definition set_mipRegion2StartLayer (v : PseudoLayer) (s : ScanState) : ScanState :=
  mkScanState (mipRegion1StartLayer s) (mipRegion1EndLayer s) v (mipRegion2EndLayer s)
    (showerStartLayer s) (showerEndLayer s) (shouldContinue s) (layersMissed s)
    (mipCount s) (showerCount s) (mipRegion1 s) (mipRegion2 s) (showerRegion s).
Definition set_mipRegion2EndLayer (v : PseudoLayer) (s : ScanState) : ScanState :=
  mkScanState (mipRegion1StartLayer s) (mipRegion1EndLayer s) (mipRegion2StartLayer s) v
    (showerStartLayer s) (showerEndLayer s) (shouldContinue s) (layersMissed s)
    (mipCount s) (showerCount s) (mipRegion1 s) (mipRegion2 s) (showerRegion s).
Definition set_showerStartLayer (v : PseudoLayer) (s : ScanState) : ScanState :=
  mkScanState (mipRegion1StartLayer s) (mipRegion1EndLayer s) (mipRegion2StartLayer s)
    (mipRegion2EndLayer s) v (showerEndLayer s) (shouldContinue s) (layersMissed s)
    (mipCount s) (showerCount s) (mipRegion1 s) (mipRegion2 s) (showerRegion s).
Definition set_showerEndLayer (v : PseudoLayer) (s : ScanState) : ScanState :=
  mkScanState (mipRegion1StartLayer s) (mipRegion1EndLayer s) (mipRegion2StartLayer s)
    (mipRegion2EndLayer s) (showerStartLayer s) v (shouldContinue s) (layersMissed s)
    (mipCount s) (showerCount s) (mipRegion1 s) (mipRegion2 s) (showerRegion s).
Definition set_shouldContinue (v : bool) (s : ScanState) : ScanState :=
  mkScanState (mipRegion1StartLayer s) (mipRegion1EndLayer s) (mipRegion2StartLayer s)
    (mipRegion2EndLayer s) (showerStartLayer s) (showerEndLayer s) v (layersMissed s)
    (mipCount s) (showerCount s) (mipRegion1 s) (mipRegion2 s) (showerRegion s).
Definition set_layersMissed (v : Z) (s : ScanState) : ScanState :=
  mkScanState (mipRegion1StartLayer s) (mipRegion1EndLayer s) (mipRegion2StartLayer s)
    (mipRegion2EndLayer s) (showerStartLayer s) (showerEndLayer s) (shouldContinue s) v
    (mipCount s) (showerCount s) (mipRegion1 s) (mipRegion2 s) (showerRegion s).
Definition set_mipCount (v : Z) (s : ScanState) : ScanState :=
  mkScanState (mipRegion1StartLayer s) (mipRegion1EndLayer s) (mipRegion2StartLayer s)
    (mipRegion2EndLayer s) (showerStartLayer s) (showerEndLayer s) (shouldContinue s)
    (layersMissed s) v (showerCount s) (mipRegion1 s) (mipRegion2 s) (showerRegion s).
Definition set_showerCount (v : Z) (s : ScanState) : ScanState :=
  mkScanState (mipRegion1StartLayer s) (mipRegion1EndLayer s) (mipRegion2StartLayer s)
    (mipRegion2EndLayer s) (showerStartLayer s) (showerEndLayer s) (shouldContinue s)
    (layersMissed s) (mipCount s) v (mipRegion1 s) (mipRegion2 s) (showerRegion s).
Definition set_mipRegion1 (v : bool) (s : ScanState) : ScanState :=
  mkScanState (mipRegion1StartLayer s) (mipRegion1EndLayer s) (mipRegion2StartLayer s)
    (mipRegion2EndLayer s) (showerStartLayer s) (showerEndLayer s) (shouldContinue s)
    (layersMissed s) (mipCount s) (showerCount s) v (mipRegion2 s) (showerRegion s).
Definition set_mipRegion2 (v : bool) (s : ScanState) : ScanState :=
  mkScanState (mipRegion1StartLayer s) (mipRegion1EndLayer s) (mipRegion2StartLayer s)
    (mipRegion2EndLayer s) (showerStartLayer s) (showerEndLayer s) (shouldContinue s)
    (layersMissed s) (mipCount s) (showerCount s) (mipRegion1 s) v (showerRegion s).
Definition set_showerRegion (v : bool) (s : ScanState) : ScanState :=
  mkScanState (mipRegion1StartLayer s) (mipRegion1EndLayer s) (mipRegion2StartLayer s)
    (mipRegion2EndLayer s) (showerStartLayer s) (showerEndLayer s) (shouldContinue s)
    (layersMissed s) (mipCount s) (showerCount s) (mipRegion1 s) (mipRegion2 s) v.

Arguments set_mipRegion1StartLayer v s /.
Arguments set_mipRegion1EndLayer v s /.
Arguments set_mipRegion2StartLayer v s /.
Arguments set_mipRegion2EndLayer v s /.
Arguments set_showerStartLayer v s /.
Arguments set_showerEndLayer v s /.
Arguments set_shouldContinue v s /.
Arguments set_layersMissed v s /.
Arguments set_mipCount v s /.
Arguments set_showerCount v s /.
Arguments set_mipRegion1 v s /.
Arguments set_mipRegion2 v s /.
Arguments set_showerRegion v s /.

(** The values of the locals before the first layer; the two shower layers
    come from the caller. *)
Definition InitialScanState (showerStart showerEnd : PseudoLayer) : ScanState :=
  mkScanState LAYER_MAX LAYER_MAX LAYER_MAX LAYER_MAX showerStart showerEnd
              true 0 0 0 true false false.

(** The pseudo layers [first, first + 1, ..., last] that the [for] loop of
    the scan visits.  The outer layer of a cluster is a real layer, below
    LAYER_MAX, so [++iLayer] does not wrap. *)
Definition PseudoLayers (first last : PseudoLayer) : list PseudoLayer :=
  map (fun i => first + Z.of_nat i) (seq 0 (Z.to_nat (last + 1 - first))).

(** What happens to the original cluster at the end of one loop body of Run. *)
Inductive ClusterOutcome : Set :=
| NotFragmented
| Returned (s : StatusCode)
| EndFragmentation (clusterListToSaveName clusterListToDeleteName : FragmentationList)
                   (pMipCluster pPhotonCluster : option Cluster).

Section Algorithm.

(** The collaborators that live outside src/ are parameters: the
    arithmetic on floats, [CartesianVector::GetMagnitude] (a square root),
    the initial direction of a cluster, the constant
    TRACK_PROJECTION_LAYER, the corrected hadronic energy, the fast photon
    identification and [ReclusterHelper::GetTrackClusterCompatibility]. *)
Variable fp : FloatArithmetic.
Variable GetMagnitude : CartesianVector -> Q.
Variable GetInitialDirection : Cluster -> CartesianVector.
Variable TRACK_PROJECTION_LAYER : PseudoLayer.
Variable GetCorrectedHadronicEnergy : Cluster -> Q.
Variable IsPhotonFast : Cluster -> bool.
Variable GetTrackClusterCompatibility : Q -> Q -> Q.

Variable cfg : Settings.

(** MipPhotonSeparationAlgorithm::GetDistanceToTrack.  The last argument is
    the value of the reference parameter [distance] on entry; the second
    component of the result is its value on return. *)
Definition GetDistanceToTrack (pCluster : Cluster) (pTrack : Track) (pCaloHit : CaloHit)
    (distance : Q) : StatusCode * Q :=
  if Qeqb 0 (m_maxTrackSeparation cfg) then (STATUS_CODE_FAILURE, distance)
  else
    let hitPosition := GetPositionVector pCaloHit in
    let trackSeedPosition := GetTrackStateAtECalPosition pTrack in
    let positionDifference := VectorMinus fp hitPosition trackSeedPosition in
    let separation := GetMagnitude positionDifference in
    if Qltb separation (m_maxTrackSeparation cfg) then
      let dPerp :=
        GetMagnitude (GetCrossProduct fp (GetInitialDirection pCluster) positionDifference) in
      let flexibility :=
        Fadd fp 1 (Fmul fp (m_trackPathWidth cfg)
                           (Fdiv fp separation (m_maxTrackSeparation cfg))) in
      let dCut :=
        match GetHitType pCaloHit with
        | ECAL => Fmul fp flexibility
                       (Fmul fp (m_additionalPadWidthsECal cfg) (GetCellLengthScale pCaloHit))
        | _ => Fmul fp flexibility
                    (Fmul fp (m_additionalPadWidthsHCal cfg) (GetCellLengthScale pCaloHit))
        end in
      if Qeqb 0 dCut then (STATUS_CODE_FAILURE, distance)
      else (STATUS_CODE_SUCCESS, Fdiv fp dPerp dCut)
    else (STATUS_CODE_UNCHANGED, distance).

(** *** ShouldFragmentCluster *)

(** One iteration of the loop over the hits of a layer (lines 124-137). *)
Definition ExamineCaloHit (pCluster : Cluster) (pTrack : Track) (pCaloHit : CaloHit)
    (f : LayerFlags) : LayerFlags :=
  let '(status, distance) := GetDistanceToTrack pCluster pTrack pCaloHit FLOAT_MAX in
  if negb (StatusCode_eqb STATUS_CODE_SUCCESS status) then f
  else if Qltb distance (m_genericDistanceCut cfg) then
    if IsPossibleMip pCaloHit
    then mkLayerFlags true true (showerTrackHitFound f)
    else mkLayerFlags true (mipTrackHitFound f) true
  else f.

(** Lines 119-138: the findings of one pseudo layer. *)
Definition FindTrackHits (pCluster : Cluster) (pTrack : Track) (iLayer : PseudoLayer) : LayerFlags :=
  match OrderedCaloHitList.find iLayer (GetOrderedCaloHitList pCluster) with
  | Some hits =>
      fold_left (fun f pCaloHit => ExamineCaloHit pCluster pTrack pCaloHit f) hits
                (mkLayerFlags false false false)
  | None => mkLayerFlags false false false
  end.

(** Lines 141-148. *)
Definition UpdateLayersMissed (f : LayerFlags) (s : ScanState) : ScanState :=
  if trackHitFound f then set_layersMissed 0 s
  else set_layersMissed (incr32 (layersMissed s)) s.

(** Lines 150-157. *)
Definition UpdateMipEndLayers (iLayer : PseudoLayer) (f : LayerFlags) (s : ScanState) : ScanState :=
  if mipTrackHitFound f then
    let s1 := if mipRegion1 s then set_mipRegion1EndLayer iLayer s else s in
    if mipRegion2 s1 then set_mipRegion2EndLayer iLayer s1 else s1
  else s.

(** Lines 159-162. *)
Definition UpdateShowerEndLayer (iLayer : PseudoLayer) (f : LayerFlags) (s : ScanState) : ScanState :=
  if showerTrackHitFound f && showerRegion s then set_showerEndLayer iLayer s else s.

(** Lines 164-185. *)
Definition MipOnlyLayer (iLayer : PseudoLayer) (f : LayerFlags) (s : ScanState) : ScanState :=
  if mipTrackHitFound f && negb (showerTrackHitFound f) then
    let s1 := if mipRegion1 s && (iLayer <? mipRegion1StartLayer s)
              then set_mipRegion1StartLayer iLayer s else s in
    let s2 := if mipRegion1 s1 || mipRegion2 s1 then set_showerCount 0 s1 else s1 in
    if showerRegion s2 then
      let s3 := set_mipCount (incr32 (mipCount s2)) s2 in
      if mipCount s3 =? m_nLayersForMipRegion cfg then
        set_showerCount 0 (set_showerRegion false (set_mipRegion2 true s3))
      else set_mipRegion2StartLayer iLayer s3
    else s2
  else s.

(** Lines 187-211. *)
Definition ShowerOnlyLayer (iLayer : PseudoLayer) (f : LayerFlags) (s : ScanState) : ScanState :=
  if negb (mipTrackHitFound f) && showerTrackHitFound f then
    let s1 := if showerRegion s then set_mipCount 0 s else s in
    if mipRegion1 s1 || mipRegion2 s1 then
      let s2 := set_showerCount (incr32 (showerCount s1)) s1 in
      if showerCount s2 =? m_nLayersForShowerRegion cfg then
        let s3 := if mipRegion1 s2
                  then set_showerCount 0 (set_mipRegion1 false (set_showerRegion true s2))
                  else s2 in
        if mipRegion2 s3 then set_shouldContinue false s3 else s3
      else if mipRegion1 s2 then set_showerStartLayer iLayer s2
      else s2
    else s1
  else s.

(** Lines 213-214. *)
Definition CheckLayersMissed (s : ScanState) : ScanState :=
  if layersMissed s >? m_maxLayersMissed cfg then set_shouldContinue false s else s.

(** The body of the loop over pseudo layers, given the findings of the layer. *)
Definition ScanLayer (iLayer : PseudoLayer) (f : LayerFlags) (s : ScanState) : ScanState :=
  CheckLayersMissed
    (ShowerOnlyLayer iLayer f
      (MipOnlyLayer iLayer f
        (UpdateShowerEndLayer iLayer f
          (UpdateMipEndLayers iLayer f
            (UpdateLayersMissed f s))))).

(** The loop of lines 116-215 over the layers still to visit; it stops as
    soon as [shouldContinue] is false. *)
Fixpoint ScanLayers (pCluster : Cluster) (pTrack : Track) (layers : list PseudoLayer)
    (s : ScanState) : ScanState :=
  match layers with
  | [] => s
  | iLayer :: rest =>
      if shouldContinue s
      then ScanLayers pCluster pTrack rest (ScanLayer iLayer (FindTrackHits pCluster pTrack iLayer) s)
      else s
  end.

(** Lines 217-235: the decision taken from the findings of the scan. *)
Definition FragmentationDecision (s : ScanState) : bool :=
  if mipRegion2EndLayer s =? LAYER_MAX then false
  else if negb (showerEndLayer s =? LAYER_MAX) && (showerStartLayer s =? LAYER_MAX) then true
  else if (negb (mipRegion2EndLayer s =? LAYER_MAX)
           && (sub32 (mipRegion2EndLayer s) (mipRegion2StartLayer s) >? m_minMipRegion2Span cfg))
          && ((showerStartLayer s <? m_maxShowerStartLayer cfg)
              && (negb (showerEndLayer s =? LAYER_MAX)
                  && (sub32 (showerEndLayer s) (showerStartLayer s) >? m_minShowerRegionSpan cfg)))
  then true
  else if (showerStartLayer s <? m_maxShowerStartLayer2 cfg)
          && (negb (showerEndLayer s =? LAYER_MAX)
              && (sub32 (showerEndLayer s) (showerStartLayer s) >? m_minShowerRegionSpan2 cfg))
  then true
  else false.

Definition firstPseudoLayer : PseudoLayer := wrap32 (TRACK_PROJECTION_LAYER + 1).

(** The scan of ShouldFragmentCluster for a given track. *)
Definition ScanCluster (pCluster : Cluster) (pTrack : Track)
    (showerStart showerEnd : PseudoLayer) : ScanState :=
  let lastPseudoLayer := ClusterOps.GetOuterPseudoLayer pCluster in
  ScanLayers pCluster pTrack (PseudoLayers firstPseudoLayer lastPseudoLayer)
             (InitialScanState showerStart showerEnd).

(** MipPhotonSeparationAlgorithm::ShouldFragmentCluster.  The result carries
    the two reference parameters.  The track is the first associated track;
    for a cluster without one the C++ dereferences an end iterator, which
    is [None] here. *)
Definition ShouldFragmentCluster (pCluster : Cluster) (showerStart showerEnd : PseudoLayer)
    : option (bool * PseudoLayer * PseudoLayer) :=
  match GetAssociatedTrackList pCluster with
  | pTrack :: _ =>
      let s := ScanCluster pCluster pTrack showerStart showerEnd in
      Some (FragmentationDecision s, showerStartLayer s, showerEndLayer s)
  | [] => None
  end.

(** *** MakeClusterFragments *)

Abbreviation Fragments := (option Cluster * option Cluster)%type (only parsing).

(** Lines 253-281: the body of the loop over the hits of one layer.
    [Cluster::Create] and [AddCaloHitToCluster] act on the fragment behind
    the out parameter and are taken to succeed. *)
Definition AssignCaloHitToFragment (showerStartLayer showerEndLayer : PseudoLayer)
    (pOriginalCluster : Cluster) (pTrack : Track) (iLayer : PseudoLayer) (pCaloHit : CaloHit)
    (frags : Fragments) : StatusCode * Fragments :=
  let '(pMipCluster, pPhotonCluster) := frags in
  let '(status, distance) := GetDistanceToTrack pOriginalCluster pTrack pCaloHit 0%Q in
  if negb (StatusCode_eqb STATUS_CODE_SUCCESS status)
     && negb (StatusCode_eqb STATUS_CODE_UNCHANGED status)
  then (status, frags)
  else if Qltb distance (m_genericDistanceCut cfg)
          || (iLayer <? showerStartLayer) || (iLayer >? showerEndLayer)
  then
    match pMipCluster with
    | None => (STATUS_CODE_SUCCESS,
               (Some (ClusterOps.AddCaloHit pCaloHit (ClusterOps.CreateFromTrack pTrack)),
                pPhotonCluster))
    | Some mip => (STATUS_CODE_SUCCESS,
                   (Some (ClusterOps.AddCaloHit pCaloHit mip), pPhotonCluster))
    end
  else
    match pPhotonCluster with
    | None => (STATUS_CODE_SUCCESS, (pMipCluster, Some (ClusterOps.CreateFromCaloHit pCaloHit)))
    | Some photon => (STATUS_CODE_SUCCESS,
                      (pMipCluster, Some (ClusterOps.AddCaloHit pCaloHit photon)))
    end.

(** Lines 251-282: the hits of one layer. *)
Fixpoint FragmentLayer (showerStartLayer showerEndLayer : PseudoLayer)
    (pOriginalCluster : Cluster) (pTrack : Track) (iLayer : PseudoLayer) (hits : CaloHitList)
    (frags : Fragments) : StatusCode * Fragments :=
  match hits with
  | [] => (STATUS_CODE_SUCCESS, frags)
  | pCaloHit :: rest =>
      let '(status, frags1) :=
        AssignCaloHitToFragment showerStartLayer showerEndLayer pOriginalCluster pTrack
                                iLayer pCaloHit frags in
      if negb (StatusCode_eqb STATUS_CODE_SUCCESS status) then (status, frags1)
      else FragmentLayer showerStartLayer showerEndLayer pOriginalCluster pTrack iLayer rest frags1
  end.

(** Lines 247-283: the layers in increasing order. *)
Fixpoint FragmentLayers (showerStartLayer showerEndLayer : PseudoLayer)
    (pOriginalCluster : Cluster) (pTrack : Track) (l : OrderedCaloHitList)
    (frags : Fragments) : StatusCode * Fragments :=
  match l with
  | [] => (STATUS_CODE_SUCCESS, frags)
  | (iLayer, hits) :: rest =>
      let '(status, frags1) :=
        FragmentLayer showerStartLayer showerEndLayer pOriginalCluster pTrack iLayer hits frags in
      if negb (StatusCode_eqb STATUS_CODE_SUCCESS status) then (status, frags1)
      else FragmentLayers showerStartLayer showerEndLayer pOriginalCluster pTrack rest frags1
  end.

(** MipPhotonSeparationAlgorithm::MakeClusterFragments; [frags] holds the
    two out parameters.  The merge of the isolated hits in line 245 is taken
    to succeed.  [None] as for ShouldFragmentCluster. *)
Definition MakeClusterFragments (showerStartLayer showerEndLayer : PseudoLayer)
    (pOriginalCluster : Cluster) (frags : Fragments) : option (StatusCode * Fragments) :=
  match GetAssociatedTrackList pOriginalCluster with
  | pTrack :: _ =>
      let orderedCaloHitList :=
        OrderedCaloHitList.Add (GetIsolatedCaloHitList pOriginalCluster)
                               (GetOrderedCaloHitList pOriginalCluster) in
      Some (FragmentLayers showerStartLayer showerEndLayer pOriginalCluster pTrack
                           orderedCaloHitList frags)
  | [] => None
  end.

(** *** Run *)

(** Lines 73-80 of Run. *)
Definition UseFragments (pOriginalCluster : Cluster) (pTrack : Track)
    (pMipCluster pPhotonCluster : Cluster) : bool :=
  let trackEnergy := GetEnergyAtDca pTrack in
  let originalChi := GetTrackClusterCompatibility (GetCorrectedHadronicEnergy pOriginalCluster) trackEnergy in
  let newChi := GetTrackClusterCompatibility (GetCorrectedHadronicEnergy pMipCluster) trackEnergy in
  let dChi2 := Fsub fp (Fmul fp newChi newChi) (Fmul fp originalChi originalChi) in
  let passChi2Cuts := Qltb dChi2 (m_nonPhotonDeltaChi2Cut cfg)
                      || (IsPhotonFast pPhotonCluster && Qltb dChi2 (m_photonDeltaChi2Cut cfg)) in
  (ClusterOps.GetNCaloHits pPhotonCluster >=? m_minHitsInPhotonCluster cfg) && passChi2Cuts.

(** The body of the loop of Run over the candidate clusters (lines 37-92),
    up to the call of EndFragmentation. *)
Definition FragmentCluster (pOriginalCluster : Cluster) : ClusterOutcome :=
  match GetAssociatedTrackList pOriginalCluster with
  | [pTrack] =>
      match ShouldFragmentCluster pOriginalCluster LAYER_MAX LAYER_MAX with
      | Some (true, showerStartLayer, showerEndLayer) =>
          match MakeClusterFragments showerStartLayer showerEndLayer pOriginalCluster (None, None) with
          | Some (status, (pMipCluster, pPhotonCluster)) =>
              if negb (StatusCode_eqb STATUS_CODE_SUCCESS status) then Returned status
              else
                match pMipCluster, pPhotonCluster with
                | Some mip, Some photon =>
                    if UseFragments pOriginalCluster pTrack mip photon
                    then EndFragmentation FragmentClusters OriginalClusters pMipCluster pPhotonCluster
                    else EndFragmentation OriginalClusters FragmentClusters pMipCluster pPhotonCluster
                | _, _ => EndFragmentation OriginalClusters FragmentClusters pMipCluster pPhotonCluster
                end
          | None => NotFragmented
          end
      | _ => NotFragmented
      end
  | _ => NotFragmented
  end.

(** Modelled from the spec: EndFragmentation commits the list to save and
    discards the other; the clusters that stand in the current list for
    the original one afterwards. *)
Definition ClustersAfter (pOriginalCluster : Cluster) (o : ClusterOutcome) : list Cluster :=
  match o with
  | EndFragmentation FragmentClusters _ pMipCluster pPhotonCluster =>
      option_list pMipCluster ++ option_list pPhotonCluster
  | _ => [pOriginalCluster]
  end.

(** The loop of MipPhotonSeparationAlgorithm::Run over the cluster vector
    (lines 35-95), that is Run from the vector of the current clusters, as
    the daughter algorithm left them and ordered by inner layer: the status,
    and the clusters of the current list afterwards.  A failure returns at
    once, with the clusters not yet dealt with as they were.  Lines 25-32
    in front of the loop are added in [MipPhotonSeparationAlgorithm.Run]. *)
Fixpoint Run (clusterVector : list Cluster) : StatusCode * list Cluster :=
  match clusterVector with
  | [] => (STATUS_CODE_SUCCESS, [])
  | pOriginalCluster :: rest =>
      match FragmentCluster pOriginalCluster with
      | Returned status => (status, pOriginalCluster :: rest)
      | outcome =>
          let '(status, clusters) := Run rest in
          (status, ClustersAfter pOriginalCluster outcome ++ clusters)
      end
  end.

End Algorithm.

(** *** Quantities the statements below refer to *)

Section Quantities.

Variable fp : FloatArithmetic.
Variable GetMagnitude : CartesianVector -> Q.
Variable GetInitialDirection : Cluster -> CartesianVector.
Variable cfg : Settings.

(** The quantities GetDistanceToTrack computes on the way. *)
Definition Separation (pTrack : Track) (pCaloHit : CaloHit) : Q :=
  GetMagnitude (VectorMinus fp (GetPositionVector pCaloHit) (GetTrackStateAtECalPosition pTrack)).

Definition PerpendicularDistance (pCluster : Cluster) (pTrack : Track) (pCaloHit : CaloHit) : Q :=
  GetMagnitude (GetCrossProduct fp (GetInitialDirection pCluster)
                  (VectorMinus fp (GetPositionVector pCaloHit)
                                  (GetTrackStateAtECalPosition pTrack))).

Definition PadWidth (pCaloHit : CaloHit) : Q :=
  match GetHitType pCaloHit with
  | ECAL => m_additionalPadWidthsECal cfg
  | HCAL => m_additionalPadWidthsHCal cfg
  end.

Definition CutWidth (pTrack : Track) (pCaloHit : CaloHit) : Q :=
  Fmul fp (Fadd fp 1 (Fmul fp (m_trackPathWidth cfg)
                              (Fdiv fp (Separation pTrack pCaloHit) (m_maxTrackSeparation cfg))))
          (Fmul fp (PadWidth pCaloHit) (GetCellLengthScale pCaloHit)).

(** The hits of the fragment behind a pointer that may be NULL. *)
Definition FragmentHits (pCluster : option Cluster) : list CaloHit :=
  match pCluster with
  | Some c => ClusterOps.GetCaloHits c
  | None => []
  end.

(** The hits of an ordered calo hit list, each with the layer it is filed under. *)
Definition LayeredHits (l : OrderedCaloHitList) : list (PseudoLayer * CaloHit) :=
  flat_map (fun kv => map (pair (fst kv)) (snd kv)) l.

(** The rule of the fragmentation for a hit filed under a layer: its distance
    after the call of GetDistanceToTrack is below the generic cut, or the
    layer is outside the shower range. *)
Definition GoesToMipFragment (showerStartLayer showerEndLayer : PseudoLayer)
    (pOriginalCluster : Cluster) (pTrack : Track) (kh : PseudoLayer * CaloHit) : bool :=
  Qltb (snd (GetDistanceToTrack fp GetMagnitude GetInitialDirection cfg pOriginalCluster pTrack (snd kh) 0%Q))
       (m_genericDistanceCut cfg)
  || (fst kh <? showerStartLayer) || (fst kh >? showerEndLayer).

(** Line 256: the walk of MakeClusterFragments returns at a hit when the
    status of GetDistanceToTrack is neither SUCCESS nor UNCHANGED. *)
Definition ReturnsAt (pOriginalCluster : Cluster) (pTrack : Track)
    (kh : PseudoLayer * CaloHit) : bool :=
  let status :=
    fst (GetDistanceToTrack fp GetMagnitude GetInitialDirection cfg pOriginalCluster pTrack
           (snd kh) 0%Q) in
  negb (StatusCode_eqb STATUS_CODE_SUCCESS status)
  && negb (StatusCode_eqb STATUS_CODE_UNCHANGED status).

(** The hits of a walk that lie in front of the first hit at which the walk
    returns: all of them if there is no such hit. *)
Fixpoint AssignedHits (pOriginalCluster : Cluster) (pTrack : Track)
    (khs : list (PseudoLayer * CaloHit)) : list (PseudoLayer * CaloHit) :=
  match khs with
  | [] => []
  | kh :: rest =>
      if ReturnsAt pOriginalCluster pTrack kh then []
      else kh :: AssignedHits pOriginalCluster pTrack rest
  end.

(** The status of GetDistanceToTrack for the first hit at which the walk
    returns, SUCCESS if there is no such hit. *)
Fixpoint WalkStatus (pOriginalCluster : Cluster) (pTrack : Track)
    (khs : list (PseudoLayer * CaloHit)) : StatusCode :=
  match khs with
  | [] => STATUS_CODE_SUCCESS
  | kh :: rest =>
      if ReturnsAt pOriginalCluster pTrack kh
      then fst (GetDistanceToTrack fp GetMagnitude GetInitialDirection cfg pOriginalCluster
                  pTrack (snd kh) 0%Q)
      else WalkStatus pOriginalCluster pTrack rest
  end.

(** A layer with a shower hit and no mip hit, and the other way round. *)
Definition ShowerOnly (f : LayerFlags) : bool :=
  negb (mipTrackHitFound f) && showerTrackHitFound f.
Definition MipOnly (f : LayerFlags) : bool :=
  mipTrackHitFound f && negb (showerTrackHitFound f).

(** The count of the threshold law, after the layers with findings [fs]
    when it was [count] before them: a layer with a shower hit and no mip hit
    adds one, a layer with a mip hit and no shower hit starts again at zero. *)
Fixpoint ShowerStreak (fs : list LayerFlags) (count : Z) : Z :=
  match fs with
  | [] => count
  | f :: rest =>
      ShowerStreak rest (if ShowerOnly f then count + 1 else if MipOnly f then 0 else count)
  end.

(** Whether that count equals the threshold [n] right after one of the layers. *)
Fixpoint StreakReaches (n : Z) (fs : list LayerFlags) (count : Z) : bool :=
  match fs with
  | [] => false
  | f :: rest =>
      if ShowerOnly f then (count + 1 =? n) || StreakReaches n rest (count + 1)
      else if MipOnly f then StreakReaches n rest 0
      else StreakReaches n rest count
  end.

(** The decision as C6 words it: the shower span is compared without asking
    whether a shower end layer was found. *)
Definition ClaimedDecision (s : ScanState) : bool :=
  if mipRegion2EndLayer s =? LAYER_MAX then false
  else if negb (showerEndLayer s =? LAYER_MAX) && (showerStartLayer s =? LAYER_MAX) then true
  else if (sub32 (mipRegion2EndLayer s) (mipRegion2StartLayer s) >? m_minMipRegion2Span cfg)
          && (showerStartLayer s <? m_maxShowerStartLayer cfg)
          && (sub32 (showerEndLayer s) (showerStartLayer s) >? m_minShowerRegionSpan cfg)
  then true
  else if (showerStartLayer s <? m_maxShowerStartLayer2 cfg)
          && (sub32 (showerEndLayer s) (showerStartLayer s) >? m_minShowerRegionSpan2 cfg)
  then true
  else false.

End Quantities.

(** The difference of the squared compatibilities of lines 75-77. *)
Definition DeltaChi2 (fp : FloatArithmetic) (GetCorrectedHadronicEnergy : Cluster -> Q)
    (GetTrackClusterCompatibility : Q -> Q -> Q)
    (pOriginalCluster : Cluster) (pTrack : Track) (pMipCluster : Cluster) : Q :=
  let trackEnergy := GetEnergyAtDca pTrack in
  let originalChi := GetTrackClusterCompatibility (GetCorrectedHadronicEnergy pOriginalCluster) trackEnergy in
  let newChi := GetTrackClusterCompatibility (GetCorrectedHadronicEnergy pMipCluster) trackEnergy in
  Fsub fp (Fmul fp newChi newChi) (Fmul fp originalChi originalChi).

Definition zAxis : CartesianVector := mkVector 0 0 1.
Definition origin : CartesianVector := mkVector 0 0 0.

(** An example track that meets the calorimeter at the origin; every
    example cluster points along the z axis. *)
Definition exampleTrack : Track := mkTrack 0 6%Q 0%nat origin.

(** A hit in pseudo layer [layer] at transverse offset [x] from the track. *)
Definition exampleHit (id : nat) (layer : PseudoLayer) (x : Q) (kind : HitType) (mip : bool) : CaloHit :=
  mkCaloHit id (mkVector x 0 0) kind 10%Q 1%Q layer false mip.

(** The collaborators of the examples. *)
Definition exampleDirection (c : Cluster) : CartesianVector := zAxis.
Definition exampleCompatibility (clusterEnergy trackEnergy : Q) : Q :=
  (clusterEnergy - trackEnergy)%Q.
Definition examplePhotonId (c : Cluster) : bool := true.

(** The cluster that holds the given hits, with the example track associated. *)
Definition exampleCluster (hits : list CaloHit) : Cluster :=
  fold_left (fun c h => ClusterOps.AddCaloHit h c) hits (ClusterOps.CreateFromTrack exampleTrack).

(** Two shower layers, a third shower layer with a hit far from the track in
    the second, then three mip layers. *)
Definition showerThenMip : Cluster :=
  exampleCluster [exampleHit 0 1 1 HCAL false; exampleHit 1 2 1 HCAL false;
                  exampleHit 2 2 100 HCAL false; exampleHit 3 3 1 HCAL false;
                  exampleHit 4 4 1 HCAL true; exampleHit 5 5 1 HCAL true;
                  exampleHit 6 6 1 HCAL true].

(** The same with one hit of the other subsystem behind. *)
Definition showerThenMipWithECal : Cluster :=
  ClusterOps.AddCaloHit (exampleHit 7 7 1 ECAL true) showerThenMip.

(** Two shower layers followed by eight mip layers: no shower hit is found
    after the shower region has been entered. *)
Definition shortShower : Cluster :=
  exampleCluster [exampleHit 0 1 1 HCAL false; exampleHit 1 2 1 HCAL false;
                  exampleHit 2 3 1 HCAL true; exampleHit 3 4 1 HCAL true;
                  exampleHit 4 5 1 HCAL true; exampleHit 5 6 1 HCAL true;
                  exampleHit 6 7 1 HCAL true; exampleHit 7 8 1 HCAL true;
                  exampleHit 8 9 1 HCAL true; exampleHit 9 10 1 HCAL true].

(** Mip and shower layers in turn (scenario C of the spec). *)
Definition alternating : Cluster :=
  exampleCluster [exampleHit 0 1 1 HCAL true; exampleHit 1 2 1 HCAL false;
                  exampleHit 2 3 1 HCAL true; exampleHit 3 4 1 HCAL false;
                  exampleHit 4 5 1 HCAL true; exampleHit 5 6 1 HCAL false].

(** Settings that accept short regions and small photon fragments. *)
Definition shortSpanSettings : Settings :=
  mkSettings 2 2 1 1 20 1 5 200 0%Q 1%Q 1 1%Q 2%Q 1000%Q 2.5%Q 2.5%Q.

(** The same with no additional pad width in the ECal. *)
Definition noECalPadSettings : Settings :=
  mkSettings 2 2 1 1 20 1 5 200 0%Q 1%Q 1 1%Q 2%Q 1000%Q 0%Q 2.5%Q.

(** The fragments of [showerThenMip] for the shower range from layer 1 to layer 3. *)
Definition showerThenMipFragments : option Cluster * option Cluster :=
  match MakeClusterFragments binary32 AxisMagnitude exampleDirection shortSpanSettings 1 3
          showerThenMip (None, None) with
  | Some (_, frags) => frags
  | None => (None, None)
  end.

(** A hit further from the track than the maximum track separation. *)
Definition distantHit : CaloHit := exampleHit 9 2 2000 HCAL false.

(** A hit of the second layer whose distance to the track, computed in
    binary32 with the default settings, is the generic distance cut 1,
    and computed without rounding is below it. *)
Definition borderlineHit : CaloHit :=
  mkCaloHit 10 (mkVector (2634613 # 1048576) 0 0) HCAL 1%Q 1%Q 2 false false.

(** Settings with additional pad widths of 2^-100, and a hit with a cell
    length scale of 2^-100: their product is not zero, and below the
    smallest binary32 number. *)
Definition tinyPadSettings : Settings :=
  mkSettings 2 2 1 4 20 4 5 200 0%Q 1%Q 6 1%Q 2%Q 1000%Q
             (1 # 1267650600228229401496703205376) (1 # 1267650600228229401496703205376).
Definition tinyCellHit : CaloHit :=
  mkCaloHit 11 (mkVector 1 0 0) HCAL (1 # 1267650600228229401496703205376) 1%Q 2 false false.

(** A cluster and a mip fragment whose compatibilities with the example
    track are 2^-13 and 1, and a photon fragment of one hit. *)
Definition compatibleCluster : Cluster :=
  mkCluster [] [] [exampleTrack] (49153 # 8192).
Definition lessCompatibleFragment : Cluster :=
  mkCluster [] [] [exampleTrack] 7%Q.
Definition oneHitFragment : Cluster :=
  ClusterOps.CreateFromCaloHit (exampleHit 0 1 1 HCAL false).

(** [showerThenMip] with the distant hit in its second layer. *)
Definition showerThenMipWithDistantHit : Cluster :=
  ClusterOps.AddCaloHit distantHit showerThenMip.

(** The fragments of [showerThenMipWithDistantHit] for the shower range from
    layer 1 to layer 3. *)
Definition showerThenMipWithDistantHitFragments : option Cluster * option Cluster :=
  match MakeClusterFragments binary32 AxisMagnitude exampleDirection shortSpanSettings 1 3
          showerThenMipWithDistantHit (None, None) with
  | Some (_, frags) => frags
  | None => (None, None)
  end.

(** What is left of [showerThenMipWithECal] when its fragmentation fails at
    the ECal hit. *)
Definition showerThenMipWithECalFragments : option Cluster * option Cluster :=
  match MakeClusterFragments binary32 AxisMagnitude exampleDirection noECalPadSettings 1 3
          showerThenMipWithECal (None, None) with
  | Some (_, frags) => frags
  | None => (None, None)
  end.

End MipPhotonSeparation.

(** ** Run from its first line *)

Module MipPhotonSeparationAlgorithm.

Section Algorithm.

Variable fp : FloatArithmetic.
Variable GetMagnitude : CartesianVector -> Q.
Variable GetInitialDirection : Cluster -> CartesianVector.
Variable TRACK_PROJECTION_LAYER : PseudoLayer.
Variable GetCorrectedHadronicEnergy : Cluster -> Q.
Variable IsPhotonFast : Cluster -> bool.
Variable GetTrackClusterCompatibility : Q -> Q -> Q.

(** External collaborators of lines 25-32: the daughter algorithm that
    recalculates the track-cluster associations, acting on the clusters of
    the current list; the current cluster list as the content API hands it
    out; [std::sort] and the comparison [Cluster::SortByInnerLayer]. *)
Variable RunDaughterAlgorithm : string -> list Cluster -> StatusCode * list Cluster.
Variable GetCurrentClusterList : list Cluster -> StatusCode * list Cluster.
Variable std_sort : (Cluster -> Cluster -> bool) -> list Cluster -> list Cluster.
Variable SortByInnerLayer : Cluster -> Cluster -> bool.

Variable m_trackClusterAssociationAlgName : string.
Variable cfg : MipPhotonSeparation.Settings.

(** MipPhotonSeparationAlgorithm::Run (lines 22-96) on the clusters of the
    current list: the status, and the clusters of the current list
    afterwards. *)
Definition Run (clusters : list Cluster) : StatusCode * list Cluster :=
  let '(status, associated) :=
    RunDaughterAlgorithm m_trackClusterAssociationAlgName clusters in
  if negb (StatusCode_eqb STATUS_CODE_SUCCESS status) then (status, associated)
  else
    let '(status1, pClusterList) := GetCurrentClusterList associated in
    if negb (StatusCode_eqb STATUS_CODE_SUCCESS status1) then (status1, associated)
    else
      let clusterVector := std_sort SortByInnerLayer pClusterList in
      MipPhotonSeparation.Run fp GetMagnitude GetInitialDirection TRACK_PROJECTION_LAYER
        GetCorrectedHadronicEnergy IsPhotonFast GetTrackClusterCompatibility cfg clusterVector.

End Algorithm.

(** A daughter algorithm that leaves the clusters as they are, and a
    content API that hands out the current list. *)
Definition keepAssociations (name : string) (clusters : list Cluster) : StatusCode * list Cluster :=
  (STATUS_CODE_SUCCESS, clusters).
Definition handOut (clusters : list Cluster) : StatusCode * list Cluster :=
  (STATUS_CODE_SUCCESS, clusters).

(** A content API without a current cluster list. *)
Definition noCurrentList (clusters : list Cluster) : StatusCode * list Cluster :=
  (STATUS_CODE_NOT_FOUND, []).

(** The first occupied pseudo layer of the ordered hit list (0 for a cluster
    without hits), and the order by it. *)
Definition firstLayer (c : Cluster) : PseudoLayer :=
  match GetOrderedCaloHitList c with
  | [] => 0
  | kv :: _ => fst kv
  end.
Definition byFirstLayer (lhs rhs : Cluster) : bool := firstLayer lhs <? firstLayer rhs.

(** Sorting by insertion. *)
Fixpoint insertCluster (less : Cluster -> Cluster -> bool) (c : Cluster) (l : list Cluster)
    : list Cluster :=
  match l with
  | [] => [c]
  | c' :: rest => if less c c' then c :: c' :: rest else c' :: insertCluster less c rest
  end.
Definition insertionSort (less : Cluster -> Cluster -> bool) (l : list Cluster) : list Cluster :=
  fold_right (insertCluster less) [] l.

(** Run with the collaborators of the examples. *)
Definition exampleRun (GetCurrentClusterList : list Cluster -> StatusCode * list Cluster)
    (cfg : MipPhotonSeparation.Settings) (clusters : list Cluster) : StatusCode * list Cluster :=
  Run binary32 AxisMagnitude MipPhotonSeparation.exampleDirection 0 GetHadronicEnergy
      MipPhotonSeparation.examplePhotonId MipPhotonSeparation.exampleCompatibility
      keepAssociations GetCurrentClusterList insertionSort byFirstLayer
      "TrackClusterAssociation"%string cfg clusters.

End MipPhotonSeparationAlgorithm.

(** * std::sort

    The sort routine of the GNU C++ library, transcribed from
    bits/stl_algo.h and bits/stl_heap.h of GCC 12 (the functions keep
    their names without the leading underscores): introsort down to
    ranges of 16 elements, with a median-of-three partition and heap sort
    below the depth limit, then insertion sort.  The vector is a list, an
    iterator a position in it; a loop that the library leaves unguarded
    takes as many steps as the vector is long at most. *)

Module libstdcxx.

Local Open Scope nat_scope.

Section Sort.

Context {A : Type}.
Variable comp : A -> A -> bool.

(** The comparison of the elements at two positions of the vector, of a
    value with the element at a position, and the other way round. *)
Definition comp_iter (v : list A) (i j : nat) : bool :=
  match v !! i, v !! j with
  | Some a, Some b => comp a b
  | _, _ => false
  end.

Definition comp_val_iter (v : list A) (val : A) (j : nat) : bool :=
  match v !! j with
  | Some b => comp val b
  | None => false
  end.

Definition comp_iter_val (v : list A) (i : nat) (val : A) : bool :=
  match v !! i with
  | Some a => comp a val
  | None => false
  end.

(** [*i = *j] and [std::iter_swap]. *)
Definition assign (v : list A) (i j : nat) : list A :=
  match v !! j with
  | Some x => <[i := x]> v
  | None => v
  end.

Definition iter_swap (v : list A) (i j : nat) : list A :=
  match v !! i, v !! j with
  | Some a, Some b => <[j := a]> (<[i := b]> v)
  | _, _ => v
  end.

(** *** bits/stl_heap.h *)

Fixpoint push_heap (fuel : nat) (v : list A) (first holeIndex topIndex : nat) (value : A)
    : list A :=
  match fuel with
  | O => <[first + holeIndex := value]> v
  | S fuel' =>
      let parent := (holeIndex - 1) / 2 in
      if (topIndex <? holeIndex) && comp_iter_val v (first + parent) value
      then push_heap fuel' (assign v (first + holeIndex) (first + parent)) first parent
                     topIndex value
      else <[first + holeIndex := value]> v
  end.

(** The first loop of [__adjust_heap]: the hole moves down to a leaf. *)
Fixpoint move_hole_down (fuel : nat) (v : list A) (first holeIndex secondChild len : nat)
    : nat * nat * list A :=
  match fuel with
  | O => (holeIndex, secondChild, v)
  | S fuel' =>
      if secondChild <? (len - 1) / 2 then
        let secondChild1 := 2 * (secondChild + 1) in
        let secondChild2 :=
          if comp_iter v (first + secondChild1) (first + (secondChild1 - 1))
          then secondChild1 - 1 else secondChild1 in
        move_hole_down fuel' (assign v (first + holeIndex) (first + secondChild2)) first
                       secondChild2 secondChild2 len
      else (holeIndex, secondChild, v)
  end.

Definition adjust_heap (v : list A) (first holeIndex len : nat) (value : A) : list A :=
  let topIndex := holeIndex in
  let '(holeIndex1, secondChild1, v1) :=
    move_hole_down (length v) v first holeIndex holeIndex len in
  let '(holeIndex2, v2) :=
    if Nat.even len && (secondChild1 =? (len - 2) / 2) then
      let secondChild2 := 2 * (secondChild1 + 1) in
      (secondChild2 - 1, assign v1 (first + holeIndex1) (first + (secondChild2 - 1)))
    else (holeIndex1, v1) in
  push_heap (length v) v2 first holeIndex2 topIndex value.

Definition pop_heap (v : list A) (first last result : nat) : list A :=
  match v !! result with
  | Some value => adjust_heap (assign v result first) first 0 (last - first) value
  | None => v
  end.

Fixpoint make_heap_loop (v : list A) (first len parent : nat) : list A :=
  let v1 := match v !! (first + parent) with
            | Some value => adjust_heap v first parent len value
            | None => v
            end in
  match parent with
  | O => v1
  | S parent' => make_heap_loop v1 first len parent'
  end.

Definition make_heap (v : list A) (first last : nat) : list A :=
  if last - first <? 2 then v
  else make_heap_loop v first (last - first) ((last - first - 2) / 2).

Fixpoint sort_heap (fuel : nat) (v : list A) (first last : nat) : list A :=
  match fuel with
  | O => v
  | S fuel' =>
      if 1 <? last - first
      then sort_heap fuel' (pop_heap v first (last - 1) (last - 1)) first (last - 1)
      else v
  end.

(** *** bits/stl_algo.h *)

Definition move_median_to_first (v : list A) (result a b c : nat) : list A :=
  if comp_iter v a b then
    if comp_iter v b c then iter_swap v result b
    else if comp_iter v a c then iter_swap v result c
    else iter_swap v result a
  else if comp_iter v a c then iter_swap v result a
  else if comp_iter v b c then iter_swap v result c
  else iter_swap v result b.

Fixpoint heap_select_loop (count : nat) (v : list A) (first middle i : nat) : list A :=
  match count with
  | O => v
  | S count' =>
      heap_select_loop count'
        (if comp_iter v i first then pop_heap v first middle i else v) first middle (S i)
  end.

Definition heap_select (v : list A) (first middle last : nat) : list A :=
  heap_select_loop (last - middle) (make_heap v first middle) first middle middle.

Definition partial_sort (v : list A) (first middle last : nat) : list A :=
  sort_heap (length v) (heap_select v first middle last) first middle.

(** The loop of [__unguarded_linear_insert] with [__val] taken out. *)
Fixpoint linear_insert_loop (fuel : nat) (v : list A) (val : A) (last : nat) : list A :=
  match fuel, last with
  | S fuel', S next =>
      if comp_val_iter v val next
      then linear_insert_loop fuel' (assign v last next) val next
      else <[last := val]> v
  | _, _ => <[last := val]> v
  end.

Definition unguarded_linear_insert (v : list A) (last : nat) : list A :=
  match v !! last with
  | Some val => linear_insert_loop (length v) v val last
  | None => v
  end.

(** [__val = *__i; move_backward(__first, __i, __i + 1); *__first = __val]. *)
Definition move_to_first (v : list A) (first i : nat) : list A :=
  match v !! i with
  | Some val => take first v ++ val :: take (i - first) (drop first v) ++ drop (S i) v
  | None => v
  end.

Fixpoint insertion_sort_loop (count : nat) (v : list A) (first i : nat) : list A :=
  match count with
  | O => v
  | S count' =>
      insertion_sort_loop count'
        (if comp_iter v i first then move_to_first v first i else unguarded_linear_insert v i)
        first (S i)
  end.

Definition insertion_sort (v : list A) (first last : nat) : list A :=
  if first =? last then v
  else insertion_sort_loop (last - (first + 1)) v first (first + 1).

Fixpoint unguarded_insertion_sort_loop (count : nat) (v : list A) (i : nat) : list A :=
  match count with
  | O => v
  | S count' => unguarded_insertion_sort_loop count' (unguarded_linear_insert v i) (S i)
  end.

Definition unguarded_insertion_sort (v : list A) (first last : nat) : list A :=
  unguarded_insertion_sort_loop (last - first) v first.

Definition S_threshold : nat := 16.

Definition final_insertion_sort (v : list A) (first last : nat) : list A :=
  if S_threshold <? last - first then
    unguarded_insertion_sort (insertion_sort v first (first + S_threshold))
                             (first + S_threshold) last
  else insertion_sort v first last.

(** The two inner loops of [__unguarded_partition]. *)
Fixpoint skip_less (fuel : nat) (v : list A) (first pivot : nat) : nat :=
  match fuel with
  | O => first
  | S fuel' => if comp_iter v first pivot then skip_less fuel' v (S first) pivot else first
  end.

Fixpoint skip_greater (fuel : nat) (v : list A) (last pivot : nat) : nat :=
  match fuel with
  | O => last
  | S fuel' => if comp_iter v pivot last then skip_greater fuel' v (last - 1) pivot else last
  end.

Fixpoint unguarded_partition (fuel : nat) (v : list A) (first last pivot : nat)
    : nat * list A :=
  match fuel with
  | O => (first, v)
  | S fuel' =>
      let first1 := skip_less (length v) v first pivot in
      let last1 := skip_greater (length v) v (last - 1) pivot in
      if first1 <? last1
      then unguarded_partition fuel' (iter_swap v first1 last1) (S first1) last1 pivot
      else (first1, v)
  end.

Definition unguarded_partition_pivot (v : list A) (first last : nat) : nat * list A :=
  let mid := first + (last - first) / 2 in
  unguarded_partition (length v)
    (move_median_to_first v first (first + 1) mid (last - 1)) (first + 1) last first.

Fixpoint introsort_loop (fuel : nat) (v : list A) (first last depth_limit : nat) : list A :=
  match fuel with
  | O => v
  | S fuel' =>
      if S_threshold <? last - first then
        match depth_limit with
        | O => partial_sort v first last last
        | S depth_limit' =>
            let '(cut, v1) := unguarded_partition_pivot v first last in
            introsort_loop fuel' (introsort_loop fuel' v1 cut last depth_limit')
                           first cut depth_limit'
        end
      else v
  end.

(** [std::sort] on the whole vector. *)
Definition sort (v : list A) : list A :=
  match v with
  | [] => v
  | _ =>
      let last := length v in
      final_insertion_sort (introsort_loop last v 0 last (Nat.log2 last * 2)) 0 last
  end.

End Sort.

End libstdcxx.

(** * ForcedClusteringAlgorithm.cc *)

Module ForcedClustering.

(** The member variables that ReadSettings fills in. *)
Record Settings : Set := mkSettings {
  m_shouldRunStandardClusteringAlgorithm : bool;
  m_standardClusteringAlgorithmName : string;
  m_shouldClusterIsolatedHits : bool;
  m_shouldAssociateIsolatedHits : bool;
  m_isolatedHitAssociationAlgorithmName : string
}.

(** The defaults of ReadSettings (no daughter algorithm is named). *)
Definition DefaultSettings : Settings := mkSettings false EmptyString false false EmptyString.

(** Modelled from the spec: a Distance Record (hit, candidate cluster,
    track energy, distance to the track); the class is declared in the
    header, outside src/.  The cluster is a pointer into the current
    cluster list. *)
Record TrackDistanceInfo : Set := mkTrackDistanceInfo {
  GetCaloHit : CaloHit;
  GetCluster : nat;
  GetTrackEnergy : Q;
  GetTrackDistance : Q
}.

Abbreviation TrackDistanceInfoVector := (list TrackDistanceInfo) (only parsing).

(** Modelled from the spec: the comparison handed to [std::sort] orders
    records by increasing distance (it is declared in the header). *)
Definition SortByDistanceToTrack (lhs rhs : TrackDistanceInfo) : bool :=
  Qltb (GetTrackDistance lhs) (GetTrackDistance rhs).

(** Modelled from the spec: the part of the event that the content API
    gives access to: the current track list, the current ordered calo hit
    list, the hits whose availability flag is cleared, and the current
    cluster list. *)
Record Pandora : Type := mkPandora {
  currentTrackList : list Track;
  currentOrderedCaloHitList : OrderedCaloHitList;
  unavailableCaloHits : gset nat;
  currentClusterList : list Cluster
}.

(** ** The content API, modelled from the spec *)

(** Modelled from the spec: a hit is available while no cluster has claimed it. *)
Definition IsCaloHitAvailable (st : Pandora) (pCaloHit : CaloHit) : bool :=
  bool_decide (hitId pCaloHit ∉ unavailableCaloHits st).

(** The cluster behind a pointer (a cluster without hits behind a pointer
    that was never handed out). *)
Definition ClusterAt (st : Pandora) (pCluster : nat) : Cluster :=
  default ClusterOps.Empty (currentClusterList st !! pCluster).

(** Modelled from the spec: [Cluster::Create] from a track appends a cluster
    seeded by the track to the current list and hands out its pointer. *)
Definition Cluster_Create_FromTrack (pTrack : Track) (st : Pandora) : StatusCode * nat * Pandora :=
  (STATUS_CODE_SUCCESS, length (currentClusterList st),
   mkPandora (currentTrackList st) (currentOrderedCaloHitList st) (unavailableCaloHits st)
             (currentClusterList st ++ [ClusterOps.CreateFromTrack pTrack])).

(** Modelled from the spec: [AddCaloHitToCluster] adds the hit to the
    cluster, with its energy, and clears the availability of the hit. *)
Definition AddCaloHitToCluster (pCluster : nat) (pCaloHit : CaloHit) (st : Pandora)
    : StatusCode * Pandora :=
  (STATUS_CODE_SUCCESS,
   mkPandora (currentTrackList st) (currentOrderedCaloHitList st)
             ({[ hitId pCaloHit ]} ∪ unavailableCaloHits st)
             (alter (ClusterOps.AddCaloHit pCaloHit) pCluster (currentClusterList st))).

(** Modelled from the spec: [Cluster::Create] from a hit list appends a
    cluster holding these hits and clears their availability. *)
Definition Cluster_Create_FromCaloHitList (hits : CaloHitList) (st : Pandora)
    : StatusCode * nat * Pandora :=
  (STATUS_CODE_SUCCESS, length (currentClusterList st),
   mkPandora (currentTrackList st) (currentOrderedCaloHitList st)
             (list_to_set (map hitId hits) ∪ unavailableCaloHits st)
             (currentClusterList st ++ [ClusterOps.CreateFromCaloHitList hits])).

(** The clusters of [l], the first of which has pointer [i], whose pointer
    is not in [ptrs]. *)
Fixpoint RemovePointers (ptrs : list nat) (i : nat) (l : list Cluster) : list Cluster :=
  match l with
  | [] => []
  | c :: rest =>
      if bool_decide (i ∈ ptrs) then RemovePointers ptrs (S i) rest
      else c :: RemovePointers ptrs (S i) rest
  end.

(** Modelled from the spec: [DeleteClusters] removes the listed clusters
    from the current list. *)
Definition DeleteClusters (clusterList : list nat) (st : Pandora) : StatusCode * Pandora :=
  (STATUS_CODE_SUCCESS,
   mkPandora (currentTrackList st) (currentOrderedCaloHitList st) (unavailableCaloHits st)
             (RemovePointers clusterList 0 (currentClusterList st))).

(** [caloHitList.insert(pCaloHit)] on a set of hit pointers. *)
Definition CaloHitList_insert (pCaloHit : CaloHit) (l : CaloHitList) : CaloHitList :=
  if bool_decide (hitId pCaloHit ∈ map hitId l) then l else l ++ [pCaloHit].

(** ** The algorithm *)

Definition failed (s : StatusCode) : bool := negb (StatusCode_eqb STATUS_CODE_SUCCESS s).

Section Algorithm.

(** External collaborators: the helix fit ([Helix::GetDistanceToPoint],
    with its out parameter), [CartesianVector::GetMagnitude],
    [std::sort] and the daughter algorithms. *)
Variable Helix_GetDistanceToPoint : Helix -> CartesianVector -> StatusCode * CartesianVector.
Variable GetMagnitude : CartesianVector -> Q.
Variable std_sort : (TrackDistanceInfo -> TrackDistanceInfo -> bool) ->
                    TrackDistanceInfoVector -> TrackDistanceInfoVector.
Variable RunDaughterAlgorithm : string -> Pandora -> StatusCode * Pandora.

Variable cfg : Settings.

(** The isolation policy of lines 50 and 86. *)
Definition IsClusterable (st : Pandora) (pCaloHit : CaloHit) : bool :=
  IsCaloHitAvailable st pCaloHit
  && (m_shouldClusterIsolatedHits cfg || negb (IsIsolated pCaloHit)).

(** Lines 46-57: the distances of the candidate hits to one track. *)
Fixpoint PopulateTrackDistanceInfo (st : Pandora) (pCluster : nat) (pHelix : Helix)
    (trackEnergy : Q) (hits : CaloHitList) (trackDistanceInfoVector : TrackDistanceInfoVector)
    : StatusCode * TrackDistanceInfoVector :=
  match hits with
  | [] => (STATUS_CODE_SUCCESS, trackDistanceInfoVector)
  | pCaloHit :: rest =>
      if IsClusterable st pCaloHit then
        let '(status, helixSeparation) :=
          Helix_GetDistanceToPoint pHelix (GetPositionVector pCaloHit) in
        if failed status then (status, trackDistanceInfoVector)
        else PopulateTrackDistanceInfo st pCluster pHelix trackEnergy rest
               (trackDistanceInfoVector ++
                [mkTrackDistanceInfo pCaloHit pCluster trackEnergy (GetMagnitude helixSeparation)])
      else PopulateTrackDistanceInfo st pCluster pHelix trackEnergy rest trackDistanceInfoVector
  end.

(** Lines 37-58: one new cluster per track, and the records of all tracks. *)
Fixpoint MakeTrackSeededClusters (tracks : list Track) (inputCaloHitList : CaloHitList)
    (st : Pandora) (trackDistanceInfoVector : TrackDistanceInfoVector)
    : StatusCode * Pandora * TrackDistanceInfoVector :=
  match tracks with
  | [] => (STATUS_CODE_SUCCESS, st, trackDistanceInfoVector)
  | pTrack :: rest =>
      let pHelix := GetHelixFitAtCalorimeter pTrack in
      let trackEnergy := GetEnergyAtDca pTrack in
      let '(status, pCluster, st1) := Cluster_Create_FromTrack pTrack st in
      if failed status then (status, st1, trackDistanceInfoVector)
      else
        let '(status2, vector2) :=
          PopulateTrackDistanceInfo st1 pCluster pHelix trackEnergy inputCaloHitList
                                    trackDistanceInfoVector in
        if failed status2 then (status2, st1, vector2)
        else MakeTrackSeededClusters rest inputCaloHitList st1 vector2
  end.

(** Lines 65-72: the body of the walk along the sorted records. *)
Definition AssignCaloHit (info : TrackDistanceInfo) (st : Pandora) : StatusCode * Pandora :=
  let pCluster := GetCluster info in
  let pCaloHit := GetCaloHit info in
  let trackEnergy := GetTrackEnergy info in
  if Qltb (GetHadronicEnergy (ClusterAt st pCluster)) trackEnergy
     && IsCaloHitAvailable st pCaloHit
  then AddCaloHitToCluster pCluster pCaloHit st
  else (STATUS_CODE_SUCCESS, st).

(** Lines 63-73: the walk. *)
Fixpoint AssignCaloHits (trackDistanceInfoVector : TrackDistanceInfoVector) (st : Pandora)
    : StatusCode * Pandora :=
  match trackDistanceInfoVector with
  | [] => (STATUS_CODE_SUCCESS, st)
  | info :: rest =>
      let '(status, st1) := AssignCaloHit info st in
      if failed status then (status, st1) else AssignCaloHits rest st1
  end.

(** Lines 84-88: the hits that are left over. *)
Definition RemnantCaloHitList (st : Pandora) (inputCaloHitList : CaloHitList) : CaloHitList :=
  fold_left (fun remnantCaloHitList pCaloHit =>
               if IsClusterable st pCaloHit
               then CaloHitList_insert pCaloHit remnantCaloHitList
               else remnantCaloHitList)
            inputCaloHitList [].

(** Lines 76-95. *)
Definition DealWithRemainingHits (inputCaloHitList : CaloHitList) (st : Pandora)
    : StatusCode * Pandora :=
  if m_shouldRunStandardClusteringAlgorithm cfg
  then RunDaughterAlgorithm (m_standardClusteringAlgorithmName cfg) st
  else
    let remnantCaloHitList := RemnantCaloHitList st inputCaloHitList in
    match remnantCaloHitList with
    | [] => (STATUS_CODE_SUCCESS, st)
    | _ =>
        let '(status, _, st1) := Cluster_Create_FromCaloHitList remnantCaloHitList st in
        (status, st1)
    end.

(** Lines 98-101. *)
Definition AssociateIsolatedHits (st : Pandora) : StatusCode * Pandora :=
  if m_shouldAssociateIsolatedHits cfg
  then RunDaughterAlgorithm (m_isolatedHitAssociationAlgorithmName cfg) st
  else (STATUS_CODE_SUCCESS, st).

(** Lines 118-122: the pointers of the clusters without hits; [i] is the
    pointer of the first cluster of [l]. *)
Fixpoint ClusterDeletionList (i : nat) (l : list Cluster) : list nat :=
  match l with
  | [] => []
  | c :: rest =>
      if 0 =? ClusterOps.GetNCaloHits c then i :: ClusterDeletionList (S i) rest
      else ClusterDeletionList (S i) rest
  end.

(** ForcedClusteringAlgorithm::RemoveEmptyClusters *)
Definition RemoveEmptyClusters (st : Pandora) : StatusCode * Pandora :=
  let clusterDeletionList := ClusterDeletionList 0 (currentClusterList st) in
  match clusterDeletionList with
  | [] => (STATUS_CODE_SUCCESS, st)
  | _ => DeleteClusters clusterDeletionList st
  end.

(** Lines 34-73 of Run: the new clusters, the sort and the walk. *)
Definition AssignToTrackSeededClusters (inputCaloHitList : CaloHitList) (st : Pandora)
    : StatusCode * Pandora :=
  let '(status, st1, trackDistanceInfoVector) :=
    MakeTrackSeededClusters (currentTrackList st) inputCaloHitList st [] in
  if failed status then (status, st1)
  else AssignCaloHits (std_sort SortByDistanceToTrack trackDistanceInfoVector) st1.

(** ForcedClusteringAlgorithm::Run *)
Definition Run (st : Pandora) : StatusCode * Pandora :=
  match currentTrackList st with
  | [] => (STATUS_CODE_INVALID_PARAMETER, st)
  | _ =>
    if OrderedCaloHitList.empty (currentOrderedCaloHitList st)
    then (STATUS_CODE_INVALID_PARAMETER, st)
    else
      let inputCaloHitList := OrderedCaloHitList.GetCaloHitList (currentOrderedCaloHitList st) in
      let '(status1, st1) := AssignToTrackSeededClusters inputCaloHitList st in
      if failed status1 then (status1, st1)
      else
        let '(status2, st2) := DealWithRemainingHits inputCaloHitList st1 in
        if failed status2 then (status2, st2)
        else
          let '(status3, st3) := AssociateIsolatedHits st2 in
          if failed status3 then (status3, st3)
          else
            let '(status4, st4) := RemoveEmptyClusters st3 in
            if failed status4 then (status4, st4)
            else (STATUS_CODE_SUCCESS, st4)
  end.

End Algorithm.

(** ** Sort routines that meet the contract of [std::sort] *)

Section Sorting.

Variable less : TrackDistanceInfo -> TrackDistanceInfo -> bool.

(** [x] goes in front of the first element it is less than, so behind
    every element it ties with. *)
Fixpoint InsertSorted (x : TrackDistanceInfo) (l : TrackDistanceInfoVector)
    : TrackDistanceInfoVector :=
  match l with
  | [] => [x]
  | y :: rest => if less x y then x :: y :: rest else y :: InsertSorted x rest
  end.

(** Insertion sort: records that tie stay in the order of the input. *)
Definition StableSort (l : TrackDistanceInfoVector) : TrackDistanceInfoVector :=
  fold_left (fun sorted x => InsertSorted x sorted) l [].

(** A sort that leaves records that tie in the reverse order of the input. *)
Definition TieReversingSort (l : TrackDistanceInfoVector) : TrackDistanceInfoVector :=
  StableSort (rev l).

End Sorting.

(** What [std::sort] guarantees when called with SortByDistanceToTrack: the
    result is a rearrangement of the input in which distances never decrease. *)
Definition AscendingByDistance (l : TrackDistanceInfoVector) : Prop :=
  StronglySorted (fun a b => (GetTrackDistance a <= GetTrackDistance b)%Q) l.

Definition SortContract
    (sort : (TrackDistanceInfo -> TrackDistanceInfo -> bool) ->
            TrackDistanceInfoVector -> TrackDistanceInfoVector) : Prop :=
  forall l, Permutation l (sort SortByDistanceToTrack l)
            /\ AscendingByDistance (sort SortByDistanceToTrack l).

(** The condition of line 69: the record is accepted in state [st]. *)
Definition Accepts (info : TrackDistanceInfo) (st : Pandora) : bool :=
  Qltb (GetHadronicEnergy (ClusterAt st (GetCluster info))) (GetTrackEnergy info)
  && IsCaloHitAvailable st (GetCaloHit info).

(** No two records of [l] have the same distance. *)
Definition NoTies (l : TrackDistanceInfoVector) : Prop :=
  NoDup l /\
  forall a b, In a l -> In b l -> (GetTrackDistance a == GetTrackDistance b)%Q -> a = b.

(** The addresses of the hits that the clusters of [l] hold, cluster by cluster. *)
Definition ClusteredHitIds (l : list Cluster) : list nat :=
  concat (map (fun c => map hitId (ClusterOps.GetCaloHits c)) l).

(** Every hit is in at most one cluster, at most once, and a hit that is in
    a cluster is not available. *)
Definition Exclusive (st : Pandora) : Prop :=
  NoDup (ClusteredHitIds (currentClusterList st)) /\
  forall id, id ∈ ClusteredHitIds (currentClusterList st) -> id ∈ unavailableCaloHits st.

End ForcedClustering.

(** * Example events *)

Module ForcedClusteringExamples.
Import ForcedClustering.

(** A helix fit for the examples: the helix with handle [h] is the line
    parallel to the z axis through (h, 0, 0), and the hits of the examples
    lie on the x axis. *)
Definition exampleHelixDistance (pHelix : Helix) (point : CartesianVector)
    : StatusCode * CartesianVector :=
  (STATUS_CODE_SUCCESS, mkVector (vx point - inject_Z (Z.of_nat pHelix)) 0 0).

Definition noDaughterAlgorithm (name : string) (st : Pandora) : StatusCode * Pandora :=
  (STATUS_CODE_SUCCESS, st).

Definition hitAt (id : nat) (x energy : Q) : CaloHit :=
  mkCaloHit id (mkVector x 0 0) ECAL 10 energy 1 false false.

Definition trackAt (id x : nat) (energy : Q) : Track :=
  mkTrack id energy x (mkVector (inject_Z (Z.of_nat x)) 0 0).

(** Two tracks and three hits, all at different distances from the tracks. *)
Definition plainEvent : Pandora :=
  mkPandora [trackAt 0 0 3; trackAt 1 10 3]
            [(1, [hitAt 0 1 2; hitAt 1 (5 # 2) 2; hitAt 2 4 1])] ∅ [].

Definition plainInput : list CaloHit :=
  OrderedCaloHitList.GetCaloHitList (currentOrderedCaloHitList plainEvent).

Definition plainSeeding : StatusCode * Pandora * list TrackDistanceInfo :=
  MakeTrackSeededClusters exampleHelixDistance AxisMagnitude DefaultSettings
    (currentTrackList plainEvent) plainInput plainEvent [].

Definition plainSeeded : Pandora := snd (fst plainSeeding).
Definition plainRecords : list TrackDistanceInfo := snd plainSeeding.

(** Two tracks and one hit half way between them. *)
Definition tiedEvent : Pandora :=
  mkPandora [trackAt 0 0 3; trackAt 1 4 3] [(1, [hitAt 0 2 2])] ∅ [].

Definition tiedRecords : list TrackDistanceInfo :=
  snd (MakeTrackSeededClusters exampleHelixDistance AxisMagnitude DefaultSettings
         (currentTrackList tiedEvent)
         (OrderedCaloHitList.GetCaloHitList (currentOrderedCaloHitList tiedEvent))
         tiedEvent []).

(** Two tracks and nine hits, each half way between them: eighteen records
    at the same distance. *)
Definition crowdedEvent : Pandora :=
  mkPandora [trackAt 0 0 3; trackAt 1 4 3]
            [(1, [hitAt 0 2 2; hitAt 1 2 2; hitAt 2 2 2; hitAt 3 2 2; hitAt 4 2 2;
                  hitAt 5 2 2; hitAt 6 2 2; hitAt 7 2 2; hitAt 8 2 2])] ∅ [].

Definition crowdedRecords : list TrackDistanceInfo :=
  snd (MakeTrackSeededClusters exampleHelixDistance AxisMagnitude DefaultSettings
         (currentTrackList crowdedEvent)
         (OrderedCaloHitList.GetCaloHitList (currentOrderedCaloHitList crowdedEvent))
         crowdedEvent []).

(** A record by the cluster it names and the address of its hit. *)
Definition RecordKey (info : TrackDistanceInfo) : nat * nat :=
  (GetCluster info, hitId (GetCaloHit info)).

(** Scenario A of the spec: one track and one hit on its helix whose energy
    is the track energy. *)
Definition scenarioA : Pandora :=
  mkPandora [trackAt 0 0 3] [(1, [hitAt 0 0 3])] ∅ [].

(** Scenario B of the spec: no track. *)
Definition scenarioB : Pandora :=
  mkPandora [] [(1, [hitAt 0 0 3])] ∅ [].

(** Which hits each cluster holds and which tracks seed it. *)
Definition Membership (st : Pandora) : list (list nat * list nat) :=
  map (fun c => (map trackId (GetAssociatedTrackList c), map hitId (ClusterOps.GetCaloHits c)))
      (currentClusterList st).

End ForcedClusteringExamples.

(** * Further quantities of the mip-photon separation *)

Module SeparationQuantities.
Import MipPhotonSeparation.

(** Exactly one of the three region flags is set. *)
Definition OneRegion (s : ScanState) : bool :=
  match mipRegion1 s, showerRegion s, mipRegion2 s with
  | true, false, false => true
  | false, true, false => true
  | false, false, true => true
  | _, _, _ => false
  end.

(** The layer markers of the scan are in order as far as they are set: the
    shower start layer comes before the shower end layer, the start layer
    of mipRegion2 before its end layer. *)
Definition MarkersInOrder (s : ScanState) : Prop :=
  (showerStartLayer s <> LAYER_MAX -> showerEndLayer s <> LAYER_MAX ->
   showerStartLayer s < showerEndLayer s) /\
  (mipRegion2StartLayer s <> LAYER_MAX -> mipRegion2EndLayer s <> LAYER_MAX ->
   mipRegion2StartLayer s < mipRegion2EndLayer s).

(** The span of mipRegion2 as the decision takes it (line 224), without
    wrap-around: the plain difference when a start layer was written, the
    end layer plus one when it was not, the difference from LAYER_MAX. *)
Definition MipRegion2Span (s : ScanState) : Z :=
  if mipRegion2StartLayer s =? LAYER_MAX then mipRegion2EndLayer s + 1
  else mipRegion2EndLayer s - mipRegion2StartLayer s.

(** The decision of lines 217-235 with the spans written without
    wrap-around. *)
Definition SpanDecision (cfg : Settings) (s : ScanState) : bool :=
  if mipRegion2EndLayer s =? LAYER_MAX then false
  else if negb (showerEndLayer s =? LAYER_MAX) && (showerStartLayer s =? LAYER_MAX) then true
  else if (negb (mipRegion2EndLayer s =? LAYER_MAX)
           && (MipRegion2Span s >? m_minMipRegion2Span cfg))
          && ((showerStartLayer s <? m_maxShowerStartLayer cfg)
              && (negb (showerEndLayer s =? LAYER_MAX)
                  && (showerEndLayer s - showerStartLayer s >? m_minShowerRegionSpan cfg)))
  then true
  else if (showerStartLayer s <? m_maxShowerStartLayer2 cfg)
          && (negb (showerEndLayer s =? LAYER_MAX)
              && (showerEndLayer s - showerStartLayer s >? m_minShowerRegionSpan2 cfg))
  then true
  else false.

(** Every layer under which a hit of [l] is filed is outside the range from
    [first] to [last]. *)
Definition LayersOutside (first last : PseudoLayer) (l : OrderedCaloHitList) : Prop :=
  Forall (fun kv => fst kv < first \/ fst kv > last) l.


(** The layers of a cluster are real layers: below the sentinel. *)
Definition RealLayers (c : Cluster) : Prop :=
  Forall (fun kv => fst kv < LAYER_MAX) (GetOrderedCaloHitList c) /\
  Forall (fun h => GetPseudoLayer h < LAYER_MAX) (GetIsolatedCaloHitList c).

(** The layer markers of the shower region and of mipRegion2 while the scan
    has visited layers below [n] only: a start layer is written before the
    region is entered, an end layer after it. *)
Definition MarkersBelow (n : PseudoLayer) (s : ScanState) : Prop :=
  (showerStartLayer s = LAYER_MAX \/ 0 <= showerStartLayer s < n) /\
  (mipRegion1 s = true -> showerEndLayer s = LAYER_MAX) /\
  (mipRegion1 s = false -> showerStartLayer s = LAYER_MAX \/ showerStartLayer s + 1 < n) /\
  (showerEndLayer s = LAYER_MAX \/
   (0 <= showerEndLayer s < n /\
    (showerStartLayer s = LAYER_MAX \/ showerStartLayer s < showerEndLayer s))) /\
  (mipRegion2StartLayer s = LAYER_MAX \/ 0 <= mipRegion2StartLayer s < n) /\
  (mipRegion2 s = false -> mipRegion2EndLayer s = LAYER_MAX) /\
  (mipRegion2 s = true ->
   mipRegion2StartLayer s = LAYER_MAX \/ mipRegion2StartLayer s + 1 < n) /\
  (mipRegion2EndLayer s = LAYER_MAX \/
   (0 <= mipRegion2EndLayer s < n /\
    (mipRegion2StartLayer s = LAYER_MAX \/ mipRegion2StartLayer s < mipRegion2EndLayer s))).

(** The counter of missed layers while the scan goes on. *)
Definition MissedWithinLimit (cfg : Settings) (s : ScanState) : Prop :=
  0 <= layersMissed s /\ (shouldContinue s = true -> layersMissed s <= m_maxLayersMissed cfg).

(** A cluster with mip hits in layers 1 and 5 and nothing between. *)
Definition gappedCluster : Cluster :=
  exampleCluster [exampleHit 0 1 1 HCAL true; exampleHit 1 5 1 HCAL true].

(** The scan of an example cluster from the state before the first layer. *)
Definition exampleScan (cfg : Settings) (c : Cluster) (layers : list PseudoLayer) : ScanState :=
  ScanLayers binary32 AxisMagnitude exampleDirection cfg c exampleTrack layers
             (InitialScanState LAYER_MAX LAYER_MAX).

(** Settings with a mip region threshold of one layer and no minimum span
    of the shower region. *)
Definition singleMipLayerSettings : Settings :=
  mkSettings 1 2 1 4 20 0 5 200 0%Q 1%Q 1 1%Q 2%Q 1000%Q 2.5%Q 2.5%Q.

(** The scan of [showerThenMip] under these settings. *)
Definition singleMipLayerScan : ScanState :=
  ScanCluster binary32 AxisMagnitude exampleDirection 0 singleMipLayerSettings
    showerThenMip exampleTrack LAYER_MAX LAYER_MAX.

(** Settings with a shower region threshold of one layer. *)
Definition singleShowerLayerSettings : Settings :=
  mkSettings 2 1 1 1 20 1 5 200 0%Q 1%Q 1 1%Q 2%Q 1000%Q 2.5%Q 2.5%Q.


(** The hit list that MakeClusterFragments walks: the ordered hits of the
    cluster with its isolated hits merged in (lines 243-245). *)
Definition MergedCaloHitList (c : Cluster) : OrderedCaloHitList :=
  OrderedCaloHitList.Add (GetIsolatedCaloHitList c) (GetOrderedCaloHitList c).

(** A cluster of mip hits only. *)
Definition mipOnlyCluster : Cluster :=
  exampleCluster [exampleHit 0 1 1 HCAL true; exampleHit 1 2 1 HCAL true;
                  exampleHit 2 3 1 HCAL true; exampleHit 3 4 1 HCAL true].

(** Settings with a maximum track separation of zero. *)
Definition noSeparationSettings : Settings :=
  mkSettings 2 2 1 1 20 1 5 200 0%Q 1%Q 1 1%Q 2%Q 0%Q 2.5%Q 2.5%Q.

(** Run with the collaborators of the examples. *)
Definition exampleRun (cfg : Settings) (clusters : list Cluster) : StatusCode * list Cluster :=
  Run binary32 AxisMagnitude exampleDirection 0 GetHadronicEnergy examplePhotonId
      exampleCompatibility cfg clusters.

(** The fragments of [showerThenMip] for a shower range behind its last layer. *)
Definition showerThenMipLateFragments : option Cluster * option Cluster :=
  match MakeClusterFragments binary32 AxisMagnitude exampleDirection shortSpanSettings 7 9
          showerThenMip (None, None) with
  | Some (_, frags) => frags
  | None => (None, None)
  end.

(** The fragments of [showerThenMip] under [singleShowerLayerSettings], for
    the shower range that its scan returns. *)
Definition singleLayerFragments : option Cluster * option Cluster :=
  match ShouldFragmentCluster binary32 AxisMagnitude exampleDirection 0 singleShowerLayerSettings
          showerThenMip LAYER_MAX LAYER_MAX with
  | Some (_, showerStart, showerEnd) =>
      match MakeClusterFragments binary32 AxisMagnitude exampleDirection singleShowerLayerSettings
              showerStart showerEnd showerThenMip (None, None) with
      | Some (_, frags) => frags
      | None => (None, None)
      end
  | None => (None, None)
  end.

End SeparationQuantities.

(** * Further quantities of the forced clustering *)

Module ClusteringQuantities.
Import ForcedClustering ForcedClusteringExamples.

(** The test of line 120, negated: the cluster holds a hit. *)
Definition NonEmpty (c : Cluster) : bool := negb (0 =? ClusterOps.GetNCaloHits c).

(** The second half of the isolation policy of lines 50 and 86. *)
Definition IsEligible (cfg : Settings) (pCaloHit : CaloHit) : bool :=
  m_shouldClusterIsolatedHits cfg || negb (IsIsolated pCaloHit).

(** Every hit that is not available is accounted for: it was not available
    before ([before]), or a cluster of the current list holds it. *)
Definition Tracked (before : gset nat) (st : Pandora) : Prop :=
  forall id, id ∈ unavailableCaloHits st ->
    id ∈ before \/ id ∈ ClusteredHitIds (currentClusterList st).

Section Records.

Variable Helix_GetDistanceToPoint : Helix -> CartesianVector -> StatusCode * CartesianVector.
Variable GetMagnitude : CartesianVector -> Q.

(** The record that line 55 pushes for a hit and the cluster of a track. *)
Definition DistanceRecord (pCluster : nat) (pHelix : Helix) (trackEnergy : Q)
    (pCaloHit : CaloHit) : TrackDistanceInfo :=
  mkTrackDistanceInfo pCaloHit pCluster trackEnergy
    (GetMagnitude (snd (Helix_GetDistanceToPoint pHelix (GetPositionVector pCaloHit)))).

(** The records of the tracks in turn, each with the candidate hits in turn;
    the cluster of the first track has pointer [first]. *)
Fixpoint ExpectedRecords (first : nat) (tracks : list Track) (candidates : CaloHitList)
    : list TrackDistanceInfo :=
  match tracks with
  | [] => []
  | pTrack :: rest =>
      map (DistanceRecord first (GetHelixFitAtCalorimeter pTrack) (GetEnergyAtDca pTrack))
          candidates
      ++ ExpectedRecords (S first) rest candidates
  end.

End Records.

(** A helix fit that fails for the helix with handle 1. *)
Definition failingHelixDistance (pHelix : Helix) (point : CartesianVector)
    : StatusCode * CartesianVector :=
  match pHelix with
  | 1%nat => (STATUS_CODE_FAILURE, mkVector 0 0 0)
  | _ => exampleHelixDistance pHelix point
  end.

(** Three tracks; the helix of the second has handle 1. *)
Definition threeTrackEvent : Pandora :=
  mkPandora [trackAt 0 0 3; trackAt 1 1 3; trackAt 2 10 3]
            [(1, [hitAt 0 1 2; hitAt 1 (5 # 2) 2])] ∅ [].

(** Run on an example event, with insertion sort and no daughter algorithm. *)
Definition exampleForcedRun (st : Pandora) : StatusCode * Pandora :=
  Run exampleHelixDistance AxisMagnitude StableSort noDaughterAlgorithm DefaultSettings st.

(** The records of [plainEvent] in the order of the walk. *)
Definition plainSorted : list TrackDistanceInfo :=
  StableSort SortByDistanceToTrack plainRecords.

(** The record of hit 0 and the first track of [plainEvent]. *)
Definition plainClosest : TrackDistanceInfo :=
  DistanceRecord exampleHelixDistance AxisMagnitude 0 0 3 (hitAt 0 1 2).

End ClusteringQuantities.

(** * ReadSettings of the mip-photon separation *)

Module MipPhotonSeparationReadSettings.
Import MipPhotonSeparation.

(** Assignments to the members. *)
Definition set_m_nLayersForMipRegion (v : Z) (s : Settings) : Settings :=
  mkSettings v (m_nLayersForShowerRegion s) (m_maxLayersMissed s) (m_minMipRegion2Span s)
    (m_maxShowerStartLayer s) (m_minShowerRegionSpan s) (m_maxShowerStartLayer2 s)
    (m_minShowerRegionSpan2 s) (m_nonPhotonDeltaChi2Cut s) (m_photonDeltaChi2Cut s)
    (m_minHitsInPhotonCluster s) (m_genericDistanceCut s) (m_trackPathWidth s)
    (m_maxTrackSeparation s) (m_additionalPadWidthsECal s) (m_additionalPadWidthsHCal s).
Definition set_m_nLayersForShowerRegion (v : Z) (s : Settings) : Settings :=
  mkSettings (m_nLayersForMipRegion s) v (m_maxLayersMissed s) (m_minMipRegion2Span s)
    (m_maxShowerStartLayer s) (m_minShowerRegionSpan s) (m_maxShowerStartLayer2 s)
    (m_minShowerRegionSpan2 s) (m_nonPhotonDeltaChi2Cut s) (m_photonDeltaChi2Cut s)
    (m_minHitsInPhotonCluster s) (m_genericDistanceCut s) (m_trackPathWidth s)
    (m_maxTrackSeparation s) (m_additionalPadWidthsECal s) (m_additionalPadWidthsHCal s).
Definition set_m_maxLayersMissed (v : Z) (s : Settings) : Settings :=
  mkSettings (m_nLayersForMipRegion s) (m_nLayersForShowerRegion s) v (m_minMipRegion2Span s)
    (m_maxShowerStartLayer s) (m_minShowerRegionSpan s) (m_maxShowerStartLayer2 s)
    (m_minShowerRegionSpan2 s) (m_nonPhotonDeltaChi2Cut s) (m_photonDeltaChi2Cut s)
    (m_minHitsInPhotonCluster s) (m_genericDistanceCut s) (m_trackPathWidth s)
    (m_maxTrackSeparation s) (m_additionalPadWidthsECal s) (m_additionalPadWidthsHCal s).
Definition set_m_minMipRegion2Span (v : Z) (s : Settings) : Settings :=
  mkSettings (m_nLayersForMipRegion s) (m_nLayersForShowerRegion s) (m_maxLayersMissed s) v
    (m_maxShowerStartLayer s) (m_minShowerRegionSpan s) (m_maxShowerStartLayer2 s)
    (m_minShowerRegionSpan2 s) (m_nonPhotonDeltaChi2Cut s) (m_photonDeltaChi2Cut s)
    (m_minHitsInPhotonCluster s) (m_genericDistanceCut s) (m_trackPathWidth s)
    (m_maxTrackSeparation s) (m_additionalPadWidthsECal s) (m_additionalPadWidthsHCal s).
Definition set_m_maxShowerStartLayer (v : Z) (s : Settings) : Settings :=
  mkSettings (m_nLayersForMipRegion s) (m_nLayersForShowerRegion s) (m_maxLayersMissed s)
    (m_minMipRegion2Span s) v (m_minShowerRegionSpan s) (m_maxShowerStartLayer2 s)
    (m_minShowerRegionSpan2 s) (m_nonPhotonDeltaChi2Cut s) (m_photonDeltaChi2Cut s)
    (m_minHitsInPhotonCluster s) (m_genericDistanceCut s) (m_trackPathWidth s)
    (m_maxTrackSeparation s) (m_additionalPadWidthsECal s) (m_additionalPadWidthsHCal s).
Definition set_m_minShowerRegionSpan (v : Z) (s : Settings) : Settings :=
  mkSettings (m_nLayersForMipRegion s) (m_nLayersForShowerRegion s) (m_maxLayersMissed s)
    (m_minMipRegion2Span s) (m_maxShowerStartLayer s) v (m_maxShowerStartLayer2 s)
    (m_minShowerRegionSpan2 s) (m_nonPhotonDeltaChi2Cut s) (m_photonDeltaChi2Cut s)
    (m_minHitsInPhotonCluster s) (m_genericDistanceCut s) (m_trackPathWidth s)
    (m_maxTrackSeparation s) (m_additionalPadWidthsECal s) (m_additionalPadWidthsHCal s).
Definition set_m_maxShowerStartLayer2 (v : Z) (s : Settings) : Settings :=
  mkSettings (m_nLayersForMipRegion s) (m_nLayersForShowerRegion s) (m_maxLayersMissed s)
    (m_minMipRegion2Span s) (m_maxShowerStartLayer s) (m_minShowerRegionSpan s) v
    (m_minShowerRegionSpan2 s) (m_nonPhotonDeltaChi2Cut s) (m_photonDeltaChi2Cut s)
    (m_minHitsInPhotonCluster s) (m_genericDistanceCut s) (m_trackPathWidth s)
    (m_maxTrackSeparation s) (m_additionalPadWidthsECal s) (m_additionalPadWidthsHCal s).
Definition set_m_minShowerRegionSpan2 (v : Z) (s : Settings) : Settings :=
  mkSettings (m_nLayersForMipRegion s) (m_nLayersForShowerRegion s) (m_maxLayersMissed s)
    (m_minMipRegion2Span s) (m_maxShowerStartLayer s) (m_minShowerRegionSpan s)
    (m_maxShowerStartLayer2 s) v (m_nonPhotonDeltaChi2Cut s) (m_photonDeltaChi2Cut s)
    (m_minHitsInPhotonCluster s) (m_genericDistanceCut s) (m_trackPathWidth s)
    (m_maxTrackSeparation s) (m_additionalPadWidthsECal s) (m_additionalPadWidthsHCal s).
Definition set_m_nonPhotonDeltaChi2Cut (v : Q) (s : Settings) : Settings :=
  mkSettings (m_nLayersForMipRegion s) (m_nLayersForShowerRegion s) (m_maxLayersMissed s)
    (m_minMipRegion2Span s) (m_maxShowerStartLayer s) (m_minShowerRegionSpan s)
    (m_maxShowerStartLayer2 s) (m_minShowerRegionSpan2 s) v (m_photonDeltaChi2Cut s)
    (m_minHitsInPhotonCluster s) (m_genericDistanceCut s) (m_trackPathWidth s)
    (m_maxTrackSeparation s) (m_additionalPadWidthsECal s) (m_additionalPadWidthsHCal s).
Definition set_m_photonDeltaChi2Cut (v : Q) (s : Settings) : Settings :=
  mkSettings (m_nLayersForMipRegion s) (m_nLayersForShowerRegion s) (m_maxLayersMissed s)
    (m_minMipRegion2Span s) (m_maxShowerStartLayer s) (m_minShowerRegionSpan s)
    (m_maxShowerStartLayer2 s) (m_minShowerRegionSpan2 s) (m_nonPhotonDeltaChi2Cut s) v
    (m_minHitsInPhotonCluster s) (m_genericDistanceCut s) (m_trackPathWidth s)
    (m_maxTrackSeparation s) (m_additionalPadWidthsECal s) (m_additionalPadWidthsHCal s).
Definition set_m_minHitsInPhotonCluster (v : Z) (s : Settings) : Settings :=
  mkSettings (m_nLayersForMipRegion s) (m_nLayersForShowerRegion s) (m_maxLayersMissed s)
    (m_minMipRegion2Span s) (m_maxShowerStartLayer s) (m_minShowerRegionSpan s)
    (m_maxShowerStartLayer2 s) (m_minShowerRegionSpan2 s) (m_nonPhotonDeltaChi2Cut s)
    (m_photonDeltaChi2Cut s) v (m_genericDistanceCut s) (m_trackPathWidth s)
    (m_maxTrackSeparation s) (m_additionalPadWidthsECal s) (m_additionalPadWidthsHCal s).
Definition set_m_genericDistanceCut (v : Q) (s : Settings) : Settings :=
  mkSettings (m_nLayersForMipRegion s) (m_nLayersForShowerRegion s) (m_maxLayersMissed s)
    (m_minMipRegion2Span s) (m_maxShowerStartLayer s) (m_minShowerRegionSpan s)
    (m_maxShowerStartLayer2 s) (m_minShowerRegionSpan2 s) (m_nonPhotonDeltaChi2Cut s)
    (m_photonDeltaChi2Cut s) (m_minHitsInPhotonCluster s) v (m_trackPathWidth s)
    (m_maxTrackSeparation s) (m_additionalPadWidthsECal s) (m_additionalPadWidthsHCal s).
Definition set_m_trackPathWidth (v : Q) (s : Settings) : Settings :=
  mkSettings (m_nLayersForMipRegion s) (m_nLayersForShowerRegion s) (m_maxLayersMissed s)
    (m_minMipRegion2Span s) (m_maxShowerStartLayer s) (m_minShowerRegionSpan s)
    (m_maxShowerStartLayer2 s) (m_minShowerRegionSpan2 s) (m_nonPhotonDeltaChi2Cut s)
    (m_photonDeltaChi2Cut s) (m_minHitsInPhotonCluster s) (m_genericDistanceCut s) v
    (m_maxTrackSeparation s) (m_additionalPadWidthsECal s) (m_additionalPadWidthsHCal s).
Definition set_m_maxTrackSeparation (v : Q) (s : Settings) : Settings :=
  mkSettings (m_nLayersForMipRegion s) (m_nLayersForShowerRegion s) (m_maxLayersMissed s)
    (m_minMipRegion2Span s) (m_maxShowerStartLayer s) (m_minShowerRegionSpan s)
    (m_maxShowerStartLayer2 s) (m_minShowerRegionSpan2 s) (m_nonPhotonDeltaChi2Cut s)
    (m_photonDeltaChi2Cut s) (m_minHitsInPhotonCluster s) (m_genericDistanceCut s)
    (m_trackPathWidth s) v (m_additionalPadWidthsECal s) (m_additionalPadWidthsHCal s).
Definition set_m_additionalPadWidthsECal (v : Q) (s : Settings) : Settings :=
  mkSettings (m_nLayersForMipRegion s) (m_nLayersForShowerRegion s) (m_maxLayersMissed s)
    (m_minMipRegion2Span s) (m_maxShowerStartLayer s) (m_minShowerRegionSpan s)
    (m_maxShowerStartLayer2 s) (m_minShowerRegionSpan2 s) (m_nonPhotonDeltaChi2Cut s)
    (m_photonDeltaChi2Cut s) (m_minHitsInPhotonCluster s) (m_genericDistanceCut s)
    (m_trackPathWidth s) (m_maxTrackSeparation s) v (m_additionalPadWidthsHCal s).
Definition set_m_additionalPadWidthsHCal (v : Q) (s : Settings) : Settings :=
  mkSettings (m_nLayersForMipRegion s) (m_nLayersForShowerRegion s) (m_maxLayersMissed s)
    (m_minMipRegion2Span s) (m_maxShowerStartLayer s) (m_minShowerRegionSpan s)
    (m_maxShowerStartLayer2 s) (m_minShowerRegionSpan2 s) (m_nonPhotonDeltaChi2Cut s)
    (m_photonDeltaChi2Cut s) (m_minHitsInPhotonCluster s) (m_genericDistanceCut s)
    (m_trackPathWidth s) (m_maxTrackSeparation s) (m_additionalPadWidthsECal s) v.

(** PANDORA_RETURN_RESULT_IF_AND_IF(SUCCESS, NOT_FOUND, !=, Command): the
    status of the command makes the caller return. *)
Definition NeitherSuccessNorNotFound (s : StatusCode) : bool :=
  negb (StatusCode_eqb STATUS_CODE_SUCCESS s) && negb (StatusCode_eqb STATUS_CODE_NOT_FOUND s).

(** One member of the settings: its default is assigned, then ReadValue is
    called on it. *)
Definition ReadOptional {A : Type} (ReadValue : A -> StatusCode * A) (default : A)
    (get : Settings -> A) (set : A -> Settings -> Settings) (m : Settings)
    : StatusCode * Settings :=
  let m1 := set default m in
  let '(status, value) := ReadValue (get m1) in
  (status, set value m1).

(** The statements in turn, up to the first whose status makes
    ReadSettings return. *)
Fixpoint ReadInTurn (steps : list (Settings -> StatusCode * Settings)) (m : Settings)
    : StatusCode * Settings :=
  match steps with
  | [] => (STATUS_CODE_SUCCESS, m)
  | step :: rest =>
      let '(status, m1) := step m in
      if NeitherSuccessNorNotFound status then (status, m1) else ReadInTurn rest m1
  end.

Section ReadSettings.

(** XmlHelper is declared outside src/.  ReadValue is given the key and
    the value of the member on entry and returns the status and the value
    of the member on return; ProcessFirstAlgorithm likewise for the name of
    the daughter algorithm. *)
Variable ProcessFirstAlgorithm : string -> StatusCode * string.
Variable ReadValue_uint : string -> Z -> StatusCode * Z.
Variable ReadValue_float : string -> Q -> StatusCode * Q.

(** Lines 327-392. *)
Definition OptionalSettings : list (Settings -> StatusCode * Settings) :=
  [ReadOptional (ReadValue_uint "NLayersForMipRegion") 2 m_nLayersForMipRegion set_m_nLayersForMipRegion;
   ReadOptional (ReadValue_uint "NLayersForShowerRegion") 2 m_nLayersForShowerRegion set_m_nLayersForShowerRegion;
   ReadOptional (ReadValue_uint "MaxLayersMissed") 1 m_maxLayersMissed set_m_maxLayersMissed;
   ReadOptional (ReadValue_uint "MinMipRegion2Span") 4 m_minMipRegion2Span set_m_minMipRegion2Span;
   ReadOptional (ReadValue_uint "MaxShowerStartLayer") 20 m_maxShowerStartLayer set_m_maxShowerStartLayer;
   ReadOptional (ReadValue_uint "MinShowerRegionSpan") 4 m_minShowerRegionSpan set_m_minShowerRegionSpan;
   ReadOptional (ReadValue_uint "MaxShowerStartLayer2") 5 m_maxShowerStartLayer2 set_m_maxShowerStartLayer2;
   ReadOptional (ReadValue_uint "MinShowerRegionSpan2") 200 m_minShowerRegionSpan2 set_m_minShowerRegionSpan2;
   ReadOptional (ReadValue_float "NonPhotonDeltaChi2Cut") 0%Q m_nonPhotonDeltaChi2Cut set_m_nonPhotonDeltaChi2Cut;
   ReadOptional (ReadValue_float "PhotonDeltaChi2Cut") 1%Q m_photonDeltaChi2Cut set_m_photonDeltaChi2Cut;
   ReadOptional (ReadValue_uint "MinHitsInPhotonCluster") 6 m_minHitsInPhotonCluster set_m_minHitsInPhotonCluster;
   ReadOptional (ReadValue_float "GenericDistanceCut") 1%Q m_genericDistanceCut set_m_genericDistanceCut;
   ReadOptional (ReadValue_float "TrackPathWidth") 2%Q m_trackPathWidth set_m_trackPathWidth;
   ReadOptional (ReadValue_float "MaxTrackSeparation") 1000%Q m_maxTrackSeparation set_m_maxTrackSeparation;
   ReadOptional (ReadValue_float "AdditionalPadWidthsECal") 2.5%Q m_additionalPadWidthsECal set_m_additionalPadWidthsECal;
   ReadOptional (ReadValue_float "AdditionalPadWidthsHCal") 2.5%Q m_additionalPadWidthsHCal set_m_additionalPadWidthsHCal].

(** MipPhotonSeparationAlgorithm::ReadSettings on the members
    m_trackClusterAssociationAlgName and the sixteen settings. *)
Definition ReadSettings (m_trackClusterAssociationAlgName : string) (m : Settings)
    : StatusCode * (string * Settings) :=
  let '(status, name) := ProcessFirstAlgorithm m_trackClusterAssociationAlgName in
  if negb (StatusCode_eqb STATUS_CODE_SUCCESS status) then (status, (name, m))
  else
    let '(status1, m1) := ReadInTurn OptionalSettings m in
    (status1, (name, m1)).

End ReadSettings.

(** A configuration without any of the keys. *)
Definition absent {A : Type} (key : string) (value : A) : StatusCode * A :=
  (STATUS_CODE_NOT_FOUND, value).

(** A configuration that names the daughter algorithm. *)
Definition exampleFirstAlgorithm (name : string) : StatusCode * string :=
  (STATUS_CODE_SUCCESS, "TrackClusterAssociation"%string).

(** A configuration that sets MaxTrackSeparation to zero and nothing else. *)
Definition zeroSeparationFloat (key : string) (value : Q) : StatusCode * Q :=
  if String.eqb key "MaxTrackSeparation" then (STATUS_CODE_SUCCESS, 0%Q)
  else (STATUS_CODE_NOT_FOUND, value).

End MipPhotonSeparationReadSettings.

(** * ReadSettings of the forced clustering *)

Module ForcedClusteringReadSettings.
Import ForcedClustering.

(** Assignments to the members. *)
Definition set_m_shouldRunStandardClusteringAlgorithm (v : bool) (s : Settings) : Settings :=
  mkSettings v (m_standardClusteringAlgorithmName s) (m_shouldClusterIsolatedHits s)
    (m_shouldAssociateIsolatedHits s) (m_isolatedHitAssociationAlgorithmName s).
Definition set_m_standardClusteringAlgorithmName (v : string) (s : Settings) : Settings :=
  mkSettings (m_shouldRunStandardClusteringAlgorithm s) v (m_shouldClusterIsolatedHits s)
    (m_shouldAssociateIsolatedHits s) (m_isolatedHitAssociationAlgorithmName s).
Definition set_m_shouldClusterIsolatedHits (v : bool) (s : Settings) : Settings :=
  mkSettings (m_shouldRunStandardClusteringAlgorithm s) (m_standardClusteringAlgorithmName s) v
    (m_shouldAssociateIsolatedHits s) (m_isolatedHitAssociationAlgorithmName s).
Definition set_m_shouldAssociateIsolatedHits (v : bool) (s : Settings) : Settings :=
  mkSettings (m_shouldRunStandardClusteringAlgorithm s) (m_standardClusteringAlgorithmName s)
    (m_shouldClusterIsolatedHits s) v (m_isolatedHitAssociationAlgorithmName s).
Definition set_m_isolatedHitAssociationAlgorithmName (v : string) (s : Settings) : Settings :=
  mkSettings (m_shouldRunStandardClusteringAlgorithm s) (m_standardClusteringAlgorithmName s)
    (m_shouldClusterIsolatedHits s) (m_shouldAssociateIsolatedHits s) v.

(** PANDORA_RETURN_RESULT_IF_AND_IF(SUCCESS, NOT_FOUND, !=, Command): the
    status of the command makes the caller return. *)
Definition NeitherSuccessNorNotFound (s : StatusCode) : bool :=
  negb (StatusCode_eqb STATUS_CODE_SUCCESS s) && negb (StatusCode_eqb STATUS_CODE_NOT_FOUND s).

Section ReadSettings.

(** XmlHelper is declared outside src/.  ReadValue is given the key and
    the value of the member on entry and returns the status and the value
    of the member on return; ProcessAlgorithm likewise for the name of a
    daughter algorithm. *)
Variable ReadValue : string -> bool -> StatusCode * bool.
Variable ProcessAlgorithm : string -> string -> StatusCode * string.

(** Lines 140-144. *)
Definition ProcessStandardClustering (m : Settings) : StatusCode * Settings :=
  if m_shouldRunStandardClusteringAlgorithm m then
    let '(status, name) :=
      ProcessAlgorithm "StandardClustering" (m_standardClusteringAlgorithmName m) in
    (status, set_m_standardClusteringAlgorithmName name m)
  else (STATUS_CODE_SUCCESS, m).

(** Lines 154-158. *)
Definition ProcessIsolatedHitAssociation (m : Settings) : StatusCode * Settings :=
  if m_shouldAssociateIsolatedHits m then
    let '(status, name) :=
      ProcessAlgorithm "IsolatedHitAssociation" (m_isolatedHitAssociationAlgorithmName m) in
    (status, set_m_isolatedHitAssociationAlgorithmName name m)
  else (STATUS_CODE_SUCCESS, m).

(** ForcedClusteringAlgorithm::ReadSettings on the five members. *)
Definition ReadSettings (m : Settings) : StatusCode * Settings :=
  let m1 := set_m_shouldRunStandardClusteringAlgorithm false m in
  let '(status1, value1) :=
    ReadValue "ShouldRunStandardClusteringAlgorithm"
              (m_shouldRunStandardClusteringAlgorithm m1) in
  let m2 := set_m_shouldRunStandardClusteringAlgorithm value1 m1 in
  if NeitherSuccessNorNotFound status1 then (status1, m2)
  else
    let '(status2, m3) := ProcessStandardClustering m2 in
    if failed status2 then (status2, m3)
    else
      let m4 := set_m_shouldClusterIsolatedHits false m3 in
      let '(status3, value3) :=
        ReadValue "ShouldClusterIsolatedHits" (m_shouldClusterIsolatedHits m4) in
      let m5 := set_m_shouldClusterIsolatedHits value3 m4 in
      if NeitherSuccessNorNotFound status3 then (status3, m5)
      else
        let m6 := set_m_shouldAssociateIsolatedHits false m5 in
        let '(status4, value4) :=
          ReadValue "ShouldAssociateIsolatedHits" (m_shouldAssociateIsolatedHits m6) in
        let m7 := set_m_shouldAssociateIsolatedHits value4 m6 in
        if NeitherSuccessNorNotFound status4 then (status4, m7)
        else
          let '(status5, m8) := ProcessIsolatedHitAssociation m7 in
          if failed status5 then (status5, m8)
          else (STATUS_CODE_SUCCESS, m8).

End ReadSettings.

(** A configuration without any of the keys. *)
Definition absent (key : string) (value : bool) : StatusCode * bool :=
  (STATUS_CODE_NOT_FOUND, value).

(** A configuration that switches the standard clustering on and nothing else. *)
Definition standardClusteringOn (key : string) (value : bool) : StatusCode * bool :=
  if String.eqb key "ShouldRunStandardClusteringAlgorithm" then (STATUS_CODE_SUCCESS, true)
  else (STATUS_CODE_NOT_FOUND, value).

(** The daughter algorithms of the examples. *)
Definition exampleProcessAlgorithm (key name : string) : StatusCode * string :=
  (STATUS_CODE_SUCCESS, key).
Definition missingAlgorithm (key name : string) : StatusCode * string :=
  (STATUS_CODE_NOT_FOUND, name).

End ForcedClusteringReadSettings.

(** * Facts about the data model *)

Module NumericFacts.

Lemma Qltb_lt (a b : Q) : Qltb a b = true <-> (a < b)%Q.
Proof.
  unfold Qltb. rewrite negb_true_iff.
  split; intros H.
  - apply Qnot_le_lt. intros Hle. apply Qle_bool_iff in Hle. congruence.
  - destruct (Qle_bool b a) eqn:E; [|reflexivity].
    apply Qle_bool_iff in E. exfalso. exact (Qlt_not_le _ _ H E).
Qed.

Lemma Qltb_ge (a b : Q) : Qltb a b = false <-> (b <= a)%Q.
Proof.
  unfold Qltb. rewrite negb_false_iff. apply Qle_bool_iff.
Qed.

Lemma Qeqb_eq (a b : Q) : Qeqb a b = true <-> (a == b)%Q.
Proof. apply Qeq_bool_iff. Qed.

Lemma Round32_zero (q : Q) : (q == 0)%Q -> Round32 q = 0%Q.
Proof. intros Hq. unfold Round32. apply Qeq_bool_iff in Hq. rewrite Hq. reflexivity. Qed.

Lemma binary32_mul_zero_l (b : Q) : Fmul binary32 0 b = 0%Q.
Proof. apply Round32_zero. ring. Qed.

Lemma binary32_mul_zero_r (a : Q) : Fmul binary32 a 0 = 0%Q.
Proof. apply Round32_zero. ring. Qed.

Lemma wrap32_small (z : Z) : is_uint32 z -> wrap32 z = z.
Proof. intros H. unfold wrap32. apply Z.mod_small. exact H. Qed.

Lemma wrap32_range (z : Z) : is_uint32 (wrap32 z).
Proof. unfold is_uint32, wrap32, UINT_MOD. apply Z.mod_pos_bound. lia. Qed.

End NumericFacts.
Export NumericFacts.

Lemma StatusCode_eqb_eq (a b : StatusCode) : StatusCode_eqb a b = true <-> a = b.
Proof. destruct a, b; simpl; split; congruence. Qed.

Module OrderedCaloHitListFacts.
Import OrderedCaloHitList.

Lemma GetCaloHitList_AddCaloHit (h : CaloHit) (l : OrderedCaloHitList) :
  Permutation (GetCaloHitList (AddCaloHit h l)) (h :: GetCaloHitList l).
Proof.
  unfold GetCaloHitList.
  induction l as [|[k hs] rest IH]; simpl.
  - reflexivity.
  - destruct (GetPseudoLayer h <? k); simpl; [reflexivity|].
    destruct (GetPseudoLayer h =? k); simpl.
    + rewrite <- app_assoc. simpl.
      symmetry. apply Permutation_middle.
    + rewrite IH. symmetry.
      change (h :: hs ++ concat (map snd rest)) with ((h :: hs) ++ concat (map snd rest)).
      rewrite (Permutation_app_comm hs (h :: concat (map snd rest))). simpl.
      constructor. apply Permutation_app_comm.
Qed.

Lemma GetCaloHitList_Add (hits : CaloHitList) (l : OrderedCaloHitList) :
  Permutation (GetCaloHitList (Add hits l)) (GetCaloHitList l ++ hits).
Proof.
  unfold Add. revert l.
  induction hits as [|h hits IH]; intros l; simpl.
  - rewrite app_nil_r. reflexivity.
  - rewrite IH, GetCaloHitList_AddCaloHit. simpl.
    apply Permutation_middle.
Qed.

End OrderedCaloHitListFacts.

Module ClusterFacts.
Import ClusterOps.

Lemma GetCaloHits_AddCaloHit (h : CaloHit) (c : Cluster) :
  Permutation (GetCaloHits (AddCaloHit h c)) (h :: GetCaloHits c).
Proof. apply OrderedCaloHitListFacts.GetCaloHitList_AddCaloHit. Qed.

Lemma GetCaloHits_CreateFromCaloHitList (hits : CaloHitList) :
  Permutation (GetCaloHits (CreateFromCaloHitList hits)) hits.
Proof.
  unfold CreateFromCaloHitList.
  assert (G : forall c, Permutation (GetCaloHits (fold_left (fun c h => AddCaloHit h c) hits c))
                                    (GetCaloHits c ++ hits)).
  { induction hits as [|h hits IH]; intros c; simpl.
    - rewrite app_nil_r. reflexivity.
    - rewrite IH, GetCaloHits_AddCaloHit. simpl. apply Permutation_middle. }
  rewrite G. reflexivity.
Qed.

End ClusterFacts.

(** * Properties of the mip-photon separation *)

Module MipPhotonSeparationProofs.
Import MipPhotonSeparation.

Section Contract.

Variable fp : FloatArithmetic.
Variable GetMagnitude : CartesianVector -> Q.
Variable GetInitialDirection : Cluster -> CartesianVector.
Variable cfg : Settings.

Local Abbreviation Separation := (Separation fp GetMagnitude).
Local Abbreviation PerpendicularDistance := (PerpendicularDistance fp GetMagnitude GetInitialDirection).
Local Abbreviation CutWidth := (CutWidth fp GetMagnitude cfg).
Local Abbreviation GetDistanceToTrack := (GetDistanceToTrack fp GetMagnitude GetInitialDirection cfg).

Lemma GetDistanceToTrack_unfold (pCluster : Cluster) (pTrack : Track) (pCaloHit : CaloHit) (distance : Q) :
  GetDistanceToTrack pCluster pTrack pCaloHit distance =
  if Qeqb 0 (m_maxTrackSeparation cfg) then (STATUS_CODE_FAILURE, distance)
  else if Qltb (Separation pTrack pCaloHit) (m_maxTrackSeparation cfg) then
         if Qeqb 0 (CutWidth pTrack pCaloHit) then (STATUS_CODE_FAILURE, distance)
         else (STATUS_CODE_SUCCESS,
               Fdiv fp (PerpendicularDistance pCluster pTrack pCaloHit) (CutWidth pTrack pCaloHit))
       else (STATUS_CODE_UNCHANGED, distance).
Proof.
  unfold GetDistanceToTrack, CutWidth, PadWidth, PerpendicularDistance, Separation.
  destruct (GetHitType pCaloHit); reflexivity.
Qed.

(** C4.  GetDistanceToTrack fails when the maximum track separation is
    zero; otherwise it returns UNCHANGED when the separation between the
    hit and the track position at the calorimeter face is at least the
    maximum separation; otherwise it fails when the cut width is zero;
    otherwise it succeeds and stores the perpendicular distance divided
    by the cut width.  On every path but the last [distance] keeps the
    value it had on entry. *)
Theorem GetDistanceToTrack_contract (pCluster : Cluster) (pTrack : Track) (pCaloHit : CaloHit)
    (distance : Q) :
  let result := GetDistanceToTrack pCluster pTrack pCaloHit distance in
  let maxSeparation := m_maxTrackSeparation cfg in
  let separation := Separation pTrack pCaloHit in
  let dCut := CutWidth pTrack pCaloHit in
  ((maxSeparation == 0)%Q -> result = (STATUS_CODE_FAILURE, distance)) /\
  (~ (maxSeparation == 0)%Q -> (separation >= maxSeparation)%Q ->
     result = (STATUS_CODE_UNCHANGED, distance)) /\
  (~ (maxSeparation == 0)%Q -> (separation < maxSeparation)%Q -> (dCut == 0)%Q ->
     result = (STATUS_CODE_FAILURE, distance)) /\
  (~ (maxSeparation == 0)%Q -> (separation < maxSeparation)%Q -> ~ (dCut == 0)%Q ->
     result = (STATUS_CODE_SUCCESS, Fdiv fp (PerpendicularDistance pCluster pTrack pCaloHit) dCut)).
Proof.
  intros result maxSeparation separation dCut. subst result.
  rewrite GetDistanceToTrack_unfold.
  fold maxSeparation separation dCut.
  assert (Hmax : Qeqb 0 maxSeparation = true <-> (maxSeparation == 0)%Q).
  { rewrite Qeqb_eq. split; intros E; symmetry; exact E. }
  assert (Hcut : Qeqb 0 dCut = true <-> (dCut == 0)%Q).
  { rewrite Qeqb_eq. split; intros E; symmetry; exact E. }
  repeat split.
  - intros E. apply Hmax in E. rewrite E. reflexivity.
  - intros NE Hge. destruct (Qeqb 0 maxSeparation) eqn:E0; [exfalso; apply NE, Hmax; reflexivity|].
    apply Qltb_ge in Hge. rewrite Hge. reflexivity.
  - intros NE Hlt Hz. destruct (Qeqb 0 maxSeparation) eqn:E0; [exfalso; apply NE, Hmax; reflexivity|].
    apply Qltb_lt in Hlt. rewrite Hlt. apply Hcut in Hz. rewrite Hz. reflexivity.
  - intros NE Hlt Hz. destruct (Qeqb 0 maxSeparation) eqn:E0; [exfalso; apply NE, Hmax; reflexivity|].
    apply Qltb_lt in Hlt. rewrite Hlt.
    destruct (Qeqb 0 dCut) eqn:E1; [exfalso; apply Hz, Hcut; reflexivity|]. reflexivity.
Qed.

(** The status does not depend on the value of [distance] on entry. *)
Lemma GetDistanceToTrack_status (pCluster : Cluster) (pTrack : Track) (pCaloHit : CaloHit) (d d' : Q) :
  fst (GetDistanceToTrack pCluster pTrack pCaloHit d) =
  fst (GetDistanceToTrack pCluster pTrack pCaloHit d').
Proof.
  rewrite !GetDistanceToTrack_unfold.
  repeat match goal with |- context [if ?b then _ else _] => destruct b end; reflexivity.
Qed.

Lemma GetDistanceToTrack_unchanged (pCluster : Cluster) (pTrack : Track) (pCaloHit : CaloHit) (d : Q) :
  fst (GetDistanceToTrack pCluster pTrack pCaloHit d) = STATUS_CODE_UNCHANGED ->
  snd (GetDistanceToTrack pCluster pTrack pCaloHit d) = d.
Proof.
  rewrite !GetDistanceToTrack_unfold.
  repeat match goal with |- context [if ?b then _ else _] => destruct b end; simpl; congruence.
Qed.

End Contract.

End MipPhotonSeparationProofs.

(** * Properties of the forced clustering *)

Module SortFacts.
Import ForcedClustering.

Lemma InsertSorted_Permutation (less : TrackDistanceInfo -> TrackDistanceInfo -> bool)
    (x : TrackDistanceInfo) (l : list TrackDistanceInfo) :
  Permutation (InsertSorted less x l) (x :: l).
Proof.
  induction l as [|y rest IH]; simpl.
  - reflexivity.
  - destruct (less x y); [reflexivity|].
    rewrite IH. apply perm_swap.
Qed.

Lemma fold_InsertSorted_Permutation (less : TrackDistanceInfo -> TrackDistanceInfo -> bool)
    (l acc : list TrackDistanceInfo) :
  Permutation (fold_left (fun sorted x => InsertSorted less x sorted) l acc) (acc ++ l).
Proof.
  revert acc. induction l as [|x rest IH]; intros acc; simpl.
  - rewrite app_nil_r. reflexivity.
  - rewrite IH, InsertSorted_Permutation. simpl. apply Permutation_middle.
Qed.

Lemma StableSort_Permutation (less : TrackDistanceInfo -> TrackDistanceInfo -> bool)
    (l : list TrackDistanceInfo) :
  Permutation l (StableSort less l).
Proof.
  unfold StableSort. rewrite fold_InsertSorted_Permutation. reflexivity.
Qed.

Lemma InsertSorted_ascending (x : TrackDistanceInfo) (l : list TrackDistanceInfo) :
  AscendingByDistance l -> AscendingByDistance (InsertSorted SortByDistanceToTrack x l).
Proof.
  unfold AscendingByDistance.
  induction l as [|y rest IH]; intros Hs; simpl.
  - constructor; constructor.
  - inversion Hs as [|? ? Hrest Hall]; subst.
    destruct (SortByDistanceToTrack x y) eqn:E; unfold SortByDistanceToTrack in E.
    + apply Qltb_lt in E. constructor; [exact Hs|].
      constructor; [apply Qlt_le_weak; exact E|].
      eapply Forall_impl; [exact Hall|]. simpl. intros b Hb.
      eapply Qle_trans; [apply Qlt_le_weak; exact E | exact Hb].
    + apply Qltb_ge in E. constructor; [apply IH; exact Hrest|].
      eapply Permutation_Forall; [symmetry; apply InsertSorted_Permutation|].
      constructor; assumption.
Qed.

Lemma StableSort_ascending (l : list TrackDistanceInfo) :
  AscendingByDistance (StableSort SortByDistanceToTrack l).
Proof.
  unfold StableSort.
  assert (G : forall acc, AscendingByDistance acc ->
            AscendingByDistance (fold_left (fun sorted x => InsertSorted SortByDistanceToTrack x sorted) l acc)).
  { induction l as [|x rest IH]; intros acc Hacc; simpl; [exact Hacc|].
    apply IH, InsertSorted_ascending, Hacc. }
  apply G. constructor.
Qed.

Lemma StableSort_contract : SortContract StableSort.
Proof.
  intros l. split; [apply StableSort_Permutation | apply StableSort_ascending].
Qed.

Lemma TieReversingSort_contract : SortContract TieReversingSort.
Proof.
  intros l. unfold TieReversingSort. split.
  - rewrite <- StableSort_Permutation. apply Permutation_rev.
  - apply StableSort_ascending.
Qed.

(** A list without ties has one ascending arrangement only. *)
Lemma ascending_unique (l1 l2 : list TrackDistanceInfo) :
  NoTies l1 -> Permutation l1 l2 ->
  AscendingByDistance l1 -> AscendingByDistance l2 -> l1 = l2.
Proof.
  unfold AscendingByDistance.
  revert l2. induction l1 as [|a l1 IH]; intros l2 [Hnd Hinj] Hp H1 H2.
  - apply Permutation_nil in Hp. subst. reflexivity.
  - destruct l2 as [|b l2]; [symmetry in Hp; apply Permutation_nil_cons in Hp as []|].
    inversion H1 as [|? ? H1' Ha]; subst.
    inversion H2 as [|? ? H2' Hb]; subst.
    assert (Eab : a = b).
    { assert (Hain : In a (b :: l2)) by (eapply Permutation_in; [exact Hp | left; reflexivity]).
      assert (Hbin : In b (a :: l1)) by (eapply Permutation_in; [symmetry; exact Hp | left; reflexivity]).
      destruct Hain as [E|Hain]; [congruence|].
      destruct Hbin as [E|Hbin]; [congruence|].
      rewrite Forall_forall in Ha, Hb.
      apply Hinj; [left; reflexivity | right; exact Hbin |].
      apply Qle_antisym.
      - apply Ha. apply list_elem_of_In. exact Hbin.
      - apply Hb. apply list_elem_of_In. exact Hain. }
    subst b. f_equal.
    apply IH; [|eapply Permutation_cons_inv; exact Hp|exact H1'|exact H2'].
    split.
    + inversion Hnd; assumption.
    + intros x y Hx Hy. apply Hinj; right; assumption.
Qed.

(** Without ties every sort that meets the contract agrees with every other. *)
Lemma sorts_agree_without_ties
    (sort1 sort2 : (TrackDistanceInfo -> TrackDistanceInfo -> bool) ->
                   list TrackDistanceInfo -> list TrackDistanceInfo)
    (l : list TrackDistanceInfo) :
  SortContract sort1 -> SortContract sort2 -> NoTies l ->
  sort1 SortByDistanceToTrack l = sort2 SortByDistanceToTrack l.
Proof.
  intros C1 C2 [Hnd Hinj].
  destruct (C1 l) as [P1 S1], (C2 l) as [P2 S2].
  apply ascending_unique; [|rewrite <- P1; exact P2|exact S1|exact S2].
  split.
  - rewrite <- P1. exact Hnd.
  - intros a b Ha Hb. apply Hinj; eapply Permutation_in; try (symmetry; exact P1); assumption.
Qed.

End SortFacts.

Module WalkFacts.
Import ForcedClustering.

Lemma ClusterAt_lookup (st : Pandora) (p : nat) (c : Cluster) :
  currentClusterList st !! p = Some c -> ClusterAt st p = c.
Proof. unfold ClusterAt. intros ->. reflexivity. Qed.

Lemma AddCaloHitToCluster_length (p : nat) (h : CaloHit) (st : Pandora) :
  length (currentClusterList (snd (AddCaloHitToCluster p h st))) = length (currentClusterList st).
Proof. simpl. apply length_alter. Qed.

Lemma ClusterAt_AddCaloHitToCluster_eq (p : nat) (h : CaloHit) (st : Pandora) :
  (p < length (currentClusterList st))%nat ->
  ClusterAt (snd (AddCaloHitToCluster p h st)) p = ClusterOps.AddCaloHit h (ClusterAt st p).
Proof.
  intros Hp. unfold ClusterAt. simpl.
  rewrite list_lookup_alter_eq.
  destruct (lookup_lt_is_Some_2 _ _ Hp) as [c ->]. reflexivity.
Qed.

Lemma ClusterAt_AddCaloHitToCluster_ne (p q : nat) (h : CaloHit) (st : Pandora) :
  p <> q -> ClusterAt (snd (AddCaloHitToCluster p h st)) q = ClusterAt st q.
Proof.
  intros Hne. unfold ClusterAt. simpl.
  rewrite list_lookup_alter_ne by exact Hne. reflexivity.
Qed.

Lemma ClusterAt_AddCaloHitToCluster_ge (p q : nat) (h : CaloHit) (st : Pandora) :
  (length (currentClusterList st) <= p)%nat ->
  ClusterAt (snd (AddCaloHitToCluster p h st)) q = ClusterAt st q.
Proof.
  intros Hp. destruct (decide (p = q)) as [->|Hne].
  - unfold ClusterAt. simpl. rewrite list_lookup_alter_eq.
    rewrite (lookup_ge_None_2 _ _ Hp). reflexivity.
  - apply ClusterAt_AddCaloHitToCluster_ne. exact Hne.
Qed.

Section Walk.

Lemma AssignCaloHit_status (info : TrackDistanceInfo) (st : Pandora) :
  fst (AssignCaloHit info st) = STATUS_CODE_SUCCESS.
Proof.
  unfold AssignCaloHit.
  destruct (_ && _); reflexivity.
Qed.

Lemma AssignCaloHits_cons (info : TrackDistanceInfo) (rest : list TrackDistanceInfo) (st : Pandora) :
  AssignCaloHits (info :: rest) st = AssignCaloHits rest (snd (AssignCaloHit info st)).
Proof.
  simpl. pose proof (AssignCaloHit_status info st) as Hs.
  destruct (AssignCaloHit info st) as [s st1]. simpl in *. subst s. reflexivity.
Qed.

Lemma AssignCaloHits_status (recs : list TrackDistanceInfo) (st : Pandora) :
  fst (AssignCaloHits recs st) = STATUS_CODE_SUCCESS.
Proof.
  revert st. induction recs as [|info rest IH]; intros st.
  - reflexivity.
  - rewrite AssignCaloHits_cons. apply IH.
Qed.

Lemma AssignCaloHits_app (pre post : list TrackDistanceInfo) (st : Pandora) :
  AssignCaloHits (pre ++ post) st = AssignCaloHits post (snd (AssignCaloHits pre st)).
Proof.
  revert st. induction pre as [|info rest IH]; intros st.
  - reflexivity.
  - rewrite <- app_comm_cons, !AssignCaloHits_cons. apply IH.
Qed.

Lemma AssignCaloHit_unfold (info : TrackDistanceInfo) (st : Pandora) :
  AssignCaloHit info st =
  if Accepts info st then AddCaloHitToCluster (GetCluster info) (GetCaloHit info) st
  else (STATUS_CODE_SUCCESS, st).
Proof. reflexivity. Qed.

Lemma AssignCaloHit_length (info : TrackDistanceInfo) (st : Pandora) :
  length (currentClusterList (snd (AssignCaloHit info st))) = length (currentClusterList st).
Proof.
  rewrite AssignCaloHit_unfold. destruct (Accepts info st); [|reflexivity].
  apply AddCaloHitToCluster_length.
Qed.

Lemma AssignCaloHits_length (recs : list TrackDistanceInfo) (st : Pandora) :
  length (currentClusterList (snd (AssignCaloHits recs st))) = length (currentClusterList st).
Proof.
  revert st. induction recs as [|info rest IH]; intros st; [reflexivity|].
  rewrite AssignCaloHits_cons, IH. apply AssignCaloHit_length.
Qed.

(** One step either leaves the cluster behind [p] alone or adds the hit
    of the record to it, and then the record was accepted for [p]. *)
Lemma AssignCaloHit_cluster (info : TrackDistanceInfo) (st : Pandora) (p : nat) :
  ClusterAt (snd (AssignCaloHit info st)) p = ClusterAt st p \/
  (GetCluster info = p /\ Accepts info st = true /\
   ClusterAt (snd (AssignCaloHit info st)) p =
     ClusterOps.AddCaloHit (GetCaloHit info) (ClusterAt st p)).
Proof.
  rewrite AssignCaloHit_unfold.
  destruct (Accepts info st) eqn:Ha; [|left; reflexivity].
  destruct (decide (GetCluster info = p)) as [E|NE].
  - destruct (decide (p < length (currentClusterList st))%nat) as [Hlt|Hge].
    + right. rewrite E. split; [reflexivity|]. split; [reflexivity|].
      apply ClusterAt_AddCaloHitToCluster_eq. exact Hlt.
    + left. apply ClusterAt_AddCaloHitToCluster_ge. rewrite E. lia.
  - left. apply ClusterAt_AddCaloHitToCluster_ne. exact NE.
Qed.

(** The last record whose hit went to the cluster behind [p]. *)
Lemma AssignCaloHits_last_added (recs : list TrackDistanceInfo) (st : Pandora) (p : nat) :
  ClusterAt (snd (AssignCaloHits recs st)) p = ClusterAt st p \/
  exists pre info post,
    recs = pre ++ info :: post /\ GetCluster info = p /\
    Accepts info (snd (AssignCaloHits pre st)) = true /\
    ClusterAt (snd (AssignCaloHits recs st)) p =
      ClusterOps.AddCaloHit (GetCaloHit info) (ClusterAt (snd (AssignCaloHits pre st)) p).
Proof.
  revert st. induction recs as [|info rest IH]; intros st.
  - left. reflexivity.
  - rewrite AssignCaloHits_cons.
    destruct (IH (snd (AssignCaloHit info st))) as [Hsame|(pre & info' & post & -> & Hp & Hacc & Hc)].
    + destruct (AssignCaloHit_cluster info st p) as [Hstep|(Hp & Hacc & Hstep)].
      * left. congruence.
      * right. exists [], info, rest. simpl.
        repeat split; try assumption. congruence.
    + right. exists (info :: pre), info', post.
      rewrite AssignCaloHits_cons. repeat split; assumption.
Qed.

(** A cluster whose energy has reached the energy that all its records
    carry takes no further hit. *)
Lemma AssignCaloHits_capped (recs : list TrackDistanceInfo) (st : Pandora) (p : nat) (E : Q) :
  (forall info, In info recs -> GetCluster info = p -> GetTrackEnergy info = E) ->
  (E <= GetHadronicEnergy (ClusterAt st p))%Q ->
  ClusterAt (snd (AssignCaloHits recs st)) p = ClusterAt st p.
Proof.
  revert st. induction recs as [|info rest IH]; intros st HE Hcap; [reflexivity|].
  rewrite AssignCaloHits_cons.
  assert (Hstep : ClusterAt (snd (AssignCaloHit info st)) p = ClusterAt st p).
  { destruct (AssignCaloHit_cluster info st p) as [Hs|(Hp & Hacc & _)]; [exact Hs|].
    exfalso. unfold Accepts in Hacc. apply andb_true_iff in Hacc as [Hlt _].
    apply Qltb_lt in Hlt. rewrite Hp, (HE info) in Hlt by (simpl; auto).
    exact (Qlt_not_le _ _ Hlt Hcap). }
  rewrite IH.
  - exact Hstep.
  - intros info' Hin. apply HE. right. exact Hin.
  - rewrite Hstep. exact Hcap.
Qed.

Lemma AssignCaloHit_tracks (info : TrackDistanceInfo) (st : Pandora) (p : nat) :
  GetAssociatedTrackList (ClusterAt (snd (AssignCaloHit info st)) p) =
  GetAssociatedTrackList (ClusterAt st p).
Proof.
  destruct (AssignCaloHit_cluster info st p) as [->|(_ & _ & ->)]; reflexivity.
Qed.

Lemma AssignCaloHits_tracks (recs : list TrackDistanceInfo) (st : Pandora) (p : nat) :
  GetAssociatedTrackList (ClusterAt (snd (AssignCaloHits recs st)) p) =
  GetAssociatedTrackList (ClusterAt st p).
Proof.
  revert st. induction recs as [|info rest IH]; intros st; [reflexivity|].
  rewrite AssignCaloHits_cons, IH. apply AssignCaloHit_tracks.
Qed.

End Walk.

End WalkFacts.

Module SeedingFacts.
Import ForcedClustering.

Section Seeding.

Variable Helix_GetDistanceToPoint : Helix -> CartesianVector -> StatusCode * CartesianVector.
Variable GetMagnitude : CartesianVector -> Q.
Variable cfg : Settings.

Local Abbreviation PopulateTrackDistanceInfo :=
  (PopulateTrackDistanceInfo Helix_GetDistanceToPoint GetMagnitude cfg).
Local Abbreviation MakeTrackSeededClusters :=
  (MakeTrackSeededClusters Helix_GetDistanceToPoint GetMagnitude cfg).

(** Every record that the loop over the hits appends is for the given
    cluster and energy and for a hit that passes the test of line 50. *)
Lemma PopulateTrackDistanceInfo_records (st : Pandora) (pCluster : nat) (pHelix : Helix)
    (trackEnergy : Q) (hits : list CaloHit) (vec0 : list TrackDistanceInfo)
    (s : StatusCode) (vec : list TrackDistanceInfo) :
  PopulateTrackDistanceInfo st pCluster pHelix trackEnergy hits vec0 = (s, vec) ->
  forall info, In info vec ->
    In info vec0 \/
    (GetCluster info = pCluster /\ GetTrackEnergy info = trackEnergy /\
     IsClusterable cfg st (GetCaloHit info) = true /\ In (GetCaloHit info) hits).
Proof.
  revert vec0. induction hits as [|h rest IH]; intros vec0 Hrun info Hin; simpl in Hrun.
  - injection Hrun as _ <-. left. exact Hin.
  - destruct (IsClusterable cfg st h) eqn:Hc.
    + destruct (Helix_GetDistanceToPoint pHelix (GetPositionVector h)) as [s1 sep].
      destruct (failed s1).
      * injection Hrun as _ <-. left. exact Hin.
      * destruct (IH _ Hrun info Hin) as [Hold|(? & ? & ? & ?)].
        -- apply in_app_or in Hold as [Hold|[<-|[]]]; [left; exact Hold|].
           right. simpl. auto.
        -- right. simpl. auto.
    + destruct (IH _ Hrun info Hin) as [Hold|(? & ? & ? & ?)]; [left; exact Hold|].
      right. simpl. auto.
Qed.

(** The first loop of Run appends one cluster without hits per track that
    it reaches and changes nothing else. *)
Lemma MakeTrackSeededClusters_state (tracks : list Track) (input : list CaloHit)
    (st : Pandora) (vec0 : list TrackDistanceInfo)
    (s : StatusCode) (st1 : Pandora) (vec : list TrackDistanceInfo) :
  MakeTrackSeededClusters tracks input st vec0 = (s, st1, vec) ->
  currentTrackList st1 = currentTrackList st /\
  currentOrderedCaloHitList st1 = currentOrderedCaloHitList st /\
  unavailableCaloHits st1 = unavailableCaloHits st /\
  exists n, (n <= length tracks)%nat /\
    (s = STATUS_CODE_SUCCESS -> n = length tracks) /\
    currentClusterList st1 =
      currentClusterList st ++ map ClusterOps.CreateFromTrack (take n tracks).
Proof.
  revert st vec0. induction tracks as [|t rest IH]; intros st vec0 Hrun; simpl in Hrun.
  - injection Hrun as <- <- <-. repeat split.
    exists 0%nat. simpl. rewrite app_nil_r. repeat split; auto.
  - destruct (PopulateTrackDistanceInfo _ _ _ _ input vec0) as [s2 vec2] eqn:Hpop.
    simpl in Hrun.
    destruct (failed s2) eqn:Hf.
    + injection Hrun as <- <- <-. simpl. repeat split.
      exists 1%nat. simpl. split; [lia|]. split; [|reflexivity].
      intros ->. discriminate Hf.
    + apply IH in Hrun as (Ht & Ho & Hu & n & Hn & Hs & Hl). simpl in *.
      repeat split; try assumption.
      exists (S n). simpl. split; [lia|]. split.
      * intros Hsucc. rewrite (Hs Hsucc). reflexivity.
      * rewrite Hl, <- app_assoc. reflexivity.
Qed.

(** Every record of the first loop is for the cluster of one of the
    tracks, carries the energy of that track, and is for a hit that was
    available (and passed the isolation policy) when the loop started. *)
Lemma MakeTrackSeededClusters_records (tracks : list Track) (input : list CaloHit)
    (st : Pandora) (vec0 : list TrackDistanceInfo)
    (s : StatusCode) (st1 : Pandora) (vec : list TrackDistanceInfo) :
  MakeTrackSeededClusters tracks input st vec0 = (s, st1, vec) ->
  forall info, In info vec ->
    In info vec0 \/
    (exists i pTrack, tracks !! i = Some pTrack /\
       GetCluster info = (length (currentClusterList st) + i)%nat /\
       GetTrackEnergy info = GetEnergyAtDca pTrack) /\
    IsClusterable cfg st (GetCaloHit info) = true /\ In (GetCaloHit info) input.
Proof.
  revert st vec0. induction tracks as [|t rest IH]; intros st vec0 Hrun info Hin; simpl in Hrun.
  - injection Hrun as _ _ <-. left. exact Hin.
  - destruct (PopulateTrackDistanceInfo _ _ _ _ input vec0) as [s2 vec2] eqn:Hpop.
    simpl in Hrun.
    pose proof (PopulateTrackDistanceInfo_records _ _ _ _ _ _ _ _ Hpop) as Hrec.
    assert (Hvec2 : In info vec2 ->
              In info vec0 \/
              (exists i pTrack, (t :: rest) !! i = Some pTrack /\
                 GetCluster info = (length (currentClusterList st) + i)%nat /\
                 GetTrackEnergy info = GetEnergyAtDca pTrack) /\
              IsClusterable cfg st (GetCaloHit info) = true /\ In (GetCaloHit info) input).
    { intros Hin2. destruct (Hrec info Hin2) as [Hold|(Hc & He & Ha & Hi)]; [left; exact Hold|].
      right. split; [|split; [exact Ha | exact Hi]].
      exists 0%nat, t. simpl. split; [reflexivity|]. split; [lia | exact He]. }
    destruct (failed s2).
    + injection Hrun as _ _ <-. apply Hvec2, Hin.
    + destruct (IH _ _ Hrun info Hin) as [Hold|((i & pTrack & Hi & Hc & He) & Ha & Hinp)].
      * apply Hvec2, Hold.
      * right. split; [|split; [exact Ha | exact Hinp]].
        exists (S i), pTrack. simpl in *. rewrite length_app in Hc. simpl in Hc.
        split; [exact Hi|]. split; [lia | exact He].
Qed.

End Seeding.

End SeedingFacts.

Module EnergyCap.
Import ForcedClustering WalkFacts SeedingFacts.

Section EnergyCap.

Variable Helix_GetDistanceToPoint : Helix -> CartesianVector -> StatusCode * CartesianVector.
Variable GetMagnitude : CartesianVector -> Q.
Variable std_sort : (TrackDistanceInfo -> TrackDistanceInfo -> bool) ->
                    list TrackDistanceInfo -> list TrackDistanceInfo.
Variable cfg : Settings.

Hypothesis std_sort_contract : SortContract std_sort.

(** C1.  In the walk of Run along the sorted records, for the cluster
    seeded by a track: a record for this cluster is passed over as soon
    as the hadronic energy of the cluster is not strictly below the
    energy of the track at the DCA; after the walk the cluster either
    holds no hit or its energy before the last hit that was added was
    strictly below the track energy, so that it exceeds the track
    energy by less than the energy of that hit; and once the cluster
    energy has reached the track energy the rest of the walk leaves the
    cluster as it is. *)
Theorem energy_cap_stopping_rule (st st1 : Pandora) (inputCaloHitList : list CaloHit)
    (vec : list TrackDistanceInfo) (i : nat) (pTrack : Track) :
  MakeTrackSeededClusters Helix_GetDistanceToPoint GetMagnitude cfg
    (currentTrackList st) inputCaloHitList st [] = (STATUS_CODE_SUCCESS, st1, vec) ->
  currentTrackList st !! i = Some pTrack ->
  let pCluster := (length (currentClusterList st) + i)%nat in
  let sorted := std_sort SortByDistanceToTrack vec in
  let after := fun recs => snd (AssignCaloHits recs st1) in
  let trackEnergy := GetEnergyAtDca pTrack in
  GetAssociatedTrackList (ClusterAt (after sorted) pCluster) = [pTrack] /\
  (forall pre info post,
      sorted = pre ++ info :: post -> GetCluster info = pCluster ->
      (trackEnergy <= GetHadronicEnergy (ClusterAt (after pre) pCluster))%Q ->
      AssignCaloHit info (after pre) = (STATUS_CODE_SUCCESS, after pre)) /\
  (ClusterAt (after sorted) pCluster = ClusterOps.CreateFromTrack pTrack \/
   exists pre info post,
     sorted = pre ++ info :: post /\ GetCluster info = pCluster /\
     (GetHadronicEnergy (ClusterAt (after pre) pCluster) < trackEnergy)%Q /\
     ClusterAt (after sorted) pCluster =
       ClusterOps.AddCaloHit (GetCaloHit info) (ClusterAt (after pre) pCluster) /\
     (GetHadronicEnergy (ClusterAt (after sorted) pCluster) - trackEnergy
        < GetHitHadronicEnergy (GetCaloHit info))%Q) /\
  (forall pre post,
      sorted = pre ++ post ->
      (trackEnergy <= GetHadronicEnergy (ClusterAt (after pre) pCluster))%Q ->
      ClusterAt (after sorted) pCluster = ClusterAt (after pre) pCluster).
Proof.
  intros Hseed Htrack pCluster sorted after trackEnergy.
  pose proof (MakeTrackSeededClusters_state _ _ _ _ _ _ _ _ _ _ Hseed)
    as (_ & _ & _ & n & _ & Hn & Hlist).
  specialize (Hn eq_refl). subst n. rewrite firstn_all in Hlist.
  (* the cluster behind the pointer is the one created for the track *)
  assert (Hinit : ClusterAt st1 pCluster = ClusterOps.CreateFromTrack pTrack).
  { apply ClusterAt_lookup. rewrite Hlist. subst pCluster.
    rewrite lookup_app_r by lia.
    replace (length (currentClusterList st) + i - length (currentClusterList st))%nat
      with i by lia.
    rewrite list_lookup_fmap, Htrack. reflexivity. }
  (* every record for this pointer carries the energy of this track *)
  assert (Henergy : forall info, In info sorted -> GetCluster info = pCluster ->
            GetTrackEnergy info = trackEnergy).
  { intros info Hin Hp.
    assert (Hin' : In info vec).
    { eapply Permutation_in; [symmetry; apply (std_sort_contract vec)|exact Hin]. }
    destruct (MakeTrackSeededClusters_records _ _ _ _ _ _ _ _ _ _ Hseed info Hin')
      as [[]|((j & t & Hj & Hc & He) & _)].
    subst pCluster. assert (j = i) by lia. subst j.
    rewrite Htrack in Hj. injection Hj as <-. exact He. }
  split; [|split; [|split]].
  - unfold after. rewrite AssignCaloHits_tracks, Hinit. reflexivity.
  - intros pre info post Hsplit Hp Hcap.
    rewrite AssignCaloHit_unfold. unfold Accepts.
    assert (He : GetTrackEnergy info = trackEnergy).
    { apply Henergy; [|exact Hp]. rewrite Hsplit. apply in_elt. }
    rewrite Hp, He.
    apply Qltb_ge in Hcap. rewrite Hcap. reflexivity.
  - destruct (AssignCaloHits_last_added sorted st1 pCluster)
      as [Hsame|(pre & info & post & Hsplit & Hp & Hacc & Hc)].
    + left. unfold after. rewrite Hsame. exact Hinit.
    + right. exists pre, info, post.
      assert (He : GetTrackEnergy info = trackEnergy).
      { apply Henergy; [|exact Hp]. rewrite Hsplit. apply in_elt. }
      unfold Accepts in Hacc. apply andb_true_iff in Hacc as [Hlt _].
      apply Qltb_lt in Hlt. rewrite Hp, He in Hlt.
      repeat split; try assumption.
      unfold after in *. rewrite Hc.
      unfold ClusterOps.AddCaloHit. cbn [GetHadronicEnergy]. lra.
  - intros pre post Hsplit Hcap. unfold after.
    rewrite Hsplit, AssignCaloHits_app.
    apply AssignCaloHits_capped with (E := trackEnergy); [|exact Hcap].
    intros info Hin. apply Henergy. rewrite Hsplit. apply in_or_app. right. exact Hin.
Qed.

End EnergyCap.

End EnergyCap.

Module ExclusivityFacts.
Import ForcedClustering WalkFacts SeedingFacts.

Lemma ClusteredHitIds_app (l1 l2 : list Cluster) :
  ClusteredHitIds (l1 ++ l2) = ClusteredHitIds l1 ++ ClusteredHitIds l2.
Proof. unfold ClusteredHitIds. rewrite map_app, concat_app. reflexivity. Qed.

Lemma ClusteredHitIds_seeds (tracks : list Track) :
  ClusteredHitIds (map ClusterOps.CreateFromTrack tracks) = [].
Proof. induction tracks as [|t rest IH]; [reflexivity | exact IH]. Qed.

Lemma ClusteredHitIds_alter (h : CaloHit) (p : nat) (l : list Cluster) :
  (p < length l)%nat ->
  Permutation (ClusteredHitIds (alter (ClusterOps.AddCaloHit h) p l)) (hitId h :: ClusteredHitIds l).
Proof.
  revert p. induction l as [|c rest IH]; intros p Hp; simpl in Hp; [lia|].
  destruct p as [|p]; unfold ClusteredHitIds in *; simpl.
  - rewrite (ClusterFacts.GetCaloHits_AddCaloHit h c). reflexivity.
  - rewrite (IH p) by lia. symmetry. apply Permutation_middle.
Qed.

Lemma alter_out_of_range (f : Cluster -> Cluster) (p : nat) (l : list Cluster) :
  (length l <= p)%nat -> alter f p l = l.
Proof.
  intros Hp. apply list_eq. intros j.
  destruct (decide (p = j)) as [<-|Hne].
  - rewrite list_lookup_alter_eq, (lookup_ge_None_2 _ _ Hp). reflexivity.
  - apply list_lookup_alter_ne. exact Hne.
Qed.

Lemma available_iff (st : Pandora) (h : CaloHit) :
  IsCaloHitAvailable st h = true <-> hitId h ∉ unavailableCaloHits st.
Proof. unfold IsCaloHitAvailable. apply bool_decide_eq_true. Qed.

Lemma AddCaloHitToCluster_unavailable (p : nat) (h : CaloHit) (st : Pandora) :
  IsCaloHitAvailable (snd (AddCaloHitToCluster p h st)) h = false.
Proof.
  unfold IsCaloHitAvailable. simpl. apply bool_decide_eq_false. set_solver.
Qed.

Lemma AddCaloHitToCluster_Exclusive (p : nat) (h : CaloHit) (st : Pandora) :
  IsCaloHitAvailable st h = true -> Exclusive st ->
  Exclusive (snd (AddCaloHitToCluster p h st)).
Proof.
  intros Hav [Hnd Hsub]. apply available_iff in Hav.
  unfold Exclusive. simpl.
  destruct (decide (p < length (currentClusterList st))%nat) as [Hlt|Hge].
  - pose proof (ClusteredHitIds_alter h p _ Hlt) as Hperm. split.
    + rewrite Hperm. apply NoDup_cons. split; [|exact Hnd].
      intros Hin. apply Hav, Hsub, Hin.
    + intros id Hin. rewrite Hperm in Hin.
      apply elem_of_cons in Hin as [->|Hin]; [set_solver|].
      apply elem_of_union_r, Hsub, Hin.
  - rewrite alter_out_of_range by lia. split; [exact Hnd|].
    intros id Hin. apply elem_of_union_r, Hsub, Hin.
Qed.

Lemma AssignCaloHit_Exclusive (info : TrackDistanceInfo) (st : Pandora) :
  Exclusive st -> Exclusive (snd (AssignCaloHit info st)).
Proof.
  intros Hex. rewrite AssignCaloHit_unfold.
  destruct (Accepts info st) eqn:Hacc; [|exact Hex].
  apply AddCaloHitToCluster_Exclusive; [|exact Hex].
  unfold Accepts in Hacc. apply andb_true_iff in Hacc as [_ Hav]. exact Hav.
Qed.

Lemma AssignCaloHits_Exclusive (recs : list TrackDistanceInfo) (st : Pandora) :
  Exclusive st -> Exclusive (snd (AssignCaloHits recs st)).
Proof.
  revert st. induction recs as [|info rest IH]; intros st Hex; [exact Hex|].
  rewrite AssignCaloHits_cons. apply IH, AssignCaloHit_Exclusive, Hex.
Qed.

(** A hit that is not available is never added by a step of the walk. *)
Lemma AssignCaloHit_unavailable (info : TrackDistanceInfo) (st : Pandora) :
  IsCaloHitAvailable st (GetCaloHit info) = false ->
  AssignCaloHit info st = (STATUS_CODE_SUCCESS, st).
Proof.
  intros Hav. rewrite AssignCaloHit_unfold. unfold Accepts.
  rewrite Hav, andb_false_r. reflexivity.
Qed.

Section Phases.

Variable Helix_GetDistanceToPoint : Helix -> CartesianVector -> StatusCode * CartesianVector.
Variable GetMagnitude : CartesianVector -> Q.
Variable std_sort : (TrackDistanceInfo -> TrackDistanceInfo -> bool) ->
                    list TrackDistanceInfo -> list TrackDistanceInfo.
Variable RunDaughterAlgorithm : string -> Pandora -> StatusCode * Pandora.
Variable cfg : Settings.

Lemma MakeTrackSeededClusters_Exclusive (tracks : list Track) (input : list CaloHit)
    (st : Pandora) (vec0 : list TrackDistanceInfo)
    (s : StatusCode) (st1 : Pandora) (vec : list TrackDistanceInfo) :
  MakeTrackSeededClusters Helix_GetDistanceToPoint GetMagnitude cfg tracks input st vec0
    = (s, st1, vec) ->
  Exclusive st -> Exclusive st1.
Proof.
  intros Hrun [Hnd Hsub].
  apply MakeTrackSeededClusters_state in Hrun as (_ & _ & Hu & n & _ & _ & Hl).
  unfold Exclusive.
  rewrite Hl, Hu, ClusteredHitIds_app, ClusteredHitIds_seeds, app_nil_r.
  split; assumption.
Qed.

Lemma AssignToTrackSeededClusters_Exclusive (input : list CaloHit) (st : Pandora) :
  Exclusive st ->
  Exclusive (snd (AssignToTrackSeededClusters Helix_GetDistanceToPoint GetMagnitude std_sort cfg input st)).
Proof.
  intros Hex. unfold AssignToTrackSeededClusters.
  destruct (MakeTrackSeededClusters _ _ _ _ _ _ _) as [[s st1] vec] eqn:Hseed.
  apply MakeTrackSeededClusters_Exclusive in Hseed; [|exact Hex].
  destruct (failed s); [exact Hseed|].
  apply AssignCaloHits_Exclusive, Hseed.
Qed.

(** The remnant list holds available hits only, each once. *)
Lemma RemnantCaloHitList_spec (st : Pandora) (input : list CaloHit) :
  NoDup (map hitId (RemnantCaloHitList cfg st input)) /\
  forall h, In h (RemnantCaloHitList cfg st input) -> IsCaloHitAvailable st h = true.
Proof.
  unfold RemnantCaloHitList.
  assert (G : forall acc,
            NoDup (map hitId acc) ->
            (forall h, In h acc -> IsCaloHitAvailable st h = true) ->
            let r := fold_left (fun remnantCaloHitList pCaloHit =>
                       if IsClusterable cfg st pCaloHit
                       then CaloHitList_insert pCaloHit remnantCaloHitList
                       else remnantCaloHitList) input acc in
            NoDup (map hitId r) /\ forall h, In h r -> IsCaloHitAvailable st h = true).
  { induction input as [|x rest IH]; intros acc Hnd Hav; simpl; [split; assumption|].
    apply IH.
    - destruct (IsClusterable cfg st x); [|exact Hnd].
      unfold CaloHitList_insert. case_bool_decide as Hin; [exact Hnd|].
      rewrite map_app. simpl. apply NoDup_app. split; [exact Hnd|].
      split; [|apply NoDup_singleton].
      intros id Hid Hx. apply list_elem_of_singleton in Hx. subst id. exact (Hin Hid).
    - destruct (IsClusterable cfg st x) eqn:Hc; [|exact Hav].
      unfold CaloHitList_insert. case_bool_decide as Hin; [exact Hav|].
      intros h Hh. apply in_app_or in Hh as [Hh|[<-|[]]]; [apply Hav, Hh|].
      unfold IsClusterable in Hc. apply andb_true_iff in Hc as [Hc _]. exact Hc. }
  apply G; [constructor | intros h []].
Qed.

Lemma DealWithRemainingHits_Exclusive (input : list CaloHit) (st : Pandora) :
  m_shouldRunStandardClusteringAlgorithm cfg = false ->
  Exclusive st ->
  Exclusive (snd (DealWithRemainingHits RunDaughterAlgorithm cfg input st)).
Proof.
  intros Hflag [Hnd Hsub]. unfold DealWithRemainingHits. rewrite Hflag.
  destruct (RemnantCaloHitList_spec st input) as [Hrnd Hrav].
  destruct (RemnantCaloHitList cfg st input) as [|h rest] eqn:Hrem; [split; assumption|].
  set (remnant := h :: rest) in *.
  unfold Exclusive, Cluster_Create_FromCaloHitList.
  cbn [snd fst currentClusterList unavailableCaloHits].
  assert (Hids : Permutation (ClusteredHitIds [ClusterOps.CreateFromCaloHitList remnant])
                             (map hitId remnant)).
  { unfold ClusteredHitIds. cbn [map concat]. rewrite app_nil_r.
    apply Permutation_map, ClusterFacts.GetCaloHits_CreateFromCaloHitList. }
  rewrite ClusteredHitIds_app. split.
  - apply NoDup_app. split; [exact Hnd|]. split; [|rewrite Hids; exact Hrnd].
    intros id Hold Hnew. rewrite Hids in Hnew.
    apply list_elem_of_fmap in Hnew as (x & -> & Hx).
    apply list_elem_of_In, Hrav, available_iff in Hx. apply Hx, Hsub, Hold.
  - intros id Hin. apply elem_of_app in Hin as [Hin|Hin].
    + apply elem_of_union_r, Hsub, Hin.
    + apply elem_of_union_l. rewrite Hids in Hin. rewrite elem_of_list_to_set. exact Hin.
Qed.

Lemma ClusterDeletionList_spec (l : list Cluster) (i k : nat) :
  k ∈ ClusterDeletionList i l ->
  exists j c, k = (i + j)%nat /\ l !! j = Some c /\ ClusterOps.GetCaloHits c = [].
Proof.
  revert i. induction l as [|c rest IH]; intros i Hk; cbn [ClusterDeletionList] in Hk.
  - apply elem_of_nil in Hk as [].
  - destruct (0 =? ClusterOps.GetNCaloHits c) eqn:Hz.
    + apply elem_of_cons in Hk as [->|Hk].
      * exists 0%nat, c. split; [lia|]. split; [reflexivity|].
        apply Z.eqb_eq in Hz. unfold ClusterOps.GetNCaloHits in Hz.
        destruct (ClusterOps.GetCaloHits c); [reflexivity | simpl in Hz; lia].
      * destruct (IH _ Hk) as (j & c' & -> & Hj & Hc').
        exists (S j), c'. split; [lia|]. split; assumption.
    + destruct (IH _ Hk) as (j & c' & -> & Hj & Hc').
      exists (S j), c'. split; [lia|]. split; assumption.
Qed.

Lemma RemovePointers_hits (ptrs : list nat) (l : list Cluster) (i : nat) :
  (forall j c, l !! j = Some c -> (i + j)%nat ∈ ptrs -> ClusterOps.GetCaloHits c = []) ->
  ClusteredHitIds (RemovePointers ptrs i l) = ClusteredHitIds l.
Proof.
  revert i. induction l as [|c rest IH]; intros i Hempty; [reflexivity|].
  simpl.
  assert (Hrest : ClusteredHitIds (RemovePointers ptrs (S i) rest) = ClusteredHitIds rest).
  { apply IH. intros j c' Hj Hin. apply (Hempty (S j) c'); [exact Hj|].
    replace (i + S j)%nat with (S i + j)%nat by lia. exact Hin. }
  case_bool_decide as Hin.
  - rewrite Hrest. unfold ClusteredHitIds at 2. simpl.
    rewrite (Hempty 0%nat c); [reflexivity | reflexivity |].
    replace (i + 0)%nat with i by lia. exact Hin.
  - unfold ClusteredHitIds in *. simpl. rewrite Hrest. reflexivity.
Qed.

Lemma RemoveEmptyClusters_Exclusive (st : Pandora) :
  Exclusive st -> Exclusive (snd (RemoveEmptyClusters st)).
Proof.
  intros [Hnd Hsub]. unfold RemoveEmptyClusters.
  destruct (ClusterDeletionList 0 (currentClusterList st)) as [|k ks] eqn:Hdel;
    [split; assumption|].
  unfold Exclusive. simpl.
  rewrite RemovePointers_hits; [split; assumption|].
  intros j c Hj Hin. rewrite <- Hdel in Hin.
  apply ClusterDeletionList_spec in Hin as (j' & c' & Heq & Hj' & Hc').
  assert (j' = j) by lia. subst j'. congruence.
Qed.

End Phases.

End ExclusivityFacts.

Module ForcedClusteringTheorems.
Import ForcedClustering ForcedClusteringExamples.
Import SortFacts WalkFacts SeedingFacts ExclusivityFacts.

Example plainEvent_run :
  let result := Run exampleHelixDistance AxisMagnitude StableSort noDaughterAlgorithm
                    DefaultSettings plainEvent in
  fst result = STATUS_CODE_SUCCESS /\
  Membership (snd result) = [([0%nat], [0%nat; 1%nat]); ([1%nat], [2%nat])] /\
  map GetHadronicEnergy (currentClusterList (snd result)) = [4%Q; 1%Q].
Proof. vm_compute. repeat split. Qed.

(** Scenario A: the hit is assigned and the cluster energy is the track energy. *)
Example scenarioA_run :
  let result := Run exampleHelixDistance AxisMagnitude StableSort noDaughterAlgorithm
                    DefaultSettings scenarioA in
  fst result = STATUS_CODE_SUCCESS /\
  Membership (snd result) = [([0%nat], [0%nat])] /\
  map GetHadronicEnergy (currentClusterList (snd result)) = [3%Q].
Proof. vm_compute. repeat split. Qed.

Lemma energy_cap_stopping_rule_witness :
  MakeTrackSeededClusters exampleHelixDistance AxisMagnitude DefaultSettings
    (currentTrackList plainEvent) plainInput plainEvent []
    = (STATUS_CODE_SUCCESS, plainSeeded, plainRecords) /\
  currentTrackList plainEvent !! 0%nat = Some (trackAt 0 0 3) /\
  GetAssociatedTrackList
    (ClusterAt (snd (AssignCaloHits (StableSort SortByDistanceToTrack plainRecords) plainSeeded))
               (length (currentClusterList plainEvent) + 0))
    = [trackAt 0 0 3].
Proof.
  split; [reflexivity|]. split; [reflexivity|].
  exact (proj1 (EnergyCap.energy_cap_stopping_rule exampleHelixDistance AxisMagnitude StableSort
                  DefaultSettings StableSort_contract plainEvent plainSeeded plainInput
                  plainRecords 0%nat (trackAt 0 0 3) eq_refl eq_refl)).
Defined.

Section Run.

Variable Helix_GetDistanceToPoint : Helix -> CartesianVector -> StatusCode * CartesianVector.
Variable GetMagnitude : CartesianVector -> Q.
Variable std_sort : (TrackDistanceInfo -> TrackDistanceInfo -> bool) ->
                    list TrackDistanceInfo -> list TrackDistanceInfo.
Variable RunDaughterAlgorithm : string -> Pandora -> StatusCode * Pandora.
Variable cfg : Settings.

Local Abbreviation Run :=
  (Run Helix_GetDistanceToPoint GetMagnitude std_sort RunDaughterAlgorithm cfg).

(** C2.  Within one pass of Run a hit is assigned to at most one cluster:
    every hit of a Distance Record was available when it was recorded; a
    step of the walk passes over a hit that is no longer available;
    adding a hit to a cluster clears its availability; the walk along the
    records takes a state in which every hit is in at most one cluster (and
    clustered hits are not available) to such a state again; and so does
    Run as a whole when the remaining hits are collected into the remnant
    cluster: no hit is added twice, neither to a track-seeded cluster nor to
    the remnant cluster. *)
Theorem hit_exclusivity (st : Pandora) :
  (forall tracks input s st1 vec,
      MakeTrackSeededClusters Helix_GetDistanceToPoint GetMagnitude cfg tracks input st []
        = (s, st1, vec) ->
      forall info, In info vec -> IsCaloHitAvailable st (GetCaloHit info) = true) /\
  (forall info, IsCaloHitAvailable st (GetCaloHit info) = false ->
      AssignCaloHit info st = (STATUS_CODE_SUCCESS, st)) /\
  (forall pCluster pCaloHit,
      IsCaloHitAvailable (snd (AddCaloHitToCluster pCluster pCaloHit st)) pCaloHit = false) /\
  (Exclusive st ->
   forall input,
     Exclusive (snd (AssignToTrackSeededClusters Helix_GetDistanceToPoint GetMagnitude
                       std_sort cfg input st))) /\
  (m_shouldRunStandardClusteringAlgorithm cfg = false ->
   m_shouldAssociateIsolatedHits cfg = false ->
   Exclusive st -> Exclusive (snd (Run st))).
Proof.
  split; [|split; [|split; [|split]]].
  - intros tracks input s st1 vec Hseed info Hin.
    destruct (MakeTrackSeededClusters_records _ _ _ _ _ _ _ _ _ _ Hseed info Hin)
      as [[]|(_ & Hc & _)].
    unfold IsClusterable in Hc. apply andb_true_iff in Hc as [Hc _]. exact Hc.
  - intros info Hav. apply AssignCaloHit_unavailable, Hav.
  - intros pCluster pCaloHit. apply AddCaloHitToCluster_unavailable.
  - intros Hex input. apply AssignToTrackSeededClusters_Exclusive, Hex.
  - intros Hstd Hiso Hex. unfold ForcedClustering.Run.
    destruct (currentTrackList st) as [|t ts] eqn:Htracks; [exact Hex|].
    destruct (OrderedCaloHitList.empty (currentOrderedCaloHitList st)); [exact Hex|].
    set (input := OrderedCaloHitList.GetCaloHitList (currentOrderedCaloHitList st)).
    pose proof (AssignToTrackSeededClusters_Exclusive Helix_GetDistanceToPoint GetMagnitude
                  std_sort cfg input st Hex) as H1.
    destruct (AssignToTrackSeededClusters _ _ _ _ input st) as [s1 st1]. simpl in H1.
    destruct (failed s1); [exact H1|].
    pose proof (DealWithRemainingHits_Exclusive RunDaughterAlgorithm cfg input st1 Hstd H1) as H2.
    destruct (DealWithRemainingHits _ _ input st1) as [s2 st2]. simpl in H2.
    destruct (failed s2); [exact H2|].
    unfold AssociateIsolatedHits. rewrite Hiso. simpl.
    pose proof (RemoveEmptyClusters_Exclusive st2 H2) as H3.
    destruct (RemoveEmptyClusters st2) as [s4 st4]. simpl in H3.
    destruct (failed s4); exact H3.
Qed.

(** C9.  Run returns INVALID_PARAMETER when the current track list is
    empty or the current ordered calo hit list is empty, and the state it
    leaves is the state it found: no cluster is created and no
    availability flag is touched. *)
Theorem empty_input_failure (st : Pandora) :
  currentTrackList st = [] \/ currentOrderedCaloHitList st = [] ->
  Run st = (STATUS_CODE_INVALID_PARAMETER, st).
Proof.
  intros [Ht|Hh]; unfold ForcedClustering.Run.
  - rewrite Ht. reflexivity.
  - rewrite Hh. destruct (currentTrackList st); reflexivity.
Qed.

End Run.

Lemma hit_exclusivity_witness :
  m_shouldRunStandardClusteringAlgorithm DefaultSettings = false /\
  m_shouldAssociateIsolatedHits DefaultSettings = false /\
  Exclusive plainEvent /\
  Exclusive (snd (Run exampleHelixDistance AxisMagnitude StableSort noDaughterAlgorithm
                      DefaultSettings plainEvent)).
Proof.
  assert (Hex : Exclusive plainEvent).
  { split; [constructor | intros id Hin; inversion Hin]. }
  split; [reflexivity|]. split; [reflexivity|]. split; [exact Hex|].
  exact (proj2 (proj2 (proj2 (proj2 (hit_exclusivity exampleHelixDistance AxisMagnitude
                                       StableSort noDaughterAlgorithm DefaultSettings
                                       plainEvent))))
           eq_refl eq_refl Hex).
Defined.

Lemma empty_input_failure_witness :
  (currentTrackList scenarioB = [] \/ currentOrderedCaloHitList scenarioB = []) /\
  Run exampleHelixDistance AxisMagnitude StableSort noDaughterAlgorithm DefaultSettings scenarioB
    = (STATUS_CODE_INVALID_PARAMETER, scenarioB).
Proof.
  split; [left; reflexivity|].
  apply (empty_input_failure exampleHelixDistance AxisMagnitude StableSort noDaughterAlgorithm
           DefaultSettings scenarioB).
  left. reflexivity.
Defined.

End ForcedClusteringTheorems.

Module SortDeterminism.
Import ForcedClustering ForcedClusteringExamples SortFacts.

(** C8, as the code has it.  The records are sorted by [std::sort], which
    arranges them by increasing distance and leaves the order of records
    that tie open.  On an event without two records at the same distance
    every sort routine that meets the contract of [std::sort] returns the
    records in the one order by increasing distance, the order a stable
    sort returns them in, and so all such routines give the same result of
    Run, status and cluster membership alike. *)
Theorem sort_order_and_determinism
    (Helix_GetDistanceToPoint : Helix -> CartesianVector -> StatusCode * CartesianVector)
    (GetMagnitude : CartesianVector -> Q)
    (RunDaughterAlgorithm : string -> Pandora -> StatusCode * Pandora)
    (cfg : Settings)
    (sort1 sort2 : (TrackDistanceInfo -> TrackDistanceInfo -> bool) ->
                   list TrackDistanceInfo -> list TrackDistanceInfo)
    (st : Pandora) :
  SortContract sort1 -> SortContract sort2 ->
  let input := OrderedCaloHitList.GetCaloHitList (currentOrderedCaloHitList st) in
  let records := snd (MakeTrackSeededClusters Helix_GetDistanceToPoint GetMagnitude cfg
                        (currentTrackList st) input st []) in
  NoTies records ->
  sort1 SortByDistanceToTrack records = StableSort SortByDistanceToTrack records /\
  sort1 SortByDistanceToTrack records = sort2 SortByDistanceToTrack records /\
  Run Helix_GetDistanceToPoint GetMagnitude sort1 RunDaughterAlgorithm cfg st =
  Run Helix_GetDistanceToPoint GetMagnitude sort2 RunDaughterAlgorithm cfg st /\
  Membership (snd (Run Helix_GetDistanceToPoint GetMagnitude sort1 RunDaughterAlgorithm cfg st)) =
  Membership (snd (Run Helix_GetDistanceToPoint GetMagnitude sort2 RunDaughterAlgorithm cfg st)).
Proof.
  intros C1 C2 input records Hties.
  pose proof (sorts_agree_without_ties sort1 sort2 records C1 C2 Hties) as Hsame.
  pose proof (sorts_agree_without_ties sort1 StableSort records C1 StableSort_contract Hties)
    as Hstable.
  assert (Hrun : Run Helix_GetDistanceToPoint GetMagnitude sort1 RunDaughterAlgorithm cfg st =
                 Run Helix_GetDistanceToPoint GetMagnitude sort2 RunDaughterAlgorithm cfg st).
  { unfold Run, AssignToTrackSeededClusters. fold input.
    subst records.
    destruct (MakeTrackSeededClusters _ _ _ _ input st []) as [[s st1] vec].
    simpl in Hsame. rewrite Hsame. reflexivity. }
  split; [exact Hstable|]. split; [exact Hsame|]. split; [exact Hrun|].
  rewrite Hrun. reflexivity.
Qed.

Lemma plainRecords_NoTies : NoTies plainRecords.
Proof.
  split.
  - vm_compute. repeat (apply NoDup_cons; split; [intros Hin; repeat (apply elem_of_cons in Hin as [Hin|Hin]; [discriminate Hin|]); inversion Hin|]). constructor.
  - intros a b Ha Hb.
    vm_compute in Ha, Hb.
    repeat (destruct Ha as [<-|Ha]); try contradiction;
      repeat (destruct Hb as [<-|Hb]); try contradiction;
      intros Hd; try reflexivity; vm_compute in Hd; discriminate Hd.
Qed.

(** Insertion sort and insertion sort of the reversed vector are two
    routines that meet the contract; on [plainEvent], where no two records
    tie, they give the same result. *)
Lemma sort_order_and_determinism_witness :
  SortContract StableSort /\ SortContract TieReversingSort /\
  NoTies plainRecords /\
  Run exampleHelixDistance AxisMagnitude StableSort noDaughterAlgorithm DefaultSettings plainEvent =
  Run exampleHelixDistance AxisMagnitude TieReversingSort noDaughterAlgorithm DefaultSettings plainEvent.
Proof.
  split; [exact StableSort_contract|]. split; [exact TieReversingSort_contract|].
  split; [exact plainRecords_NoTies|].
  exact (proj1 (proj2 (proj2 (sort_order_and_determinism exampleHelixDistance AxisMagnitude
                                noDaughterAlgorithm DefaultSettings StableSort TieReversingSort
                                plainEvent StableSort_contract TieReversingSort_contract
                                plainRecords_NoTies)))).
Defined.

(** C8, as the claim has it, fails.  In [crowdedEvent] nine hits lie half
    way between two tracks, so that all eighteen records tie; a sort that
    breaks ties by encounter order leaves them as they were recorded.
    [std::sort] of the GNU C++ library, which partitions a vector of more
    than 16 elements before it sorts by insertion, returns them in another
    order: the record of the second track and hit 0 comes first.  The walk
    then gives hits 0 and 8 to the cluster of the second track and hits 7
    and 6 to that of the first, where the encounter order gives hits 0 and 1
    to the first cluster and hits 2 and 3 to the second. *)
Lemma sort_ties_not_in_encounter_order :
  map GetTrackDistance crowdedRecords = repeat 2%Q 18 /\
  StableSort SortByDistanceToTrack crowdedRecords = crowdedRecords /\
  map RecordKey crowdedRecords
  = [(0, 0); (0, 1); (0, 2); (0, 3); (0, 4); (0, 5); (0, 6); (0, 7); (0, 8);
     (1, 0); (1, 1); (1, 2); (1, 3); (1, 4); (1, 5); (1, 6); (1, 7); (1, 8)]%nat /\
  map RecordKey (libstdcxx.sort SortByDistanceToTrack crowdedRecords)
  = [(1, 0); (1, 8); (1, 7); (1, 6); (1, 5); (1, 4); (1, 3); (1, 2); (1, 1);
     (0, 0); (0, 8); (0, 7); (0, 6); (0, 5); (0, 4); (0, 3); (0, 2); (0, 1)]%nat /\
  libstdcxx.sort SortByDistanceToTrack crowdedRecords
  <> StableSort SortByDistanceToTrack crowdedRecords /\
  Membership (snd (Run exampleHelixDistance AxisMagnitude libstdcxx.sort noDaughterAlgorithm
                       DefaultSettings crowdedEvent))
  = [([0], [7; 6]); ([1], [0; 8]); ([], [1; 2; 3; 4; 5])]%nat /\
  Membership (snd (Run exampleHelixDistance AxisMagnitude StableSort noDaughterAlgorithm
                       DefaultSettings crowdedEvent))
  = [([0], [0; 1]); ([1], [2; 3]); ([], [4; 5; 6; 7; 8])]%nat /\
  Membership (snd (Run exampleHelixDistance AxisMagnitude libstdcxx.sort noDaughterAlgorithm
                       DefaultSettings crowdedEvent))
  <> Membership (snd (Run exampleHelixDistance AxisMagnitude StableSort noDaughterAlgorithm
                          DefaultSettings crowdedEvent)).
Proof.
  split; [vm_compute; reflexivity|].
  split; [vm_compute; reflexivity|].
  split; [vm_compute; reflexivity|].
  split; [vm_compute; reflexivity|].
  split.
  { intros Heq. apply (f_equal (map RecordKey)) in Heq. vm_compute in Heq. discriminate Heq. }
  split; [vm_compute; reflexivity|].
  split; [vm_compute; reflexivity|].
  intros Heq. vm_compute in Heq. discriminate Heq.
Qed.

(** Up to 16 records the library sorts by insertion alone: the two records
    of [tiedEvent], which tie, stay in the order they were recorded in, and
    the hit goes to the cluster of the first track. *)
Example tiedEvent_runs :
  map GetTrackDistance tiedRecords = [2%Q; 2%Q] /\
  libstdcxx.sort SortByDistanceToTrack tiedRecords = tiedRecords /\
  Membership (snd (Run exampleHelixDistance AxisMagnitude libstdcxx.sort noDaughterAlgorithm
                       DefaultSettings tiedEvent)) = [([0%nat], [0%nat])].
Proof. vm_compute. repeat split. Qed.

(** On [plainEvent], where no two records tie, the library returns the
    records in the order of the stable sort. *)
Example plainEvent_sorted :
  libstdcxx.sort SortByDistanceToTrack plainRecords
  = StableSort SortByDistanceToTrack plainRecords /\
  Run exampleHelixDistance AxisMagnitude libstdcxx.sort noDaughterAlgorithm DefaultSettings plainEvent
  = Run exampleHelixDistance AxisMagnitude StableSort noDaughterAlgorithm DefaultSettings plainEvent.
Proof. vm_compute. split; reflexivity. Qed.

End SortDeterminism.

(** * Properties of the mip-photon separation, continued *)

Module MipPhotonSeparationTheorems.
Import MipPhotonSeparation MipPhotonSeparationProofs.

Lemma GetDistanceToTrack_contract_witness :
  let h := exampleHit 0 1 3 HCAL true in
  ~ (m_maxTrackSeparation DefaultSettings == 0)%Q /\
  (Separation binary32 AxisMagnitude exampleTrack h < m_maxTrackSeparation DefaultSettings)%Q /\
  ~ (CutWidth binary32 AxisMagnitude DefaultSettings exampleTrack h == 0)%Q /\
  GetDistanceToTrack binary32 AxisMagnitude exampleDirection DefaultSettings showerThenMip exampleTrack h 0%Q
    = (STATUS_CODE_SUCCESS,
       Fdiv binary32
         (PerpendicularDistance binary32 AxisMagnitude exampleDirection showerThenMip exampleTrack h)
         (CutWidth binary32 AxisMagnitude DefaultSettings exampleTrack h)).
Proof.
  intros h.
  assert (H1 : ~ (m_maxTrackSeparation DefaultSettings == 0)%Q) by (intros E; discriminate E).
  assert (H2 : (Separation binary32 AxisMagnitude exampleTrack h < m_maxTrackSeparation DefaultSettings)%Q)
    by reflexivity.
  assert (H3 : ~ (CutWidth binary32 AxisMagnitude DefaultSettings exampleTrack h == 0)%Q)
    by (intros E; vm_compute in E; discriminate E).
  split; [exact H1|]. split; [exact H2|]. split; [exact H3|].
  exact (proj2 (proj2 (proj2 (GetDistanceToTrack_contract binary32 AxisMagnitude exampleDirection
                                DefaultSettings showerThenMip exampleTrack h 0%Q))) H1 H2 H3).
Defined.

Example GetDistanceToTrack_value :
  GetDistanceToTrack binary32 AxisMagnitude exampleDirection DefaultSettings showerThenMip
    exampleTrack (exampleHit 0 1 3 HCAL true) 0%Q
  = (STATUS_CODE_SUCCESS, 8005033 # 67108864) /\
  forall h, fst (GetDistanceToTrack binary32 AxisMagnitude exampleDirection noECalPadSettings
                   showerThenMip exampleTrack h 0%Q) = STATUS_CODE_FAILURE
            \/ GetHitType h = HCAL
            \/ fst (GetDistanceToTrack binary32 AxisMagnitude exampleDirection noECalPadSettings
                      showerThenMip exampleTrack h 0%Q) = STATUS_CODE_UNCHANGED.
Proof.
  split.
  - vm_compute. reflexivity.
  - intros h. rewrite GetDistanceToTrack_unfold.
    destruct (GetHitType h) eqn:Ht; [|right; left; reflexivity].
    destruct (Qeqb 0 (m_maxTrackSeparation noECalPadSettings)); [left; reflexivity|].
    destruct (Qltb _ _); [|right; right; reflexivity].
    left. unfold CutWidth, PadWidth. rewrite Ht.
    change (m_additionalPadWidthsECal noECalPadSettings) with 0%Q.
    rewrite binary32_mul_zero_l, binary32_mul_zero_r. reflexivity.
Qed.

Section Decisions.

Variable fp : FloatArithmetic.
Variable GetMagnitude : CartesianVector -> Q.
Variable GetInitialDirection : Cluster -> CartesianVector.
Variable TRACK_PROJECTION_LAYER : PseudoLayer.
Variable GetCorrectedHadronicEnergy : Cluster -> Q.
Variable IsPhotonFast : Cluster -> bool.
Variable GetTrackClusterCompatibility : Q -> Q -> Q.
Variable cfg : Settings.

Local Abbreviation GetDistanceToTrack := (GetDistanceToTrack fp GetMagnitude GetInitialDirection cfg).
Local Abbreviation ShouldFragmentCluster :=
  (ShouldFragmentCluster fp GetMagnitude GetInitialDirection TRACK_PROJECTION_LAYER cfg).
Local Abbreviation ScanCluster :=
  (ScanCluster fp GetMagnitude GetInitialDirection TRACK_PROJECTION_LAYER cfg).
Local Abbreviation MakeClusterFragments :=
  (MakeClusterFragments fp GetMagnitude GetInitialDirection cfg).
Local Abbreviation FragmentCluster :=
  (FragmentCluster fp GetMagnitude GetInitialDirection TRACK_PROJECTION_LAYER
     GetCorrectedHadronicEnergy IsPhotonFast GetTrackClusterCompatibility cfg).
Local Abbreviation DeltaChi2 := (DeltaChi2 fp GetCorrectedHadronicEnergy GetTrackClusterCompatibility).

(** C6, as the code has it.  ShouldFragmentCluster returns true only if
    mipRegion2EndLayer was set to a real layer; given that, it returns true
    when a shower end layer was found and no shower start layer; otherwise
    when the span of mipRegion2 exceeds MinMipRegion2Span, the shower start
    layer is below MaxShowerStartLayer, a shower end layer was found and the
    shower span exceeds MinShowerRegionSpan; otherwise when the shower start
    layer is below MaxShowerStartLayer2, a shower end layer was found and
    the shower span exceeds MinShowerRegionSpan2; otherwise false.  The
    spans are differences of unsigned integers. *)
Theorem fragmentation_decision_structure (pCluster : Cluster) (pTrack : Track) (tracks : list Track)
    (showerStart showerEnd : PseudoLayer) :
  GetAssociatedTrackList pCluster = pTrack :: tracks ->
  let s := ScanCluster pCluster pTrack showerStart showerEnd in
  exists decision,
    ShouldFragmentCluster pCluster showerStart showerEnd
      = Some (decision, showerStartLayer s, showerEndLayer s) /\
    (decision = true <->
     mipRegion2EndLayer s <> LAYER_MAX /\
     ((showerEndLayer s <> LAYER_MAX /\ showerStartLayer s = LAYER_MAX) \/
      (sub32 (mipRegion2EndLayer s) (mipRegion2StartLayer s) > m_minMipRegion2Span cfg /\
       showerStartLayer s < m_maxShowerStartLayer cfg /\
       showerEndLayer s <> LAYER_MAX /\
       sub32 (showerEndLayer s) (showerStartLayer s) > m_minShowerRegionSpan cfg) \/
      (showerStartLayer s < m_maxShowerStartLayer2 cfg /\
       showerEndLayer s <> LAYER_MAX /\
       sub32 (showerEndLayer s) (showerStartLayer s) > m_minShowerRegionSpan2 cfg))).
Proof.
  intros Htracks s.
  exists (FragmentationDecision cfg s). split.
  - unfold MipPhotonSeparation.ShouldFragmentCluster. rewrite Htracks. reflexivity.
  - unfold FragmentationDecision.
    repeat match goal with
           | |- context [?a =? ?b] => destruct (Z.eqb_spec a b)
           | |- context [?a <? ?b] => destruct (Z.ltb_spec a b)
           | |- context [?a >? ?b] => rewrite (Z.gtb_ltb a b)
           end; simpl; split; intros Hdecision; try discriminate; try reflexivity;
      try (exfalso; lia); try lia.
Qed.


End Decisions.

Lemma fragmentation_decision_structure_witness :
  GetAssociatedTrackList showerThenMip = exampleTrack :: [] /\
  exists decision,
    ShouldFragmentCluster binary32 AxisMagnitude exampleDirection 0 shortSpanSettings showerThenMip
      LAYER_MAX LAYER_MAX = Some (decision, 1, 3).
Proof.
  split; [reflexivity|].
  destruct (fragmentation_decision_structure binary32 AxisMagnitude exampleDirection 0 shortSpanSettings
              showerThenMip exampleTrack [] LAYER_MAX LAYER_MAX eq_refl) as (decision & Hrun & _).
  exists decision. exact Hrun.
Defined.

(** C6, as the claim has it, fails.  In [shortShower] the shower region is
    entered at the second layer and no shower hit follows, so no shower end
    layer is found; mipRegion2 spans layers 3 to 10 and the shower starts in
    layer 1, below both ceilings.  The difference between the unset shower
    end layer and the shower start layer exceeds every minimum span, so the
    decision as the claim words it is to fragment, but ShouldFragmentCluster
    returns false. *)
Lemma decision_requires_shower_end_layer :
  let s := ScanCluster binary32 AxisMagnitude exampleDirection 0 DefaultSettings shortShower exampleTrack
             LAYER_MAX LAYER_MAX in
  (mipRegion2StartLayer s, mipRegion2EndLayer s, showerStartLayer s, showerEndLayer s)
    = (3, 10, 1, LAYER_MAX) /\
  ClaimedDecision DefaultSettings s = true /\
  FragmentationDecision DefaultSettings s <> ClaimedDecision DefaultSettings s /\
  ShouldFragmentCluster binary32 AxisMagnitude exampleDirection 0 DefaultSettings shortShower
    LAYER_MAX LAYER_MAX = Some (false, 1, LAYER_MAX).
Proof. vm_compute. repeat split. discriminate. Qed.


Example showerThenMip_is_split :
  FragmentCluster binary32 AxisMagnitude exampleDirection 0 GetHadronicEnergy examplePhotonId
    exampleCompatibility shortSpanSettings showerThenMip
  = EndFragmentation FragmentClusters OriginalClusters
      (fst showerThenMipFragments) (snd showerThenMipFragments) /\
  map hitId (FragmentHits (fst showerThenMipFragments)) = [0; 1; 3; 4; 5; 6]%nat /\
  map hitId (FragmentHits (snd showerThenMipFragments)) = [2%nat].
Proof. vm_compute. repeat split. Qed.

(** ** Where the rounding of binary32 decides *)

(** The distance of [borderlineHit] is 1 in binary32, which is not below
    the generic distance cut: inside the shower range the hit goes to the
    photon fragment.  Without rounding the distance is below 1. *)
Example rounded_distance_at_the_cut :
  snd (GetDistanceToTrack binary32 AxisMagnitude exampleDirection DefaultSettings showerThenMip
         exampleTrack borderlineHit 0%Q) = 1%Q /\
  (snd (GetDistanceToTrack exact AxisMagnitude exampleDirection DefaultSettings showerThenMip
          exampleTrack borderlineHit 0%Q) < 1)%Q /\
  GoesToMipFragment binary32 AxisMagnitude exampleDirection DefaultSettings 1 3 showerThenMip
    exampleTrack (2, borderlineHit) = false /\
  GoesToMipFragment exact AxisMagnitude exampleDirection DefaultSettings 1 3 showerThenMip
    exampleTrack (2, borderlineHit) = true.
Proof.
  split; [vm_compute; reflexivity|]. split; [vm_compute; reflexivity|].
  split; vm_compute; reflexivity.
Qed.

(** The cut width of [tinyCellHit] under [tinyPadSettings] is zero in
    binary32, and GetDistanceToTrack fails; without rounding it is not zero. *)
Example cut_width_underflow :
  CutWidth binary32 AxisMagnitude tinyPadSettings exampleTrack tinyCellHit = 0%Q /\
  GetDistanceToTrack binary32 AxisMagnitude exampleDirection tinyPadSettings showerThenMip
    exampleTrack tinyCellHit 5%Q = (STATUS_CODE_FAILURE, 5%Q) /\
  (0 < CutWidth exact AxisMagnitude tinyPadSettings exampleTrack tinyCellHit)%Q /\
  fst (GetDistanceToTrack exact AxisMagnitude exampleDirection tinyPadSettings showerThenMip
         exampleTrack tinyCellHit 5%Q) = STATUS_CODE_SUCCESS.
Proof.
  split; [vm_compute; reflexivity|]. split; [vm_compute; reflexivity|].
  split; vm_compute; reflexivity.
Qed.

(** The difference of the squares of the compatibilities 1 and 2^-13 is 1
    in binary32, which is not below a cut of 1, and the fragments are not
    used; without rounding the difference is below 1. *)
Example rounded_chi2_difference :
  DeltaChi2 binary32 GetHadronicEnergy exampleCompatibility compatibleCluster exampleTrack
    lessCompatibleFragment = 1%Q /\
  (DeltaChi2 exact GetHadronicEnergy exampleCompatibility compatibleCluster exampleTrack
     lessCompatibleFragment < 1)%Q /\
  UseFragments binary32 GetHadronicEnergy examplePhotonId exampleCompatibility shortSpanSettings
    compatibleCluster exampleTrack lessCompatibleFragment oneHitFragment = false /\
  UseFragments exact GetHadronicEnergy examplePhotonId exampleCompatibility shortSpanSettings
    compatibleCluster exampleTrack lessCompatibleFragment oneHitFragment = true.
Proof.
  split; [vm_compute; reflexivity|]. split; [vm_compute; reflexivity|].
  split; vm_compute; reflexivity.
Qed.

(** Scenario C of the spec. *)
Example alternating_is_kept :
  ShouldFragmentCluster binary32 AxisMagnitude exampleDirection 0 DefaultSettings alternating
    LAYER_MAX LAYER_MAX = Some (false, 6, LAYER_MAX).
Proof. vm_compute. reflexivity. Qed.

End MipPhotonSeparationTheorems.

Module FragmentationRoundTrip.
Import MipPhotonSeparation.

Lemma filter_complement_Permutation {A : Type} (f : A -> bool) (l : list A) :
  Permutation (List.filter f l ++ List.filter (fun x => negb (f x)) l) l.
Proof.
  induction l as [|x rest IH]; simpl; [reflexivity|].
  destruct (f x); simpl.
  - constructor. exact IH.
  - rewrite <- Permutation_middle. constructor. exact IH.
Qed.

Lemma LayeredHits_hits (l : list (PseudoLayer * list CaloHit)) :
  map snd (LayeredHits l) = OrderedCaloHitList.GetCaloHitList l.
Proof.
  unfold LayeredHits, OrderedCaloHitList.GetCaloHitList.
  induction l as [|[k hs] rest IH]; simpl; [reflexivity|].
  rewrite map_app, IH. f_equal.
  induction hs as [|h hs IHhs]; simpl; [reflexivity|]. f_equal. exact IHhs.
Qed.

Section RoundTrip.

Variable fp : FloatArithmetic.
Variable GetMagnitude : CartesianVector -> Q.
Variable GetInitialDirection : Cluster -> CartesianVector.
Variable cfg : Settings.
Variables showerStartLayer showerEndLayer : PseudoLayer.
Variable pOriginalCluster : Cluster.
Variable pTrack : Track.

Local Abbreviation AssignCaloHitToFragment :=
  (AssignCaloHitToFragment fp GetMagnitude GetInitialDirection cfg showerStartLayer showerEndLayer
     pOriginalCluster pTrack).
Local Abbreviation FragmentLayer :=
  (FragmentLayer fp GetMagnitude GetInitialDirection cfg showerStartLayer showerEndLayer
     pOriginalCluster pTrack).
Local Abbreviation FragmentLayers :=
  (FragmentLayers fp GetMagnitude GetInitialDirection cfg showerStartLayer showerEndLayer
     pOriginalCluster pTrack).
Local Abbreviation toMip :=
  (GoesToMipFragment fp GetMagnitude GetInitialDirection cfg showerStartLayer showerEndLayer
     pOriginalCluster pTrack).
Local Abbreviation mipHitsOf :=
  (fun khs : list (PseudoLayer * CaloHit) => map snd (List.filter toMip khs)).
Local Abbreviation photonHitsOf :=
  (fun khs : list (PseudoLayer * CaloHit) => map snd (List.filter (fun kh => negb (toMip kh)) khs)).

(** A hit that is assigned goes to the fragment the rule names, and to no other. *)
Lemma AssignCaloHitToFragment_success (iLayer : PseudoLayer) (pCaloHit : CaloHit)
    (frags frags' : option Cluster * option Cluster) :
  AssignCaloHitToFragment iLayer pCaloHit frags = (STATUS_CODE_SUCCESS, frags') ->
  Permutation (FragmentHits (fst frags')) (FragmentHits (fst frags) ++ mipHitsOf [(iLayer, pCaloHit)]) /\
  Permutation (FragmentHits (snd frags')) (FragmentHits (snd frags) ++ photonHitsOf [(iLayer, pCaloHit)]).
Proof.
  unfold MipPhotonSeparation.AssignCaloHitToFragment, GoesToMipFragment.
  destruct frags as [pMip pPhoton]. simpl.
  destruct (GetDistanceToTrack _ _ _ _ _ _ _) as [status distance].
  cbn [fst snd List.filter map].
  assert (Hassigned :
    (if Qltb distance (m_genericDistanceCut cfg) || (iLayer <? showerStartLayer)
        || (iLayer >? showerEndLayer)
     then match pMip with
          | None => (STATUS_CODE_SUCCESS,
                     (Some (ClusterOps.AddCaloHit pCaloHit (ClusterOps.CreateFromTrack pTrack)),
                      pPhoton))
          | Some mip => (STATUS_CODE_SUCCESS, (Some (ClusterOps.AddCaloHit pCaloHit mip), pPhoton))
          end
     else match pPhoton with
          | None => (STATUS_CODE_SUCCESS, (pMip, Some (ClusterOps.CreateFromCaloHit pCaloHit)))
          | Some photon => (STATUS_CODE_SUCCESS,
                            (pMip, Some (ClusterOps.AddCaloHit pCaloHit photon)))
          end) = (STATUS_CODE_SUCCESS, frags') ->
    Permutation (FragmentHits (fst frags'))
      (FragmentHits pMip ++
       map snd (if Qltb distance (m_genericDistanceCut cfg) || (iLayer <? showerStartLayer)
                   || (iLayer >? showerEndLayer)
                then [(iLayer, pCaloHit)] else [])) /\
    Permutation (FragmentHits (snd frags'))
      (FragmentHits pPhoton ++
       map snd (if negb (Qltb distance (m_genericDistanceCut cfg) || (iLayer <? showerStartLayer)
                         || (iLayer >? showerEndLayer))
                then [(iLayer, pCaloHit)] else []))).
  { destruct (Qltb distance (m_genericDistanceCut cfg) || (iLayer <? showerStartLayer)
              || (iLayer >? showerEndLayer)); cbn [negb map snd].
    - destruct pMip as [mip|]; intros Heq; injection Heq as <-; cbn [fst snd FragmentHits];
        rewrite ?app_nil_r; split;
        rewrite ?ClusterFacts.GetCaloHits_AddCaloHit; try reflexivity;
        apply Permutation_cons_append.
    - destruct pPhoton as [photon|]; intros Heq; injection Heq as <-; cbn [fst snd FragmentHits];
        rewrite ?app_nil_r; unfold ClusterOps.CreateFromCaloHit; split;
        rewrite ?ClusterFacts.GetCaloHits_AddCaloHit; try reflexivity;
        apply Permutation_cons_append. }
  destruct status; cbn [StatusCode_eqb negb andb];
    try exact Hassigned; intros Heq; discriminate Heq.
Qed.



Local Abbreviation returnsAt :=
  (ReturnsAt fp GetMagnitude GetInitialDirection cfg pOriginalCluster pTrack).
Local Abbreviation assigned :=
  (AssignedHits fp GetMagnitude GetInitialDirection cfg pOriginalCluster pTrack).
Local Abbreviation walkStatus :=
  (WalkStatus fp GetMagnitude GetInitialDirection cfg pOriginalCluster pTrack).
Local Abbreviation statusAt :=
  (fun kh : PseudoLayer * CaloHit =>
     fst (GetDistanceToTrack fp GetMagnitude GetInitialDirection cfg pOriginalCluster pTrack
            (snd kh) 0%Q)).

(** ** The walk with its early return *)

Lemma ReturnsAt_status (kh : PseudoLayer * CaloHit) :
  returnsAt kh = true ->
  statusAt kh <> STATUS_CODE_SUCCESS /\ statusAt kh <> STATUS_CODE_UNCHANGED.
Proof.
  unfold ReturnsAt. cbv zeta.
  destruct (fst (GetDistanceToTrack _ _ _ _ _ _ _ _)); cbn; intros Hr;
    try discriminate Hr; split; discriminate.
Qed.

Lemma walk_app_success (a b : list (PseudoLayer * CaloHit)) :
  walkStatus a = STATUS_CODE_SUCCESS ->
  walkStatus (a ++ b) = walkStatus b /\ assigned (a ++ b) = a ++ assigned b.
Proof.
  induction a as [|kh rest IH]; intros Hs; [split; reflexivity|].
  cbn [app WalkStatus AssignedHits] in Hs |- *.
  destruct (returnsAt kh) eqn:Hr.
  - apply ReturnsAt_status in Hr as [Hr _]. contradiction.
  - destruct (IH Hs) as [-> ->]. split; reflexivity.
Qed.

Lemma walk_app_returned (a b : list (PseudoLayer * CaloHit)) :
  walkStatus a <> STATUS_CODE_SUCCESS ->
  walkStatus (a ++ b) = walkStatus a /\ assigned (a ++ b) = assigned a.
Proof.
  induction a as [|kh rest IH]; intros Hs; [contradiction Hs; reflexivity|].
  cbn [app WalkStatus AssignedHits] in Hs |- *.
  destruct (returnsAt kh) eqn:Hr; [split; reflexivity|].
  destruct (IH Hs) as [-> ->]. split; reflexivity.
Qed.

(** Either the walk reaches the end of the list and assigns every hit, or it
    returns at a hit for which GetDistanceToTrack fails. *)
Lemma walk_cases (khs : list (PseudoLayer * CaloHit)) :
  (walkStatus khs = STATUS_CODE_SUCCESS /\ assigned khs = khs) \/
  (exists kh rest, khs = assigned khs ++ kh :: rest /\ returnsAt kh = true /\
                   statusAt kh = walkStatus khs).
Proof.
  induction khs as [|kh rest IH]; [left; split; reflexivity|].
  cbn [WalkStatus AssignedHits].
  destruct (returnsAt kh) eqn:Hr.
  - right. exists kh, rest. repeat split. exact Hr.
  - destruct IH as [[Hs Ha] | (kh' & rest' & Hsplit & Hr' & Hs)].
    + left. rewrite Ha. split; [exact Hs | reflexivity].
    + right. exists kh', rest'. split; [|split; assumption].
      cbn [app]. f_equal. exact Hsplit.
Qed.

Lemma AssignCaloHitToFragment_walk (iLayer : PseudoLayer) (pCaloHit : CaloHit)
    (status : StatusCode) (frags frags' : option Cluster * option Cluster) :
  AssignCaloHitToFragment iLayer pCaloHit frags = (status, frags') ->
  status = walkStatus [(iLayer, pCaloHit)] /\
  Permutation (FragmentHits (fst frags'))
              (FragmentHits (fst frags) ++ mipHitsOf (assigned [(iLayer, pCaloHit)])) /\
  Permutation (FragmentHits (snd frags'))
              (FragmentHits (snd frags) ++ photonHitsOf (assigned [(iLayer, pCaloHit)])).
Proof.
  intros Hrun.
  assert (Hstatus : status = walkStatus [(iLayer, pCaloHit)] /\
                    (returnsAt (iLayer, pCaloHit) = true -> frags' = frags)).
  { revert Hrun.
    unfold MipPhotonSeparation.AssignCaloHitToFragment, WalkStatus, ReturnsAt.
    destruct frags as [pMip pPhoton]. cbn [snd].
    destruct (GetDistanceToTrack _ _ _ _ _ _ _ _) as [s d]. cbn [fst].
    destruct (negb (StatusCode_eqb STATUS_CODE_SUCCESS s)
              && negb (StatusCode_eqb STATUS_CODE_UNCHANGED s)).
    - intros Heq. injection Heq as <- <-. split; reflexivity.
    - destruct (Qltb d (m_genericDistanceCut cfg) || (iLayer <? showerStartLayer)
                || (iLayer >? showerEndLayer)); [destruct pMip | destruct pPhoton];
        intros Heq; injection Heq as <- <-; split; first [reflexivity | discriminate]. }
  destruct Hstatus as [Hs Hsame]. split; [exact Hs|].
  cbn [WalkStatus AssignedHits] in Hs |- *.
  destruct (returnsAt (iLayer, pCaloHit)) eqn:Hr.
  - rewrite (Hsame eq_refl). cbn [List.filter map]. rewrite !app_nil_r. split; reflexivity.
  - subst status. apply AssignCaloHitToFragment_success. exact Hrun.
Qed.

Lemma FragmentLayer_walk (iLayer : PseudoLayer) (hits : list CaloHit) :
  forall (status : StatusCode) (frags frags' : option Cluster * option Cluster),
  FragmentLayer iLayer hits frags = (status, frags') ->
  status = walkStatus (map (pair iLayer) hits) /\
  Permutation (FragmentHits (fst frags'))
              (FragmentHits (fst frags) ++ mipHitsOf (assigned (map (pair iLayer) hits))) /\
  Permutation (FragmentHits (snd frags'))
              (FragmentHits (snd frags) ++ photonHitsOf (assigned (map (pair iLayer) hits))).
Proof.
  induction hits as [|h rest IH]; intros status frags frags' Hrun.
  - cbn in Hrun. injection Hrun as <- <-. cbn. rewrite !app_nil_r. repeat split; reflexivity.
  - cbn [MipPhotonSeparation.FragmentLayer] in Hrun.
    destruct (AssignCaloHitToFragment iLayer h frags) as [status1 frags1] eqn:Hstep.
    apply AssignCaloHitToFragment_walk in Hstep as (Hs1 & Hm1 & Hp1).
    change (map (pair iLayer) (h :: rest)) with ([(iLayer, h)] ++ map (pair iLayer) rest).
    destruct (StatusCode_eqb STATUS_CODE_SUCCESS status1) eqn:Hok; cbn [negb] in Hrun.
    + assert (Hsucc : walkStatus [(iLayer, h)] = STATUS_CODE_SUCCESS).
      { rewrite <- Hs1. destruct status1; first [reflexivity | discriminate Hok]. }
      destruct (walk_app_success [(iLayer, h)] (map (pair iLayer) rest) Hsucc) as [-> ->].
      destruct (walk_cases [(iLayer, h)]) as [[_ Hall] | (kh & post & _ & Hr & Hst)].
      * rewrite Hall in Hm1, Hp1.
        apply IH in Hrun as (Hs & Hm & Hp). split; [exact Hs|].
        rewrite !List.filter_app, !map_app, !app_assoc, <- Hm1, <- Hp1.
        split; assumption.
      * apply ReturnsAt_status in Hr as [Hne _]. rewrite Hst in Hne. contradiction.
    + injection Hrun as <- <-.
      assert (Hret : walkStatus [(iLayer, h)] <> STATUS_CODE_SUCCESS).
      { rewrite <- Hs1. intros ->. discriminate Hok. }
      destruct (walk_app_returned [(iLayer, h)] (map (pair iLayer) rest) Hret) as [-> ->].
      repeat split; assumption.
Qed.

Lemma FragmentLayers_walk (l : list (PseudoLayer * list CaloHit)) :
  forall (status : StatusCode) (frags frags' : option Cluster * option Cluster),
  FragmentLayers l frags = (status, frags') ->
  status = walkStatus (LayeredHits l) /\
  Permutation (FragmentHits (fst frags'))
              (FragmentHits (fst frags) ++ mipHitsOf (assigned (LayeredHits l))) /\
  Permutation (FragmentHits (snd frags'))
              (FragmentHits (snd frags) ++ photonHitsOf (assigned (LayeredHits l))).
Proof.
  induction l as [|[iLayer hits] rest IH]; intros status frags frags' Hrun.
  - cbn in Hrun. injection Hrun as <- <-. cbn. rewrite !app_nil_r. repeat split; reflexivity.
  - cbn [MipPhotonSeparation.FragmentLayers] in Hrun.
    destruct (FragmentLayer iLayer hits frags) as [status1 frags1] eqn:Hlayer.
    apply FragmentLayer_walk in Hlayer as (Hs1 & Hm1 & Hp1).
    change (LayeredHits ((iLayer, hits) :: rest))
      with (map (pair iLayer) hits ++ LayeredHits rest).
    destruct (StatusCode_eqb STATUS_CODE_SUCCESS status1) eqn:Hok; cbn [negb] in Hrun.
    + assert (Hsucc : walkStatus (map (pair iLayer) hits) = STATUS_CODE_SUCCESS).
      { rewrite <- Hs1. destruct status1; first [reflexivity | discriminate Hok]. }
      destruct (walk_app_success (map (pair iLayer) hits) (LayeredHits rest) Hsucc) as [-> ->].
      destruct (walk_cases (map (pair iLayer) hits)) as [[_ Hall] | (kh & post & _ & Hr & Hst)].
      * rewrite Hall in Hm1, Hp1.
        apply IH in Hrun as (Hs & Hm & Hp). split; [exact Hs|].
        rewrite !List.filter_app, !map_app, !app_assoc, <- Hm1, <- Hp1.
        split; assumption.
      * apply ReturnsAt_status in Hr as [Hne _]. rewrite Hst in Hne. contradiction.
    + injection Hrun as <- <-.
      assert (Hret : walkStatus (map (pair iLayer) hits) <> STATUS_CODE_SUCCESS).
      { rewrite <- Hs1. intros ->. discriminate Hok. }
      destruct (walk_app_returned (map (pair iLayer) hits) (LayeredHits rest) Hret) as [-> ->].
      repeat split; assumption.
Qed.

(** A hit for which GetDistanceToTrack returns UNCHANGED passes the test of
    line 259 under every layer when the generic distance cut is positive. *)
Lemma unchanged_GoesToMipFragment (iLayer : PseudoLayer) (pCaloHit : CaloHit) :
  statusAt (iLayer, pCaloHit) = STATUS_CODE_UNCHANGED ->
  (0 < m_genericDistanceCut cfg)%Q ->
  returnsAt (iLayer, pCaloHit) = false /\ toMip (iLayer, pCaloHit) = true.
Proof.
  cbn [snd]. intros Hstatus Hcut. split.
  - unfold ReturnsAt. cbn [snd]. rewrite Hstatus. reflexivity.
  - unfold GoesToMipFragment. cbn [snd fst].
    rewrite (MipPhotonSeparationProofs.GetDistanceToTrack_unchanged _ _ _ _ _ _ _ _ Hstatus).
    apply Qltb_lt in Hcut. rewrite Hcut. reflexivity.
Qed.

End RoundTrip.

(** C3, as the code has it.  Every call of MakeClusterFragments walks the
    hits of the ordered and of the isolated hit collection of the original
    cluster in layer order and returns at the first hit for which
    GetDistanceToTrack gives neither SUCCESS nor UNCHANGED, with that
    status.  Each hit in front of that one is in exactly one fragment: in
    the mip fragment if its distance after the call of GetDistanceToTrack is
    below the generic cut or its layer is outside the shower range, in the
    photon fragment otherwise.  A call that returns SUCCESS has walked every
    hit, and the hits of the two fragments together are those of the
    original cluster, each as often as there.  A call that returns another
    status has assigned neither the hit it returned at nor a later one, and
    the hits of the fragments together are not those of the cluster. *)
Theorem fragmentation_round_trip
    (fp : FloatArithmetic) (GetMagnitude : CartesianVector -> Q)
    (GetInitialDirection : Cluster -> CartesianVector)
    (cfg : Settings) (showerStartLayer showerEndLayer : PseudoLayer)
    (pOriginalCluster : Cluster) (pTrack : Track) (tracks : list Track)
    (status : StatusCode) (pMipCluster pPhotonCluster : option Cluster) :
  GetAssociatedTrackList pOriginalCluster = pTrack :: tracks ->
  MakeClusterFragments fp GetMagnitude GetInitialDirection cfg showerStartLayer showerEndLayer
    pOriginalCluster (None, None) = Some (status, (pMipCluster, pPhotonCluster)) ->
  let merged := LayeredHits (OrderedCaloHitList.Add (GetIsolatedCaloHitList pOriginalCluster)
                                                     (GetOrderedCaloHitList pOriginalCluster)) in
  let toMip := GoesToMipFragment fp GetMagnitude GetInitialDirection cfg showerStartLayer
                 showerEndLayer pOriginalCluster pTrack in
  let walked := AssignedHits fp GetMagnitude GetInitialDirection cfg pOriginalCluster pTrack
                  merged in
  let original := ClusterOps.GetCaloHits pOriginalCluster
                  ++ GetIsolatedCaloHitList pOriginalCluster in
  status = WalkStatus fp GetMagnitude GetInitialDirection cfg pOriginalCluster pTrack merged /\
  Permutation (FragmentHits pMipCluster) (map snd (List.filter toMip walked)) /\
  Permutation (FragmentHits pPhotonCluster)
              (map snd (List.filter (fun kh => negb (toMip kh)) walked)) /\
  Permutation (FragmentHits pMipCluster ++ FragmentHits pPhotonCluster) (map snd walked) /\
  (status = STATUS_CODE_SUCCESS ->
   walked = merged /\
   Permutation (FragmentHits pMipCluster ++ FragmentHits pPhotonCluster) original) /\
  (status <> STATUS_CODE_SUCCESS ->
   status <> STATUS_CODE_UNCHANGED /\
   (exists kh later,
      merged = walked ++ kh :: later /\
      fst (GetDistanceToTrack fp GetMagnitude GetInitialDirection cfg pOriginalCluster pTrack
             (snd kh) 0%Q) = status) /\
   (length (FragmentHits pMipCluster ++ FragmentHits pPhotonCluster) < length original)%nat /\
   ~ Permutation (FragmentHits pMipCluster ++ FragmentHits pPhotonCluster) original).
Proof.
  intros Htracks Hrun merged toMip walked original.
  unfold MakeClusterFragments in Hrun. rewrite Htracks in Hrun.
  injection Hrun as Hrun.
  apply FragmentLayers_walk in Hrun as (Hstatus & Hm & Hp). cbn [fst snd FragmentHits app] in Hm, Hp.
  fold merged in Hstatus, Hm, Hp. fold walked toMip in Hm, Hp.
  assert (Hboth : Permutation (FragmentHits pMipCluster ++ FragmentHits pPhotonCluster)
                              (map snd walked)).
  { rewrite Hm, Hp, <- map_app, filter_complement_Permutation. reflexivity. }
  assert (Horiginal : Permutation (map snd merged) original).
  { unfold merged, original. rewrite LayeredHits_hits.
    apply OrderedCaloHitListFacts.GetCaloHitList_Add. }
  split; [exact Hstatus|]. split; [exact Hm|]. split; [exact Hp|]. split; [exact Hboth|].
  destruct (walk_cases fp GetMagnitude GetInitialDirection cfg pOriginalCluster pTrack merged)
    as [[Hs Hall] | (kh & later & Hsplit & Hr & Hst)].
  - fold walked in Hall. split.
    + intros _. split; [exact Hall|]. rewrite Hboth, Hall. exact Horiginal.
    + intros Hne. rewrite Hstatus in Hne. contradiction.
  - fold walked in Hsplit. rewrite <- Hstatus in Hst.
    apply ReturnsAt_status in Hr as [Hns Hnu]. cbv beta in Hns, Hnu, Hst.
    rewrite Hst in Hns, Hnu.
    split; [intros Hs; contradiction|].
    intros _. split; [exact Hnu|]. split; [exists kh, later; split; assumption|].
    assert (Hlen : (length (FragmentHits pMipCluster ++ FragmentHits pPhotonCluster)
                    < length original)%nat).
    { rewrite (Permutation_length Hboth), <- (Permutation_length Horiginal), !length_map.
      apply (f_equal (@length _)) in Hsplit. rewrite length_app in Hsplit.
      cbn [length] in Hsplit. lia. }
    split; [exact Hlen|].
    intros Hperm. apply Permutation_length in Hperm. lia.
Qed.

(** C10.  When GetDistanceToTrack returns UNCHANGED for a hit,
    MakeClusterFragments does not skip the hit: [distance] keeps the value 0
    it was initialised with, so with a positive generic distance cut a call
    that reaches the hit, under whatever layer and for whatever shower
    range, puts it in the mip fragment and not in the photon fragment; a
    call that returns SUCCESS has done so for every such hit of the cluster.
    In the layer scan of ShouldFragmentCluster the same hit, like every hit
    for which the status is not SUCCESS, leaves the findings of the layer as
    they are. *)
Theorem unchanged_hit_joins_mip_fragment
    (fp : FloatArithmetic) (GetMagnitude : CartesianVector -> Q)
    (GetInitialDirection : Cluster -> CartesianVector)
    (cfg : Settings) (showerStartLayer showerEndLayer : PseudoLayer)
    (pOriginalCluster : Cluster) (pTrack : Track) (tracks : list Track)
    (status : StatusCode) (pMipCluster pPhotonCluster : option Cluster) (pCaloHit : CaloHit) :
  GetAssociatedTrackList pOriginalCluster = pTrack :: tracks ->
  MakeClusterFragments fp GetMagnitude GetInitialDirection cfg showerStartLayer showerEndLayer
    pOriginalCluster (None, None) = Some (status, (pMipCluster, pPhotonCluster)) ->
  fst (GetDistanceToTrack fp GetMagnitude GetInitialDirection cfg pOriginalCluster pTrack
         pCaloHit 0%Q) = STATUS_CODE_UNCHANGED ->
  (0 < m_genericDistanceCut cfg)%Q ->
  let merged := LayeredHits (OrderedCaloHitList.Add (GetIsolatedCaloHitList pOriginalCluster)
                                                     (GetOrderedCaloHitList pOriginalCluster)) in
  snd (GetDistanceToTrack fp GetMagnitude GetInitialDirection cfg pOriginalCluster pTrack
         pCaloHit 0%Q) = 0%Q /\
  (forall iLayer,
     In (iLayer, pCaloHit)
        (AssignedHits fp GetMagnitude GetInitialDirection cfg pOriginalCluster pTrack merged) ->
     In pCaloHit (FragmentHits pMipCluster)) /\
  (status = STATUS_CODE_SUCCESS ->
   In pCaloHit (ClusterOps.GetCaloHits pOriginalCluster
                ++ GetIsolatedCaloHitList pOriginalCluster) ->
   In pCaloHit (FragmentHits pMipCluster)) /\
  ~ In pCaloHit (FragmentHits pPhotonCluster) /\
  (forall iLayer pMip pPhoton,
     AssignCaloHitToFragment fp GetMagnitude GetInitialDirection cfg showerStartLayer
       showerEndLayer pOriginalCluster pTrack iLayer pCaloHit (pMip, pPhoton)
     = (STATUS_CODE_SUCCESS,
        (Some (ClusterOps.AddCaloHit pCaloHit (default (ClusterOps.CreateFromTrack pTrack) pMip)),
         pPhoton))) /\
  (forall f, ExamineCaloHit fp GetMagnitude GetInitialDirection cfg pOriginalCluster pTrack
               pCaloHit f = f) /\
  (forall pOtherHit f,
     fst (GetDistanceToTrack fp GetMagnitude GetInitialDirection cfg pOriginalCluster pTrack
            pOtherHit FLOAT_MAX) <> STATUS_CODE_SUCCESS ->
     ExamineCaloHit fp GetMagnitude GetInitialDirection cfg pOriginalCluster pTrack
       pOtherHit f = f).
Proof.
  intros Htracks Hrun Hstatus Hcut merged.
  pose proof (MipPhotonSeparationProofs.GetDistanceToTrack_unchanged _ _ _ _ _ _ _ _ Hstatus)
    as Hdist.
  assert (Hskip : forall pOtherHit f,
    fst (GetDistanceToTrack fp GetMagnitude GetInitialDirection cfg pOriginalCluster pTrack
           pOtherHit FLOAT_MAX) <> STATUS_CODE_SUCCESS ->
    ExamineCaloHit fp GetMagnitude GetInitialDirection cfg pOriginalCluster pTrack
      pOtherHit f = f).
  { intros pOtherHit f Hns. unfold ExamineCaloHit.
    destruct (GetDistanceToTrack fp GetMagnitude GetInitialDirection cfg pOriginalCluster pTrack
                pOtherHit FLOAT_MAX) as [s d].
    cbn [fst] in Hns. destruct s; try reflexivity. contradiction. }
  assert (Hrule : forall iLayer,
    ReturnsAt fp GetMagnitude GetInitialDirection cfg pOriginalCluster pTrack (iLayer, pCaloHit)
      = false /\
    GoesToMipFragment fp GetMagnitude GetInitialDirection cfg showerStartLayer showerEndLayer
      pOriginalCluster pTrack (iLayer, pCaloHit) = true).
  { intros iLayer. apply unchanged_GoesToMipFragment; assumption. }
  unfold MakeClusterFragments in Hrun. rewrite Htracks in Hrun. injection Hrun as Hrun.
  apply FragmentLayers_walk in Hrun as (Hwalk & Hm & Hp).
  cbn [fst snd FragmentHits app] in Hm, Hp. fold merged in Hwalk, Hm, Hp.
  assert (Hreached : forall iLayer,
    In (iLayer, pCaloHit)
       (AssignedHits fp GetMagnitude GetInitialDirection cfg pOriginalCluster pTrack merged) ->
    In pCaloHit (FragmentHits pMipCluster)).
  { intros iLayer Hin. eapply Permutation_in; [symmetry; exact Hm|].
    apply in_map_iff. exists (iLayer, pCaloHit). split; [reflexivity|].
    apply filter_In. split; [exact Hin | apply Hrule]. }
  split; [exact Hdist|]. split; [exact Hreached|]. split; [|split; [|split; [|split]]].
  - intros Hs Hin.
    destruct (walk_cases fp GetMagnitude GetInitialDirection cfg pOriginalCluster pTrack merged)
      as [[_ Hall] | (kh & later & _ & Hr & Hst)].
    + assert (Hmerged : In pCaloHit (map snd merged)).
      { eapply Permutation_in; [|exact Hin]. symmetry. unfold merged.
        rewrite LayeredHits_hits. apply OrderedCaloHitListFacts.GetCaloHitList_Add. }
      apply in_map_iff in Hmerged as ([iLayer h] & Heq & Hkh). cbn [snd] in Heq. subst h.
      apply (Hreached iLayer). rewrite Hall. exact Hkh.
    + apply ReturnsAt_status in Hr as [Hne _]. cbv beta in Hne, Hst.
      rewrite Hst, <- Hwalk in Hne. contradiction.
  - intros Hin. apply (Permutation_in _ Hp) in Hin.
    apply in_map_iff in Hin as ([iLayer h] & Heq & Hkh). cbn [snd] in Heq. subst h.
    apply filter_In in Hkh as [_ Hnot].
    rewrite (proj2 (Hrule iLayer)) in Hnot. discriminate Hnot.
  - intros iLayer pMip pPhoton. unfold AssignCaloHitToFragment.
    destruct (GetDistanceToTrack fp GetMagnitude GetInitialDirection cfg pOriginalCluster pTrack
                pCaloHit 0%Q) as [s d].
    cbn [fst snd] in Hstatus, Hdist. subst s d. cbn [StatusCode_eqb negb andb].
    apply Qltb_lt in Hcut. rewrite Hcut. cbn [orb].
    destruct pMip; reflexivity.
  - intros f. apply Hskip.
    rewrite (MipPhotonSeparationProofs.GetDistanceToTrack_status _ _ _ _ _ _ _ FLOAT_MAX 0%Q).
    rewrite Hstatus. discriminate.
  - exact Hskip.
Qed.

(** The fragmentation of [showerThenMipWithECal] returns at the ECal hit. *)
Lemma fragmentation_round_trip_witness :
  GetAssociatedTrackList showerThenMipWithECal = exampleTrack :: [] /\
  MakeClusterFragments binary32 AxisMagnitude exampleDirection noECalPadSettings 1 3
    showerThenMipWithECal (None, None)
    = Some (STATUS_CODE_FAILURE,
            (fst showerThenMipWithECalFragments, snd showerThenMipWithECalFragments)) /\
  Permutation (FragmentHits (fst showerThenMipWithECalFragments)
               ++ FragmentHits (snd showerThenMipWithECalFragments))
    (map snd
       (AssignedHits binary32 AxisMagnitude exampleDirection noECalPadSettings
          showerThenMipWithECal exampleTrack
          (LayeredHits (OrderedCaloHitList.Add (GetIsolatedCaloHitList showerThenMipWithECal)
                          (GetOrderedCaloHitList showerThenMipWithECal))))).
Proof.
  split; [reflexivity|]. split; [reflexivity|].
  exact (proj1 (proj2 (proj2 (proj2
           (fragmentation_round_trip binary32 AxisMagnitude exampleDirection noECalPadSettings
              1 3 showerThenMipWithECal exampleTrack [] STATUS_CODE_FAILURE
              (fst showerThenMipWithECalFragments) (snd showerThenMipWithECalFragments)
              eq_refl eq_refl))))).
Defined.

(** The distant hit under layer 2, inside the shower range from layer 1 to
    layer 3, is in the mip fragment. *)
Lemma unchanged_hit_joins_mip_fragment_witness :
  GetAssociatedTrackList showerThenMipWithDistantHit = exampleTrack :: [] /\
  MakeClusterFragments binary32 AxisMagnitude exampleDirection shortSpanSettings 1 3
    showerThenMipWithDistantHit (None, None)
    = Some (STATUS_CODE_SUCCESS,
            (fst showerThenMipWithDistantHitFragments,
             snd showerThenMipWithDistantHitFragments)) /\
  fst (GetDistanceToTrack binary32 AxisMagnitude exampleDirection shortSpanSettings
         showerThenMipWithDistantHit exampleTrack distantHit 0%Q) = STATUS_CODE_UNCHANGED /\
  (0 < m_genericDistanceCut shortSpanSettings)%Q /\
  In distantHit (ClusterOps.GetCaloHits showerThenMipWithDistantHit
                 ++ GetIsolatedCaloHitList showerThenMipWithDistantHit) /\
  In distantHit (FragmentHits (fst showerThenMipWithDistantHitFragments)).
Proof.
  split; [reflexivity|]. split; [reflexivity|]. split; [reflexivity|]. split; [reflexivity|].
  assert (Hin : In distantHit (ClusterOps.GetCaloHits showerThenMipWithDistantHit
                               ++ GetIsolatedCaloHitList showerThenMipWithDistantHit)).
  { vm_compute. tauto. }
  split; [exact Hin|].
  exact (proj1 (proj2 (proj2
           (unchanged_hit_joins_mip_fragment binary32 AxisMagnitude exampleDirection
              shortSpanSettings 1 3 showerThenMipWithDistantHit exampleTrack []
              STATUS_CODE_SUCCESS (fst showerThenMipWithDistantHitFragments)
              (snd showerThenMipWithDistantHitFragments) distantHit
              eq_refl eq_refl eq_refl eq_refl))) eq_refl Hin).
Defined.

(** The fragments of [showerThenMipWithDistantHit]: the distant hit of layer
    2 is with the mip hits, the near shower hit of that layer is the photon
    fragment. *)
Example distant_hit_in_mip_fragment :
  map hitId (FragmentHits (fst showerThenMipWithDistantHitFragments))
    = [0; 1; 9; 3; 4; 5; 6]%nat /\
  map hitId (FragmentHits (snd showerThenMipWithDistantHitFragments)) = [2%nat].
Proof. vm_compute. split; reflexivity. Qed.

(** C3, as the claim has it, fails.  With no additional pad width in the
    ECal the cut width of an ECal hit is zero and GetDistanceToTrack fails
    for it.  MakeClusterFragments then returns FAILURE at the ECal hit of
    [showerThenMipWithECal]: both fragments exist by then, and the ECal hit
    is in neither of them. *)
Lemma failed_fragmentation_leaves_hit_out :
  let frags := showerThenMipWithECalFragments in
  MakeClusterFragments binary32 AxisMagnitude exampleDirection noECalPadSettings 1 3
    showerThenMipWithECal (None, None) = Some (STATUS_CODE_FAILURE, frags) /\
  fst frags <> None /\ snd frags <> None /\
  map hitId (ClusterOps.GetCaloHits showerThenMipWithECal
             ++ GetIsolatedCaloHitList showerThenMipWithECal) = [0; 1; 2; 3; 4; 5; 6; 7]%nat /\
  map hitId (FragmentHits (fst frags)) = [0; 1; 3; 4; 5; 6]%nat /\
  map hitId (FragmentHits (snd frags)) = [2%nat] /\
  ~ Permutation (FragmentHits (fst frags) ++ FragmentHits (snd frags))
                (ClusterOps.GetCaloHits showerThenMipWithECal
                 ++ GetIsolatedCaloHitList showerThenMipWithECal).
Proof.
  split; [vm_compute; reflexivity|].
  split; [vm_compute; discriminate|].
  split; [vm_compute; discriminate|].
  split; [vm_compute; reflexivity|].
  split; [vm_compute; reflexivity|].
  split; [vm_compute; reflexivity|].
  intros Hperm. apply Permutation_length in Hperm. vm_compute in Hperm. discriminate Hperm.
Qed.

(** The failure is reached from Run: the scan skips the ECal hit, decides to
    fragment, and Run returns the failure of MakeClusterFragments. *)
Example failed_fragmentation_in_Run :
  FragmentCluster binary32 AxisMagnitude exampleDirection 0 GetHadronicEnergy examplePhotonId
    exampleCompatibility noECalPadSettings showerThenMipWithECal
  = Returned STATUS_CODE_FAILURE.
Proof. vm_compute. reflexivity. Qed.

End FragmentationRoundTrip.

Module RegionScan.
Import MipPhotonSeparation.

Lemma ShowerStreak_snoc (fs : list LayerFlags) (f : LayerFlags) (count : Z) :
  ShowerStreak (fs ++ [f]) count =
  let c := ShowerStreak fs count in
  if ShowerOnly f then c + 1 else if MipOnly f then 0 else c.
Proof.
  revert count. induction fs as [|g rest IH]; intros count; simpl; [reflexivity|].
  apply IH.
Qed.

Lemma StreakReaches_snoc (n : Z) (fs : list LayerFlags) (f : LayerFlags) (count : Z) :
  StreakReaches n (fs ++ [f]) count =
  StreakReaches n fs count || (ShowerOnly f && (ShowerStreak fs count + 1 =? n)).
Proof.
  revert count. induction fs as [|g rest IH]; intros count; simpl.
  - destruct (ShowerOnly f); simpl; [rewrite orb_false_r; reflexivity|].
    destruct (MipOnly f); reflexivity.
  - destruct (ShowerOnly g); [|destruct (MipOnly g)]; rewrite IH;
      try reflexivity. rewrite orb_assoc. reflexivity.
Qed.

Lemma PseudoLayers_length (first last : PseudoLayer) :
  length (PseudoLayers first last) = Z.to_nat (last + 1 - first).
Proof. unfold PseudoLayers. rewrite length_map, length_seq. reflexivity. Qed.

(** Runs the body of the loop over pseudo layers in the equation [H], whose
    right-hand side is a call of ScanLayer on a state with known flags: one
    block after the other, splitting on each comparison. *)
Ltac scan_layer_simpl H :=
  cbn -[Z.gtb Z.ltb Z.eqb incr32 CheckLayersMissed ShowerOnlyLayer MipOnlyLayer
        UpdateShowerEndLayer UpdateMipEndLayers UpdateLayersMissed] in H.

Ltac scan_layer_block H :=
  scan_layer_simpl H;
  repeat (match type of H with
          | context [if (?a <? ?b) then _ else _] => destruct (a <? b) eqn:?
          | context [if (?a =? ?b) then _ else _] => destruct (a =? b) eqn:?
          | context [if (?a >? ?b) then _ else _] => destruct (a >? b) eqn:?
          end; scan_layer_simpl H).

Ltac scan_layer_cases :=
  match goal with
  | |- context [ScanLayer ?c ?i ?f ?s] =>
      let s' := fresh "s'" in
      let H := fresh "Hs'" in
      remember (ScanLayer c i f s) as s' eqn:H;
      unfold ScanLayer in H;
      unfold UpdateLayersMissed in H; scan_layer_block H;
      unfold UpdateMipEndLayers in H; scan_layer_block H;
      unfold UpdateShowerEndLayer in H; scan_layer_block H;
      unfold MipOnlyLayer in H; scan_layer_block H;
      unfold ShowerOnlyLayer in H; scan_layer_block H;
      unfold CheckLayersMissed in H; scan_layer_block H;
      subst s'; unfold ShowerOnly, MipOnly; cbn -[Z.gtb Z.ltb Z.eqb incr32]
  end.

Section Scan.

Variable fp : FloatArithmetic.
Variable GetMagnitude : CartesianVector -> Q.
Variable GetInitialDirection : Cluster -> CartesianVector.
Variable TRACK_PROJECTION_LAYER : PseudoLayer.
Variable cfg : Settings.
Variable pCluster : Cluster.
Variable pTrack : Track.
Variables showerStart showerEnd : PseudoLayer.

Local Abbreviation findings := (FindTrackHits fp GetMagnitude GetInitialDirection cfg pCluster pTrack).
Local Abbreviation ScanLayer := (ScanLayer cfg).
Local Abbreviation scan :=
  (fun layers => ScanLayers fp GetMagnitude GetInitialDirection cfg pCluster pTrack layers
                   (InitialScanState showerStart showerEnd)).
Local Abbreviation threshold := (m_nLayersForShowerRegion cfg).

Lemma ScanLayers_stopped (layers : list PseudoLayer) (s : ScanState) :
  shouldContinue s = false ->
  ScanLayers fp GetMagnitude GetInitialDirection cfg pCluster pTrack layers s = s.
Proof. intros Hstop. destruct layers; simpl; [reflexivity|]. rewrite Hstop. reflexivity. Qed.

Lemma ScanLayers_app (pre post : list PseudoLayer) (s : ScanState) :
  ScanLayers fp GetMagnitude GetInitialDirection cfg pCluster pTrack (pre ++ post) s =
  ScanLayers fp GetMagnitude GetInitialDirection cfg pCluster pTrack post
    (ScanLayers fp GetMagnitude GetInitialDirection cfg pCluster pTrack pre s).
Proof.
  revert s. induction pre as [|i pre IH]; intros s; simpl; [reflexivity|].
  destruct (shouldContinue s) eqn:Hc; [apply IH|].
  rewrite ScanLayers_stopped by exact Hc. reflexivity.
Qed.

Lemma ScanLayers_snoc (pre : list PseudoLayer) (iLayer : PseudoLayer) (s : ScanState) :
  ScanLayers fp GetMagnitude GetInitialDirection cfg pCluster pTrack (pre ++ [iLayer]) s =
  let s1 := ScanLayers fp GetMagnitude GetInitialDirection cfg pCluster pTrack pre s in
  if shouldContinue s1 then ScanLayer iLayer (findings iLayer) s1 else s1.
Proof.
  revert s. induction pre as [|x rest IH]; intros s; simpl.
  - destruct (shouldContinue s); reflexivity.
  - destruct (shouldContinue s) eqn:Hc; [apply IH|].
    simpl. rewrite Hc. reflexivity.
Qed.

(** One layer of the scan while in mipRegion1. *)
Lemma ScanLayer_in_mipRegion1 (iLayer : PseudoLayer) (f : LayerFlags) (s : ScanState) :
  mipRegion1 s = true -> mipRegion2 s = false -> showerRegion s = false ->
  let s' := ScanLayer iLayer f s in
  mipRegion2 s' = false /\ mipRegion2EndLayer s' = mipRegion2EndLayer s /\
  if ShowerOnly f && (incr32 (showerCount s) =? threshold)
  then mipRegion1 s' = false /\ showerRegion s' = true /\ showerCount s' = 0
  else mipRegion1 s' = true /\ showerRegion s' = false /\
       showerCount s' = (if ShowerOnly f then incr32 (showerCount s)
                         else if MipOnly f then 0 else showerCount s).
Proof.
  destruct s as [m1s m1e m2s m2e ss se cont missed mc sc r1 r2 rs].
  destruct f as [th mh sh].
  cbn [mipRegion1 mipRegion2 showerRegion]. intros -> -> ->.
  destruct th, mh, sh; scan_layer_cases;
    repeat match goal with
           | Hb : (?a =? ?b) = _ |- context [?a =? ?b] => rewrite Hb
           end;
    repeat split; congruence.
Qed.

(** mipRegion1 is never entered again. *)
Lemma ScanLayer_mipRegion1_left (iLayer : PseudoLayer) (f : LayerFlags) (s : ScanState) :
  mipRegion1 s = false -> mipRegion1 (ScanLayer iLayer f s) = false.
Proof.
  destruct s as [m1s m1e m2s m2e ss se cont missed mc sc r1 r2 rs].
  destruct f as [th mh sh].
  cbn [mipRegion1]. intros ->.
  destruct th, mh, sh, r2, rs; scan_layer_cases; reflexivity.
Qed.

(** While the scan is in mipRegion1 the other regions are off and no end
    layer of mipRegion2 has been set. *)
Lemma scan_mipRegion1_invariant (layers : list PseudoLayer) :
  mipRegion1 (scan layers) = true ->
  mipRegion2 (scan layers) = false /\ showerRegion (scan layers) = false /\
  mipRegion2EndLayer (scan layers) = LAYER_MAX.
Proof.
  induction layers as [|iLayer pre IH] using rev_ind.
  - intros _. repeat split.
  - rewrite ScanLayers_snoc. cbv zeta.
    destruct (shouldContinue (scan pre)); [|exact IH].
    intros H1.
    destruct (mipRegion1 (scan pre)) eqn:Hpre.
    + destruct (IH eq_refl) as (H2 & Hs & He).
      pose proof (ScanLayer_in_mipRegion1 iLayer (findings iLayer) _ Hpre H2 Hs) as (H2' & He' & Hcase).
      cbv zeta in *.
      destruct (ShowerOnly (findings iLayer) && _).
      * destruct Hcase as (Hoff & _). congruence.
      * destruct Hcase as (_ & Hs' & _). repeat split; congruence.
    + rewrite ScanLayer_mipRegion1_left in H1 by exact Hpre. discriminate H1.
Qed.

(** While every layer so far was scanned in mipRegion1, the counter of the
    code is the count of the threshold law, and that count has not been at
    the threshold. *)
Lemma scan_streak (layers : list PseudoLayer) :
  Z.of_nat (length layers) < UINT_MOD ->
  shouldContinue (scan layers) = true -> mipRegion1 (scan layers) = true ->
  showerCount (scan layers) = ShowerStreak (map findings layers) 0 /\
  0 <= showerCount (scan layers) <= Z.of_nat (length layers) /\
  StreakReaches threshold (map findings layers) 0 = false.
Proof.
  induction layers as [|iLayer pre IH] using rev_ind.
  - intros _ _ _. simpl. repeat split; lia.
  - rewrite length_app, ScanLayers_snoc, map_app. cbv zeta. simpl length. intros Hlen.
    destruct (shouldContinue (scan pre)) eqn:Hcont; [|intros Hc; congruence].
    intros _ H1.
    destruct (mipRegion1 (scan pre)) eqn:Hpre;
      [|rewrite ScanLayer_mipRegion1_left in H1 by exact Hpre; discriminate H1].
    destruct IH as (Hcount & Hrange & Hnot); [lia|reflexivity|reflexivity|].
    destruct (scan_mipRegion1_invariant pre Hpre) as (H2 & Hs & _).
    pose proof (ScanLayer_in_mipRegion1 iLayer (findings iLayer) _ Hpre H2 Hs) as (_ & _ & Hcase).
    cbv zeta in Hcase.
    assert (Hincr : incr32 (showerCount (scan pre)) = showerCount (scan pre) + 1).
    { apply wrap32_small. unfold is_uint32. lia. }
    rewrite Hincr in Hcase.
    cbn [map]. rewrite ShowerStreak_snoc, StreakReaches_snoc, Hnot. cbv zeta.
    rewrite <- Hcount.
    destruct (ShowerOnly (findings iLayer) && (showerCount (scan pre) + 1 =? threshold)) eqn:Hreach.
    + destruct Hcase as (Hoff & _). congruence.
    + destruct Hcase as (_ & _ & Hnew). rewrite Hnew. split; [reflexivity|].
      split; [|first [exact Hreach | reflexivity]].
      destruct (ShowerOnly (findings iLayer)); [lia|].
      destruct (MipOnly (findings iLayer)); lia.
Qed.

(** Once left, mipRegion1 stays left to the end of the scan. *)
Lemma ScanLayers_mipRegion1_left (layers : list PseudoLayer) (s : ScanState) :
  mipRegion1 s = false ->
  mipRegion1 (ScanLayers fp GetMagnitude GetInitialDirection cfg pCluster pTrack layers s)
  = false.
Proof.
  revert s. induction layers as [|i rest IH]; intros s Hleft; simpl; [exact Hleft|].
  destruct (shouldContinue s); [|exact Hleft].
  apply IH, ScanLayer_mipRegion1_left, Hleft.
Qed.

(** A scan that ends outside mipRegion1 left it at one of its layers. *)
Lemma scan_first_exit (layers : list PseudoLayer) :
  mipRegion1 (scan layers) = false ->
  exists pre iLayer post,
    layers = pre ++ iLayer :: post /\
    shouldContinue (scan pre) = true /\ mipRegion1 (scan pre) = true /\
    mipRegion1 (scan (pre ++ [iLayer])) = false.
Proof.
  induction layers as [|x l IH] using rev_ind.
  - intros Hinit. discriminate Hinit.
  - intros Hleft.
    destruct (mipRegion1 (scan l)) eqn:Hl.
    + exists l, x, []. split; [reflexivity|].
      rewrite ScanLayers_snoc in Hleft. cbv zeta in Hleft.
      destruct (shouldContinue (scan l)) eqn:Hc; [|congruence].
      split; [reflexivity|]. split; [exact Hl|].
      rewrite ScanLayers_snoc. cbv zeta. rewrite Hc. exact Hleft.
    + destruct (IH eq_refl) as (pre & i & post & Hsplit & Hc & H1 & Hexit).
      exists pre, i, (post ++ [x]). split; [|split; [|split]]; try assumption.
      rewrite Hsplit, <- app_assoc. reflexivity.
Qed.

(** If the count is never at the threshold, the scan stays in mipRegion1. *)
Lemma scan_never_reached (layers : list PseudoLayer) :
  Z.of_nat (length layers) < UINT_MOD ->
  StreakReaches threshold (map findings layers) 0 = false ->
  mipRegion1 (scan layers) = true.
Proof.
  induction layers as [|iLayer pre IH] using rev_ind.
  - intros _ _. reflexivity.
  - rewrite length_app, ScanLayers_snoc, map_app. cbv zeta. simpl length. cbn [map].
    rewrite StreakReaches_snoc. intros Hlen Hnot.
    apply orb_false_iff in Hnot as [Hpre Hlast].
    assert (H1 : mipRegion1 (scan pre) = true) by (apply IH; [lia | exact Hpre]).
    destruct (shouldContinue (scan pre)) eqn:Hcont; [|exact H1].
    destruct (scan_streak pre) as (Hcount & Hrange & _); [lia|exact Hcont|exact H1|].
    destruct (scan_mipRegion1_invariant pre H1) as (H2 & Hs & _).
    pose proof (ScanLayer_in_mipRegion1 iLayer (findings iLayer) _ H1 H2 Hs) as (_ & _ & Hcase).
    cbv zeta in Hcase.
    assert (Hincr : incr32 (showerCount (scan pre)) = showerCount (scan pre) + 1).
    { apply wrap32_small. unfold is_uint32. lia. }
    rewrite Hincr, Hcount, Hlast in Hcase. apply Hcase.
Qed.

End Scan.

(** C5.  ShouldFragmentCluster scans the layers from the one behind the
    track projection layer to the outer layer of the cluster.  At each of
    them that the scan reaches in mipRegion1, its counter showerCount is the
    count of the threshold law: a layer with a shower hit and no mip hit
    adds one to it, a layer with a mip hit and no shower hit sets it to
    zero.  The scan leaves mipRegion1 for showerRegion at such a layer
    exactly when the layer has a shower hit and no mip hit and brings the
    count to NLayersForShowerRegion, which the count has not been at any
    layer before; mipRegion1 is then off for the rest of the scan.  The scan
    ends outside mipRegion1 exactly when it reaches such a layer.  When the
    count is at the threshold at no layer, the scan never leaves mipRegion1
    and ShouldFragmentCluster returns false. *)
Theorem region_transition_threshold_law
    (fp : FloatArithmetic) (GetMagnitude : CartesianVector -> Q)
    (GetInitialDirection : Cluster -> CartesianVector)
    (TRACK_PROJECTION_LAYER : PseudoLayer) (cfg : Settings)
    (pCluster : Cluster) (pTrack : Track) (tracks : list Track)
    (showerStart showerEnd : PseudoLayer) :
  GetAssociatedTrackList pCluster = pTrack :: tracks ->
  ClusterOps.GetOuterPseudoLayer pCluster < LAYER_MAX ->
  let threshold := m_nLayersForShowerRegion cfg in
  let findings := FindTrackHits fp GetMagnitude GetInitialDirection cfg pCluster pTrack in
  let scan := fun layers =>
    ScanLayers fp GetMagnitude GetInitialDirection cfg pCluster pTrack layers
               (InitialScanState showerStart showerEnd) in
  let layers := PseudoLayers (firstPseudoLayer TRACK_PROJECTION_LAYER)
                             (ClusterOps.GetOuterPseudoLayer pCluster) in
  let final := ScanCluster fp GetMagnitude GetInitialDirection TRACK_PROJECTION_LAYER cfg
                 pCluster pTrack showerStart showerEnd in
  (forall pre iLayer post,
      layers = pre ++ iLayer :: post ->
      shouldContinue (scan pre) = true -> mipRegion1 (scan pre) = true ->
      let count := ShowerStreak (map findings pre) 0 in
      let s' := scan (pre ++ [iLayer]) in
      final = ScanLayers fp GetMagnitude GetInitialDirection cfg pCluster pTrack post s' /\
      showerCount (scan pre) = count /\
      StreakReaches threshold (map findings pre) 0 = false /\
      (mipRegion1 s' = false <-> ShowerOnly (findings iLayer) = true /\ count + 1 = threshold) /\
      (mipRegion1 s' = false ->
       showerRegion s' = true /\ showerCount s' = 0 /\ mipRegion1 final = false) /\
      (mipRegion1 s' = true -> ShowerOnly (findings iLayer) = true -> showerCount s' = count + 1) /\
      (MipOnly (findings iLayer) = true -> mipRegion1 s' = true /\ showerCount s' = 0)) /\
  (mipRegion1 final = false <->
   exists pre iLayer post,
     layers = pre ++ iLayer :: post /\
     shouldContinue (scan pre) = true /\
     StreakReaches threshold (map findings pre) 0 = false /\
     ShowerOnly (findings iLayer) = true /\
     ShowerStreak (map findings pre) 0 + 1 = threshold) /\
  (StreakReaches threshold (map findings layers) 0 = false ->
   mipRegion1 final = true /\
   ShouldFragmentCluster fp GetMagnitude GetInitialDirection TRACK_PROJECTION_LAYER cfg
     pCluster showerStart showerEnd
   = Some (false, showerStartLayer final, showerEndLayer final)).
Proof.
  intros Htracks Houter threshold findings scan layers final.
  assert (Hlen : Z.of_nat (length layers) < UINT_MOD).
  { unfold layers. rewrite PseudoLayers_length.
    pose proof (wrap32_range (TRACK_PROJECTION_LAYER + 1)) as Hfirst.
    unfold firstPseudoLayer, is_uint32, LAYER_MAX in *. lia. }
  assert (Hfinal : final = scan layers) by reflexivity.
  assert (Hlaw : forall pre iLayer post,
      layers = pre ++ iLayer :: post ->
      shouldContinue (scan pre) = true -> mipRegion1 (scan pre) = true ->
      let count := ShowerStreak (map findings pre) 0 in
      let s' := scan (pre ++ [iLayer]) in
      final = ScanLayers fp GetMagnitude GetInitialDirection cfg pCluster pTrack post s' /\
      showerCount (scan pre) = count /\
      StreakReaches threshold (map findings pre) 0 = false /\
      (mipRegion1 s' = false <-> ShowerOnly (findings iLayer) = true /\ count + 1 = threshold) /\
      (mipRegion1 s' = false ->
       showerRegion s' = true /\ showerCount s' = 0 /\ mipRegion1 final = false) /\
      (mipRegion1 s' = true -> ShowerOnly (findings iLayer) = true -> showerCount s' = count + 1) /\
      (MipOnly (findings iLayer) = true -> mipRegion1 s' = true /\ showerCount s' = 0)).
  { intros pre iLayer post Hsplit Hcont H1 count s'.
    assert (Hrest : final = ScanLayers fp GetMagnitude GetInitialDirection cfg pCluster pTrack
                              post s').
    { rewrite Hfinal, Hsplit. unfold s', scan.
      change (pre ++ iLayer :: post) with (pre ++ [iLayer] ++ post).
      rewrite app_assoc. apply ScanLayers_app. }
    split; [exact Hrest|].
    assert (Hstays : mipRegion1 s' = false -> mipRegion1 final = false).
    { intros Hleft. rewrite Hrest. apply ScanLayers_mipRegion1_left, Hleft. }
    assert (Hlen' : Z.of_nat (length pre) + 1 < UINT_MOD).
    { rewrite Hsplit, length_app in Hlen. cbn [length] in Hlen. lia. }
    clear Hrest Hfinal. revert Hstays. generalize (mipRegion1 final) as left. intros left Hstays.
    subst threshold findings scan count s'. cbv beta in *.
    destruct (scan_streak fp GetMagnitude GetInitialDirection cfg pCluster pTrack showerStart
                showerEnd pre ltac:(lia) Hcont H1) as (Hcount & Hrange & Hnot).
    destruct (scan_mipRegion1_invariant fp GetMagnitude GetInitialDirection cfg pCluster pTrack
                showerStart showerEnd pre H1) as (H2 & Hs & _).
    pose proof (ScanLayer_in_mipRegion1 cfg iLayer
                  (FindTrackHits fp GetMagnitude GetInitialDirection cfg pCluster pTrack iLayer)
                  _ H1 H2 Hs) as (_ & _ & Hcase).
    cbv zeta in Hcase.
    rewrite ScanLayers_snoc in Hstays |- *. cbv zeta in Hstays |- *.
    rewrite Hcont in Hstays |- *.
    split; [exact Hcount|]. split; [exact Hnot|].
    rewrite <- Hcount.
    remember (ScanLayers fp GetMagnitude GetInitialDirection cfg pCluster pTrack pre
                (InitialScanState showerStart showerEnd)) as before eqn:Hbefore.
    remember (FindTrackHits fp GetMagnitude GetInitialDirection cfg pCluster pTrack iLayer)
      as f eqn:Hf.
    remember (ScanLayer cfg iLayer f before) as after eqn:Hafter.
    assert (Hincr : incr32 (showerCount before) = showerCount before + 1).
    { apply wrap32_small. unfold is_uint32 in *. lia. }
    rewrite Hincr in Hcase.
    clear Hbefore Hf Hafter Hcount Hnot Hincr.
    unfold MipOnly, ShowerOnly in *.
    destruct (mipTrackHitFound f), (showerTrackHitFound f); cbn [negb andb] in *;
      try (destruct (Z.eqb_spec (showerCount before + 1) (m_nLayersForShowerRegion cfg))
             as [Heq|Hne]);
      destruct Hcase as (Hr1 & Hrs & Hsc);
      repeat split; intros; try discriminate; try congruence;
      try (match goal with Hx : _ /\ _ |- _ => destruct Hx end); try congruence;
      try (apply Hstays; congruence). }
  split; [exact Hlaw|]. split; [split|].
  - intros Hleft. rewrite Hfinal in Hleft.
    apply (scan_first_exit fp GetMagnitude GetInitialDirection cfg pCluster pTrack showerStart
             showerEnd) in Hleft as (pre & iLayer & post & Hsplit & Hcont & H1 & Hexit).
    exists pre, iLayer, post. split; [exact Hsplit|]. split; [exact Hcont|].
    destruct (Hlaw pre iLayer post Hsplit Hcont H1) as (_ & _ & Hnot & Hiff & _).
    split; [exact Hnot|]. apply Hiff. exact Hexit.
  - intros (pre & iLayer & post & Hsplit & Hcont & Hnot & Hshower & Hcount).
    assert (H1 : mipRegion1 (scan pre) = true).
    { apply scan_never_reached; [|exact Hnot].
      rewrite Hsplit, length_app in Hlen. lia. }
    destruct (Hlaw pre iLayer post Hsplit Hcont H1) as (_ & _ & _ & Hiff & Hthen & _).
    apply Hthen, Hiff. split; assumption.
  - intros Hnot.
    pose proof (scan_never_reached fp GetMagnitude GetInitialDirection cfg pCluster pTrack
                  showerStart showerEnd _ Hlen Hnot) as H1.
    change (mipRegion1 final = true) in H1.
    split; [exact H1|].
    destruct (scan_mipRegion1_invariant fp GetMagnitude GetInitialDirection cfg pCluster pTrack
                showerStart showerEnd layers H1) as (_ & _ & Hend).
    change (mipRegion2EndLayer final = LAYER_MAX) in Hend.
    unfold ShouldFragmentCluster. rewrite Htracks. cbv zeta. fold final.
    unfold FragmentationDecision. rewrite Hend, Z.eqb_refl. reflexivity.
Qed.

(** The scan of [showerThenMip] leaves mipRegion1 at its second layer, where
    the count is at the threshold 2 for the first time. *)
Lemma region_transition_threshold_law_witness :
  GetAssociatedTrackList showerThenMip = exampleTrack :: [] /\
  ClusterOps.GetOuterPseudoLayer showerThenMip < LAYER_MAX /\
  mipRegion1 (ScanCluster binary32 AxisMagnitude exampleDirection 0 shortSpanSettings
                showerThenMip exampleTrack LAYER_MAX LAYER_MAX) = false.
Proof.
  split; [reflexivity|]. split; [reflexivity|].
  apply (proj2 (proj1 (proj2 (region_transition_threshold_law binary32 AxisMagnitude
                                exampleDirection 0 shortSpanSettings showerThenMip exampleTrack []
                                LAYER_MAX LAYER_MAX eq_refl eq_refl)))).
  exists [1], 2, [3; 4; 5; 6]. repeat split.
Defined.

(** Scenario C of the spec: the count of [alternating] is at the threshold
    at no layer, and the scan ends in mipRegion1. *)
Example alternating_stays_in_mipRegion1 :
  StreakReaches (m_nLayersForShowerRegion DefaultSettings)
    (map (FindTrackHits binary32 AxisMagnitude exampleDirection DefaultSettings alternating exampleTrack)
         (PseudoLayers (firstPseudoLayer 0) (ClusterOps.GetOuterPseudoLayer alternating))) 0 = false /\
  mipRegion1 (ScanCluster binary32 AxisMagnitude exampleDirection 0 DefaultSettings alternating
                exampleTrack LAYER_MAX LAYER_MAX) = true.
Proof. vm_compute. split; reflexivity. Qed.

(** The transition of [showerThenMip] happens at its second layer, where the
    count is at the threshold 2 for the first time. *)
Example showerThenMip_transition :
  let scan := fun layers =>
    ScanLayers binary32 AxisMagnitude exampleDirection shortSpanSettings showerThenMip exampleTrack layers
               (InitialScanState LAYER_MAX LAYER_MAX) in
  (mipRegion1 (scan [1]), showerCount (scan [1]), showerStartLayer (scan [1])) = (true, 1, 1) /\
  (mipRegion1 (scan [1; 2]), showerRegion (scan [1; 2]), showerCount (scan [1; 2])) = (false, true, 0).
Proof. vm_compute. split; reflexivity. Qed.

End RegionScan.

(** * Further properties of the layer scan *)

Module ScanInvariants.
Import MipPhotonSeparation SeparationQuantities RegionScan.

Section Scan.

Variable fp : FloatArithmetic.
Variable GetMagnitude : CartesianVector -> Q.
Variable GetInitialDirection : Cluster -> CartesianVector.
Variable cfg : Settings.
Variable pCluster : Cluster.
Variable pTrack : Track.

Local Abbreviation findings := (FindTrackHits fp GetMagnitude GetInitialDirection cfg pCluster pTrack).
Local Abbreviation ScanLayers :=
  (ScanLayers fp GetMagnitude GetInitialDirection cfg pCluster pTrack).

Lemma ScanLayer_OneRegion (iLayer : PseudoLayer) (f : LayerFlags) (s : ScanState) :
  OneRegion s = true -> OneRegion (ScanLayer cfg iLayer f s) = true.
Proof.
  destruct s as [m1s m1e m2s m2e ss se cont missed mc sc r1 r2 rs].
  destruct f as [th mh sh].
  unfold OneRegion at 1. cbn [mipRegion1 mipRegion2 showerRegion].
  destruct r1, rs, r2; intros Hone; try discriminate Hone; clear Hone;
    destruct th, mh, sh; scan_layer_cases; reflexivity.
Qed.

Lemma ScanLayer_mipRegion2_kept (iLayer : PseudoLayer) (f : LayerFlags) (s : ScanState) :
  mipRegion2 s = true -> mipRegion2 (ScanLayer cfg iLayer f s) = true.
Proof.
  destruct s as [m1s m1e m2s m2e ss se cont missed mc sc r1 r2 rs].
  destruct f as [th mh sh].
  cbn [mipRegion2]. intros ->.
  destruct th, mh, sh, r1, rs; scan_layer_cases; reflexivity.
Qed.

Lemma ScanLayers_invariant_at (P : ScanState -> Prop) (layers : list PseudoLayer) (s : ScanState) :
  (forall i s', P s' -> P (ScanLayer cfg i (findings i) s')) ->
  P s -> P (ScanLayers layers s).
Proof.
  intros Hstep. revert s. induction layers as [|i rest IH]; intros s Hs; simpl; [exact Hs|].
  destruct (shouldContinue s); [|exact Hs].
  apply IH, Hstep, Hs.
Qed.

Lemma ScanLayers_invariant (P : ScanState -> Prop) (layers : list PseudoLayer) (s : ScanState) :
  (forall i f s', P s' -> P (ScanLayer cfg i f s')) ->
  P s -> P (ScanLayers layers s).
Proof. intros Hstep. apply ScanLayers_invariant_at. intros i s'. apply Hstep. Qed.

(** X1.  At every point of the scan of ShouldFragmentCluster exactly one of
    mipRegion1, showerRegion and mipRegion2 is set, and the regions are
    passed in this order: once mipRegion1 is left it is not entered again,
    and once mipRegion2 is entered it is not left. *)
Theorem region_flags_exclusive_and_ordered (showerStart showerEnd : PseudoLayer)
    (layers more : list PseudoLayer) :
  let s := ScanLayers layers (InitialScanState showerStart showerEnd) in
  let s' := ScanLayers (layers ++ more) (InitialScanState showerStart showerEnd) in
  OneRegion s = true /\
  (mipRegion1 s = false -> mipRegion1 s' = false) /\
  (mipRegion2 s = true -> mipRegion2 s' = true).
Proof.
  intros s s'. split; [|split].
  - apply (ScanLayers_invariant (fun x => OneRegion x = true)); [|reflexivity].
    intros i f s0. apply ScanLayer_OneRegion.
  - intros Hleft. unfold s'. rewrite ScanLayers_app. fold s.
    apply (ScanLayers_invariant (fun x => mipRegion1 x = false)); [|exact Hleft].
    intros i f s0. apply ScanLayer_mipRegion1_left.
  - intros Hin. unfold s'. rewrite ScanLayers_app. fold s.
    apply (ScanLayers_invariant (fun x => mipRegion2 x = true)); [|exact Hin].
    intros i f s0. apply ScanLayer_mipRegion2_kept.
Qed.

(** ** Missed layers *)

Lemma ScanLayer_layersMissed (iLayer : PseudoLayer) (f : LayerFlags) (s : ScanState) :
  layersMissed (ScanLayer cfg iLayer f s) =
  if trackHitFound f then 0 else incr32 (layersMissed s).
Proof.
  destruct s as [m1s m1e m2s m2e ss se cont missed mc sc r1 r2 rs].
  destruct f as [th mh sh].
  destruct th, mh, sh, r1, r2, rs; scan_layer_cases; reflexivity.
Qed.

Lemma ScanLayer_stops_on_missed (iLayer : PseudoLayer) (f : LayerFlags) (s : ScanState) :
  m_maxLayersMissed cfg < layersMissed (ScanLayer cfg iLayer f s) ->
  shouldContinue (ScanLayer cfg iLayer f s) = false.
Proof.
  unfold ScanLayer. generalize (ShowerOnlyLayer cfg iLayer f
    (MipOnlyLayer cfg iLayer f (UpdateShowerEndLayer iLayer f
      (UpdateMipEndLayers iLayer f (UpdateLayersMissed f s))))).
  intros s1. unfold CheckLayersMissed.
  destruct (layersMissed s1 >? m_maxLayersMissed cfg) eqn:Hgt; cbn; [reflexivity|].
  rewrite Z.gtb_ltb, Z.ltb_ge in Hgt. lia.
Qed.

Lemma ScanLayer_MissedWithinLimit (iLayer : PseudoLayer) (f : LayerFlags) (s : ScanState) :
  MissedWithinLimit cfg s -> MissedWithinLimit cfg (ScanLayer cfg iLayer f s).
Proof.
  intros [Hpos Hlim]. split.
  - rewrite ScanLayer_layersMissed. destruct (trackHitFound f); [lia|].
    apply wrap32_range.
  - intros Hcont. destruct (Z_lt_le_dec (m_maxLayersMissed cfg)
                              (layersMissed (ScanLayer cfg iLayer f s))) as [Hgt|Hle]; [|exact Hle].
    rewrite ScanLayer_stops_on_missed in Hcont by exact Hgt. discriminate Hcont.
Qed.

Lemma ScanLayers_missed (gap : list PseudoLayer) (s : ScanState) :
  m_maxLayersMissed cfg < LAYER_MAX ->
  MissedWithinLimit cfg s ->
  Forall (fun i => trackHitFound (findings i) = false) gap ->
  shouldContinue (ScanLayers gap s) = false \/
  layersMissed (ScanLayers gap s) = layersMissed s + Z.of_nat (length gap).
Proof.
  intros Hmax. revert s. induction gap as [|i rest IH]; intros s Hinv Hgap.
  - right. simpl. lia.
  - simpl ScanLayers. destruct (shouldContinue s) eqn:Hcont; [|left; exact Hcont].
    apply Forall_cons in Hgap as [Hi Hrest].
    destruct (IH (ScanLayer cfg i (findings i) s)) as [Hstop|Hcount];
      [apply ScanLayer_MissedWithinLimit, Hinv | exact Hrest | left; exact Hstop |].
    right. rewrite Hcount, ScanLayer_layersMissed, Hi.
    destruct Hinv as [Hpos Hlim]. specialize (Hlim Hcont).
    unfold incr32. rewrite wrap32_small; [simpl length; lia|].
    unfold is_uint32. unfold LAYER_MAX in Hmax. lia.
Qed.

(** X2.  When more than m_maxLayersMissed pseudo layers in a row hold no hit
    on the track, the scan of ShouldFragmentCluster has stopped by the end
    of them: the layers behind have no effect on its result. *)
Theorem missed_layers_stop_scan (showerStart showerEnd : PseudoLayer)
    (pre gap post : list PseudoLayer) :
  0 <= m_maxLayersMissed cfg < LAYER_MAX ->
  Forall (fun i => trackHitFound (findings i) = false) gap ->
  m_maxLayersMissed cfg < Z.of_nat (length gap) ->
  let scan := fun layers => ScanLayers layers (InitialScanState showerStart showerEnd) in
  shouldContinue (scan (pre ++ gap)) = false /\
  scan (pre ++ gap ++ post) = scan (pre ++ gap).
Proof.
  intros [Hpos Hmax] Hgap Hlen scan.
  assert (Hinv : forall layers, MissedWithinLimit cfg (scan layers)).
  { intros layers. apply (ScanLayers_invariant (MissedWithinLimit cfg)).
    - intros i f s0. apply ScanLayer_MissedWithinLimit.
    - split; cbn; [lia | intros _; exact Hpos]. }
  assert (Hstop : shouldContinue (scan (pre ++ gap)) = false).
  { destruct (shouldContinue (scan (pre ++ gap))) eqn:Hcont; [|reflexivity].
    destruct (Hinv (pre ++ gap)) as [_ Hlim]. specialize (Hlim Hcont).
    unfold scan in Hcont, Hlim. rewrite ScanLayers_app in Hcont, Hlim.
    destruct (ScanLayers_missed gap _ Hmax (Hinv pre) Hgap) as [Hs|Hcount].
    - unfold scan in Hs. congruence.
    - unfold scan in Hcount. destruct (Hinv pre) as [Hpre _]. unfold scan in Hpre. lia. }
  split; [exact Hstop|].
  unfold scan. rewrite app_assoc, (ScanLayers_app _ _ _ _ _ _ (pre ++ gap) post).
  apply ScanLayers_stopped, Hstop.
Qed.

(** ** The markers of the regions *)

Lemma ScanLayer_first_region_fixed (iLayer : PseudoLayer) (f : LayerFlags) (s : ScanState) :
  mipRegion1 s = false ->
  let s' := ScanLayer cfg iLayer f s in
  mipRegion1StartLayer s' = mipRegion1StartLayer s /\
  mipRegion1EndLayer s' = mipRegion1EndLayer s /\
  showerStartLayer s' = showerStartLayer s.
Proof.
  destruct s as [m1s m1e m2s m2e ss se cont missed mc sc r1 r2 rs].
  destruct f as [th mh sh].
  cbn [mipRegion1]. intros ->.
  destruct th, mh, sh, r2, rs; scan_layer_cases; repeat split.
Qed.

(** X3.  Once the scan has left mipRegion1, the start and end layer of
    mipRegion1 and the shower start layer keep their values for the rest of
    the scan. *)
Theorem first_region_markers_fixed_once_left (showerStart showerEnd : PseudoLayer)
    (pre post : list PseudoLayer) :
  let s := ScanLayers pre (InitialScanState showerStart showerEnd) in
  let s' := ScanLayers (pre ++ post) (InitialScanState showerStart showerEnd) in
  mipRegion1 s = false ->
  mipRegion1StartLayer s' = mipRegion1StartLayer s /\
  mipRegion1EndLayer s' = mipRegion1EndLayer s /\
  showerStartLayer s' = showerStartLayer s.
Proof.
  intros s s' Hleft. unfold s'. rewrite ScanLayers_app. fold s.
  apply (ScanLayers_invariant (fun x =>
    mipRegion1 x = false /\
    (mipRegion1StartLayer x = mipRegion1StartLayer s /\
     mipRegion1EndLayer x = mipRegion1EndLayer s /\
     showerStartLayer x = showerStartLayer s))); [|auto].
  intros i f s0 [H1 (Ha & Hb & Hc)].
  split; [apply ScanLayer_mipRegion1_left, H1|].
  destruct (ScanLayer_first_region_fixed i f s0 H1) as (Ha' & Hb' & Hc').
  repeat split; congruence.
Qed.

Lemma ScanLayer_single_shower_layer (v : PseudoLayer) (iLayer : PseudoLayer) (f : LayerFlags)
    (s : ScanState) :
  m_nLayersForShowerRegion cfg = 1 ->
  (mipRegion1 s = true -> showerCount s = 0) /\ showerStartLayer s = v ->
  let s' := ScanLayer cfg iLayer f s in
  (mipRegion1 s' = true -> showerCount s' = 0) /\ showerStartLayer s' = v.
Proof.
  intros Hthr.
  destruct s as [m1s m1e m2s m2e ss se cont missed mc sc r1 r2 rs].
  destruct f as [th mh sh].
  cbn [mipRegion1 showerCount showerStartLayer]. intros [Hc <-].
  destruct r1; [rewrite (Hc eq_refl)|]; clear Hc;
    destruct th, mh, sh, r2, rs; scan_layer_cases;
    repeat match goal with
           | E : context [m_nLayersForShowerRegion cfg] |- _ => rewrite Hthr in E
           end;
    try discriminate;
    (split; [intros Hr; first [discriminate Hr | reflexivity] | reflexivity]).
Qed.

(** X4.  With a shower region threshold (m_nLayersForShowerRegion) of one
    layer the scan never writes the shower start layer: it returns the value
    the caller passed in. *)
Theorem single_shower_layer_keeps_start (showerStart showerEnd : PseudoLayer)
    (layers : list PseudoLayer) :
  m_nLayersForShowerRegion cfg = 1 ->
  showerStartLayer (ScanLayers layers (InitialScanState showerStart showerEnd)) = showerStart.
Proof.
  intros Hthr.
  apply (ScanLayers_invariant (fun x =>
    (mipRegion1 x = true -> showerCount x = 0) /\ showerStartLayer x = showerStart)).
  - intros i f s0. apply ScanLayer_single_shower_layer, Hthr.
  - split; reflexivity.
Qed.

Lemma MarkersBelow_mono (n m : PseudoLayer) (s : ScanState) :
  n <= m -> MarkersBelow n s -> MarkersBelow m s.
Proof. unfold MarkersBelow. intros Hnm. intuition lia. Qed.

Lemma ScanLayer_MarkersBelow (n iLayer : PseudoLayer) (f : LayerFlags) (s : ScanState) :
  0 <= n <= iLayer -> OneRegion s = true -> MarkersBelow n s ->
  MarkersBelow (iLayer + 1) (ScanLayer cfg iLayer f s).
Proof.
  intros Hn.
  destruct s as [m1s m1e m2s m2e ss se cont missed mc sc r1 r2 rs].
  destruct f as [th mh sh].
  unfold OneRegion at 1, MarkersBelow at 1.
  cbn [mipRegion1 mipRegion2 showerRegion showerStartLayer showerEndLayer
       mipRegion2StartLayer mipRegion2EndLayer].
  destruct r1, rs, r2; intros Hone; try discriminate Hone; clear Hone;
    intros (A & B & C & D & A' & B' & C' & D');
    repeat match goal with
           | H : true = true -> _ |- _ => specialize (H eq_refl)
           | H : false = false -> _ |- _ => specialize (H eq_refl)
           | H : true = false -> _ |- _ => clear H
           | H : false = true -> _ |- _ => clear H
           end;
    destruct th, mh, sh; scan_layer_cases;
    unfold MarkersBelow;
    cbn [mipRegion1 mipRegion2 showerRegion showerStartLayer showerEndLayer
         mipRegion2StartLayer mipRegion2EndLayer];
    repeat match goal with
           | |- _ /\ _ => split
           | |- _ = _ -> _ => intros ?; try discriminate
           end;
    lia.
Qed.

Lemma ScanLayers_MarkersBelow (bound : PseudoLayer) (layers : list PseudoLayer) :
  forall (n : PseudoLayer) (s : ScanState),
  StronglySorted Z.lt layers -> Forall (fun i => n <= i < bound) layers ->
  0 <= n <= bound -> OneRegion s = true -> MarkersBelow n s ->
  MarkersBelow bound (ScanLayers layers s).
Proof.
  induction layers as [|i rest IH]; intros n s Hsorted Hrange Hn Hone Hinv.
  - apply (MarkersBelow_mono n); [lia | exact Hinv].
  - simpl ScanLayers. destruct (shouldContinue s);
      [|apply (MarkersBelow_mono n); [lia | exact Hinv]].
    apply StronglySorted_inv in Hsorted as [Hsorted Hlt].
    apply Forall_cons in Hrange as [Hi Hrange].
    apply (IH (i + 1)).
    + exact Hsorted.
    + rewrite Forall_forall in Hlt, Hrange |- *. intros x Hx.
      specialize (Hlt x Hx). specialize (Hrange x Hx). lia.
    + lia.
    + apply ScanLayer_OneRegion, Hone.
    + apply (ScanLayer_MarkersBelow n); [lia | exact Hone | exact Hinv].
Qed.

Lemma PseudoLayers_range (first last : PseudoLayer) :
  Forall (fun i => first <= i < last + 1) (PseudoLayers first last).
Proof.
  unfold PseudoLayers. rewrite Forall_forall. intros x Hx.
  apply list_elem_of_In, in_map_iff in Hx as (k & <- & Hk).
  apply in_seq in Hk. lia.
Qed.

Lemma PseudoLayers_sorted (first last : PseudoLayer) :
  StronglySorted Z.lt (PseudoLayers first last).
Proof.
  unfold PseudoLayers. generalize (Z.to_nat (last + 1 - first)) as len. generalize 0%nat as a.
  intros a len. revert a. induction len as [|len IH]; intros a; simpl.
  - constructor.
  - constructor; [apply IH|].
    rewrite Forall_forall. intros x Hx.
    apply list_elem_of_In, in_map_iff in Hx as (k & <- & Hk).
    apply in_seq in Hk. lia.
Qed.

End Scan.

Section ScanCluster.

Variable fp : FloatArithmetic.
Variable GetMagnitude : CartesianVector -> Q.
Variable GetInitialDirection : Cluster -> CartesianVector.
Variable TRACK_PROJECTION_LAYER : PseudoLayer.
Variable cfg : Settings.

(** X5.  For a cluster whose outer layer is a 32-bit layer number the scan
    of Run (both shower layers LAYER_MAX on entry) returns its markers in
    order: a shower start layer lies before the shower end layer, the start
    layer of mipRegion2 before its end layer, and where both markers of a
    region are set their unsigned difference is the plain span.  The
    difference of line 224 is taken whenever the end layer of mipRegion2 is
    set: when the start layer is not, it wraps to the end layer plus one.
    The shower differences are taken with both markers set only.  So the
    decision is the one computed from the spans without wrap-around. *)
Theorem scan_markers_in_order (pCluster : Cluster) (pTrack : Track) :
  is_uint32 (ClusterOps.GetOuterPseudoLayer pCluster) ->
  let s := ScanCluster fp GetMagnitude GetInitialDirection TRACK_PROJECTION_LAYER cfg
                       pCluster pTrack LAYER_MAX LAYER_MAX in
  MarkersInOrder s /\
  (showerStartLayer s <> LAYER_MAX -> showerEndLayer s <> LAYER_MAX ->
   sub32 (showerEndLayer s) (showerStartLayer s) = showerEndLayer s - showerStartLayer s) /\
  (mipRegion2StartLayer s <> LAYER_MAX -> mipRegion2EndLayer s <> LAYER_MAX ->
   sub32 (mipRegion2EndLayer s) (mipRegion2StartLayer s) =
   mipRegion2EndLayer s - mipRegion2StartLayer s) /\
  (mipRegion2StartLayer s = LAYER_MAX -> mipRegion2EndLayer s <> LAYER_MAX ->
   sub32 (mipRegion2EndLayer s) (mipRegion2StartLayer s) = mipRegion2EndLayer s + 1) /\
  FragmentationDecision cfg s = SpanDecision cfg s.
Proof.
  intros Houter s.
  assert (Hinv : MarkersBelow UINT_MOD s).
  { unfold s, ScanCluster.
    pose proof (wrap32_range (TRACK_PROJECTION_LAYER + 1)) as Hfirst.
    fold (firstPseudoLayer TRACK_PROJECTION_LAYER) in Hfirst.
    unfold is_uint32 in Hfirst, Houter.
    apply (ScanLayers_MarkersBelow _ _ _ _ _ _ UINT_MOD _ (firstPseudoLayer TRACK_PROJECTION_LAYER)).
    - apply PseudoLayers_sorted.
    - eapply Forall_impl; [apply PseudoLayers_range|].
      intros x Hx. cbv beta in Hx |- *. lia.
    - lia.
    - reflexivity.
    - unfold MarkersBelow. cbn. intuition (auto; try discriminate). }
  destruct Hinv as (A & _ & _ & D & A' & _ & _ & D').
  assert (Hshower : showerStartLayer s <> LAYER_MAX -> showerEndLayer s <> LAYER_MAX ->
            sub32 (showerEndLayer s) (showerStartLayer s)
            = showerEndLayer s - showerStartLayer s).
  { intros. apply wrap32_small. unfold is_uint32. lia. }
  assert (Hmip : mipRegion2StartLayer s <> LAYER_MAX -> mipRegion2EndLayer s <> LAYER_MAX ->
            sub32 (mipRegion2EndLayer s) (mipRegion2StartLayer s)
            = mipRegion2EndLayer s - mipRegion2StartLayer s).
  { intros. apply wrap32_small. unfold is_uint32. lia. }
  assert (Hwrap : mipRegion2StartLayer s = LAYER_MAX -> mipRegion2EndLayer s <> LAYER_MAX ->
            sub32 (mipRegion2EndLayer s) (mipRegion2StartLayer s) = mipRegion2EndLayer s + 1).
  { intros Hunset Hset. rewrite Hunset. unfold sub32, wrap32, LAYER_MAX.
    replace (mipRegion2EndLayer s - (UINT_MOD - 1))
      with (mipRegion2EndLayer s + 1 + (-1) * UINT_MOD) by ring.
    rewrite Z.mod_add by (unfold UINT_MOD; lia).
    apply Z.mod_small. unfold LAYER_MAX in *. lia. }
  split; [unfold MarkersInOrder; split; intros; lia|].
  split; [exact Hshower|]. split; [exact Hmip|]. split; [exact Hwrap|].
  unfold FragmentationDecision, SpanDecision, MipRegion2Span.
  destruct (Z.eqb_spec (mipRegion2EndLayer s) LAYER_MAX) as [|Hend]; [reflexivity|].
  destruct (Z.eqb_spec (showerEndLayer s) LAYER_MAX) as [|Hse]; cbn [negb andb];
    [rewrite !andb_false_r; reflexivity|].
  destruct (Z.eqb_spec (showerStartLayer s) LAYER_MAX) as [|Hss]; [reflexivity|].
  rewrite (Hshower Hss Hse).
  destruct (Z.eqb_spec (mipRegion2StartLayer s) LAYER_MAX) as [Hms|Hms].
  - rewrite (Hwrap Hms Hend). reflexivity.
  - rewrite (Hmip Hms Hend). reflexivity.
Qed.

End ScanCluster.

(** A gap of two layers stops the scan of [gappedCluster] under the default
    settings. *)
Lemma missed_layers_stop_scan_witness :
  shouldContinue (exampleScan DefaultSettings gappedCluster ([1] ++ [2; 3])) = false /\
  exampleScan DefaultSettings gappedCluster ([1] ++ [2; 3] ++ [4; 5]) =
  exampleScan DefaultSettings gappedCluster ([1] ++ [2; 3]).
Proof.
  apply (missed_layers_stop_scan binary32 AxisMagnitude exampleDirection DefaultSettings
           gappedCluster exampleTrack LAYER_MAX LAYER_MAX [1] [2; 3] [4; 5]).
  - split; [discriminate | reflexivity].
  - repeat constructor.
  - reflexivity.
Defined.

Lemma region_flags_exclusive_and_ordered_witness :
  mipRegion1 (exampleScan shortSpanSettings showerThenMip [1; 2]) = false /\
  mipRegion1 (exampleScan shortSpanSettings showerThenMip ([1; 2] ++ [3; 4; 5; 6])) = false.
Proof.
  split; [reflexivity|].
  apply (region_flags_exclusive_and_ordered binary32 AxisMagnitude exampleDirection shortSpanSettings
           showerThenMip exampleTrack LAYER_MAX LAYER_MAX [1; 2] [3; 4; 5; 6]).
  reflexivity.
Defined.

Lemma first_region_markers_fixed_once_left_witness :
  showerStartLayer (exampleScan shortSpanSettings showerThenMip ([1; 2] ++ [3; 4; 5; 6])) =
  showerStartLayer (exampleScan shortSpanSettings showerThenMip [1; 2]).
Proof.
  apply (first_region_markers_fixed_once_left binary32 AxisMagnitude exampleDirection shortSpanSettings
           showerThenMip exampleTrack LAYER_MAX LAYER_MAX [1; 2] [3; 4; 5; 6]).
  reflexivity.
Defined.

Lemma single_shower_layer_keeps_start_witness :
  showerStartLayer (exampleScan singleShowerLayerSettings showerThenMip [1; 2; 3; 4; 5; 6]) =
  LAYER_MAX.
Proof.
  apply (single_shower_layer_keeps_start binary32 AxisMagnitude exampleDirection singleShowerLayerSettings
           showerThenMip exampleTrack LAYER_MAX LAYER_MAX [1; 2; 3; 4; 5; 6]).
  reflexivity.
Defined.

(** With a mip region threshold of one layer no start layer of mipRegion2
    is written: the scan of [showerThenMip] ends with the end layer 6, the
    difference of line 224 is 7, above the minimum span of 4 that the three
    layers of the region do not reach, and the decision is to fragment. *)
Lemma scan_markers_in_order_witness :
  is_uint32 (ClusterOps.GetOuterPseudoLayer showerThenMip) /\
  (mipRegion2StartLayer singleMipLayerScan, mipRegion2EndLayer singleMipLayerScan)
    = (LAYER_MAX, 6) /\
  sub32 (mipRegion2EndLayer singleMipLayerScan) (mipRegion2StartLayer singleMipLayerScan)
    = mipRegion2EndLayer singleMipLayerScan + 1 /\
  FragmentationDecision singleMipLayerSettings singleMipLayerScan
    = SpanDecision singleMipLayerSettings singleMipLayerScan /\
  SpanDecision singleMipLayerSettings singleMipLayerScan = true.
Proof.
  assert (Houter : is_uint32 (ClusterOps.GetOuterPseudoLayer showerThenMip)).
  { split; [discriminate | reflexivity]. }
  pose proof (scan_markers_in_order binary32 AxisMagnitude exampleDirection 0
                singleMipLayerSettings showerThenMip exampleTrack Houter)
    as (_ & _ & _ & Hwrap & Hdecision).
  split; [exact Houter|]. split; [vm_compute; reflexivity|].
  split; [apply Hwrap; [vm_compute; reflexivity | vm_compute; discriminate]|].
  split; [exact Hdecision | vm_compute; reflexivity].
Defined.

End ScanInvariants.

(** * Further properties of the fragmentation *)

Module FragmentationFacts.
Import MipPhotonSeparation SeparationQuantities RegionScan.

Lemma find_Some_hits (P : CaloHit -> Prop) (iLayer : PseudoLayer) (l : OrderedCaloHitList)
    (hits : CaloHitList) :
  OrderedCaloHitList.find iLayer l = Some hits ->
  Forall P (OrderedCaloHitList.GetCaloHitList l) -> Forall P hits.
Proof.
  unfold OrderedCaloHitList.GetCaloHitList.
  induction l as [|[k hs] rest IH]; simpl; [discriminate|].
  intros Hfind Hall. apply Forall_app in Hall as [Hhs Hrest].
  destruct (k =? iLayer); [injection Hfind as <-; exact Hhs | apply IH; assumption].
Qed.

Lemma AddCaloHit_layers (P : PseudoLayer -> Prop) (h : CaloHit) (l : OrderedCaloHitList) :
  P (GetPseudoLayer h) -> Forall (fun kv => P (fst kv)) l ->
  Forall (fun kv => P (fst kv)) (OrderedCaloHitList.AddCaloHit h l).
Proof.
  intros Hh. induction l as [|[k hs] rest IH]; simpl; intros Hl.
  - constructor; [exact Hh | constructor].
  - apply Forall_cons in Hl as [Hk Hrest].
    destruct (GetPseudoLayer h <? k); [repeat constructor; assumption|].
    destruct (GetPseudoLayer h =? k); constructor; auto.
Qed.

Lemma Add_layers (P : PseudoLayer -> Prop) (hits : CaloHitList) (l : OrderedCaloHitList) :
  Forall (fun h => P (GetPseudoLayer h)) hits -> Forall (fun kv => P (fst kv)) l ->
  Forall (fun kv => P (fst kv)) (OrderedCaloHitList.Add hits l).
Proof.
  unfold OrderedCaloHitList.Add. revert l.
  induction hits as [|h hits IH]; intros l Hhits Hl; simpl; [exact Hl|].
  apply Forall_cons in Hhits as [Hh Hhits].
  apply IH; [exact Hhits | apply AddCaloHit_layers; assumption].
Qed.

Section Fragmentation.

Variable fp : FloatArithmetic.
Variable GetMagnitude : CartesianVector -> Q.
Variable GetInitialDirection : Cluster -> CartesianVector.
Variable TRACK_PROJECTION_LAYER : PseudoLayer.
Variable GetCorrectedHadronicEnergy : Cluster -> Q.
Variable IsPhotonFast : Cluster -> bool.
Variable GetTrackClusterCompatibility : Q -> Q -> Q.
Variable cfg : Settings.

Local Abbreviation GetDistanceToTrack := (GetDistanceToTrack fp GetMagnitude GetInitialDirection cfg).
Local Abbreviation ExamineCaloHit := (ExamineCaloHit fp GetMagnitude GetInitialDirection cfg).
Local Abbreviation FindTrackHits := (FindTrackHits fp GetMagnitude GetInitialDirection cfg).
Local Abbreviation ScanLayers := (ScanLayers fp GetMagnitude GetInitialDirection cfg).
Local Abbreviation ScanCluster :=
  (ScanCluster fp GetMagnitude GetInitialDirection TRACK_PROJECTION_LAYER cfg).
Local Abbreviation ShouldFragmentCluster :=
  (ShouldFragmentCluster fp GetMagnitude GetInitialDirection TRACK_PROJECTION_LAYER cfg).
Local Abbreviation AssignCaloHitToFragment :=
  (AssignCaloHitToFragment fp GetMagnitude GetInitialDirection cfg).
Local Abbreviation FragmentLayer := (FragmentLayer fp GetMagnitude GetInitialDirection cfg).
Local Abbreviation FragmentLayers := (FragmentLayers fp GetMagnitude GetInitialDirection cfg).
Local Abbreviation MakeClusterFragments :=
  (MakeClusterFragments fp GetMagnitude GetInitialDirection cfg).
Local Abbreviation FragmentCluster :=
  (FragmentCluster fp GetMagnitude GetInitialDirection TRACK_PROJECTION_LAYER
     GetCorrectedHadronicEnergy IsPhotonFast GetTrackClusterCompatibility cfg).
Local Abbreviation Run :=
  (Run fp GetMagnitude GetInitialDirection TRACK_PROJECTION_LAYER
     GetCorrectedHadronicEnergy IsPhotonFast GetTrackClusterCompatibility cfg).

(** ** Hits outside the shower range *)

Lemma AssignCaloHitToFragment_outside (ss se : PseudoLayer) (c : Cluster) (t : Track)
    (iLayer : PseudoLayer) (h : CaloHit) (mip : option Cluster) (status : StatusCode)
    (frags' : option Cluster * option Cluster) :
  iLayer < ss \/ iLayer > se ->
  AssignCaloHitToFragment ss se c t iLayer h (mip, None) = (status, frags') ->
  snd frags' = None.
Proof.
  intros Hout. unfold MipPhotonSeparation.AssignCaloHitToFragment.
  destruct (GetDistanceToTrack c t h 0%Q) as [s d].
  destruct (negb _ && negb _); [intros Heq; injection Heq as _ <-; reflexivity|].
  assert (Hc : Qltb d (m_genericDistanceCut cfg) || (iLayer <? ss) || (iLayer >? se) = true).
  { rewrite <- orb_assoc. apply orb_true_iff. right. apply orb_true_iff.
    destruct Hout as [Hlt|Hgt]; [left; apply Z.ltb_lt, Hlt | right].
    rewrite Z.gtb_ltb. apply Z.ltb_lt. lia. }
  rewrite Hc. destruct mip; intros Heq; injection Heq as _ <-; reflexivity.
Qed.

Lemma FragmentLayer_outside (ss se : PseudoLayer) (c : Cluster) (t : Track)
    (iLayer : PseudoLayer) (hits : CaloHitList) :
  iLayer < ss \/ iLayer > se ->
  forall (mip : option Cluster) (status : StatusCode) (frags' : option Cluster * option Cluster),
  FragmentLayer ss se c t iLayer hits (mip, None) = (status, frags') ->
  snd frags' = None.
Proof.
  intros Hout. induction hits as [|h rest IH]; intros mip status frags';
    cbn [MipPhotonSeparation.FragmentLayer].
  - intros Heq. injection Heq as _ <-. reflexivity.
  - destruct (AssignCaloHitToFragment ss se c t iLayer h (mip, None)) as [s1 [m1 p1]] eqn:Hstep.
    apply AssignCaloHitToFragment_outside in Hstep; [|exact Hout]. simpl in Hstep. subst p1.
    cbv beta iota zeta.
    destruct (negb (StatusCode_eqb STATUS_CODE_SUCCESS s1)).
    + intros Heq. injection Heq as _ <-. reflexivity.
    + apply IH.
Qed.

Lemma FragmentLayers_outside (ss se : PseudoLayer) (c : Cluster) (t : Track)
    (l : OrderedCaloHitList) :
  LayersOutside ss se l ->
  forall (mip : option Cluster) (status : StatusCode) (frags' : option Cluster * option Cluster),
  FragmentLayers ss se c t l (mip, None) = (status, frags') ->
  snd frags' = None.
Proof.
  unfold LayersOutside.
  induction l as [|[iLayer hits] rest IH]; intros Hout mip status frags';
    cbn [MipPhotonSeparation.FragmentLayers].
  - intros Heq. injection Heq as _ <-. reflexivity.
  - apply Forall_cons in Hout as [Hi Hrest]. simpl in Hi.
    destruct (FragmentLayer ss se c t iLayer hits (mip, None)) as [s1 [m1 p1]] eqn:Hlayer.
    apply FragmentLayer_outside in Hlayer; [|exact Hi]. simpl in Hlayer. subst p1.
    cbv beta iota zeta.
    destruct (negb (StatusCode_eqb STATUS_CODE_SUCCESS s1)).
    + intros Heq. injection Heq as _ <-. reflexivity.
    + apply IH, Hrest.
Qed.

(** X6.  If no hit of the original cluster, isolated ones included, is
    filed under a layer from showerStartLayer to showerEndLayer, then
    MakeClusterFragments creates no photon fragment, whatever status it
    returns. *)
Theorem no_photon_fragment_outside_shower_range (ss se : PseudoLayer) (c : Cluster)
    (status : StatusCode) (frags' : option Cluster * option Cluster) :
  LayersOutside ss se (MergedCaloHitList c) ->
  MakeClusterFragments ss se c (None, None) = Some (status, frags') ->
  snd frags' = None.
Proof.
  intros Hout. unfold MipPhotonSeparation.MakeClusterFragments.
  destruct (GetAssociatedTrackList c) as [|t ts]; [discriminate|].
  intros Heq. injection Heq as Heq.
  exact (FragmentLayers_outside ss se c t _ Hout None status frags' Heq).
Qed.

(** ** What the fragments are made of *)





(** The outcome of one loop body of Run, taken apart. *)
Lemma FragmentCluster_EndFragmentation (c : Cluster) (save delete : FragmentationList)
    (pm pp : option Cluster) :
  FragmentCluster c = EndFragmentation save delete pm pp ->
  exists t ss se,
    GetAssociatedTrackList c = [t] /\
    ShouldFragmentCluster c LAYER_MAX LAYER_MAX = Some (true, ss, se) /\
    FragmentLayers ss se c t (MergedCaloHitList c) (None, None)
    = (STATUS_CODE_SUCCESS, (pm, pp)) /\
    (save = FragmentClusters -> exists mip photon, pm = Some mip /\ pp = Some photon).
Proof.
  unfold MipPhotonSeparation.FragmentCluster.
  destruct (GetAssociatedTrackList c) as [|t [|t' ts]] eqn:Htracks; try discriminate.
  destruct (ShouldFragmentCluster c LAYER_MAX LAYER_MAX) as [[[[|] ss] se]|] eqn:Hshould;
    try discriminate.
  unfold MipPhotonSeparation.MakeClusterFragments. rewrite Htracks.
  fold (MergedCaloHitList c).
  destruct (FragmentLayers ss se c t (MergedCaloHitList c) (None, None))
    as [status [pm' pp']] eqn:Hfrag.
  destruct status; cbn [StatusCode_eqb negb]; try discriminate.
  intros Hout. exists t, ss, se.
  destruct pm' as [mip|], pp' as [photon|];
    try destruct (UseFragments _ _ _ _ _ _ _ _); injection Hout as <- <- <- <-;
    (split; [reflexivity|]); (split; [reflexivity|]); (split; [exact Hfrag|]);
    intros Hsave; try discriminate Hsave; eauto.
Qed.

(** ** The hits of the clusters *)




(** ** Clusters that are kept *)

Lemma Run_all_kept (clusters : list Cluster) :
  Forall (fun c => ClustersAfter c (FragmentCluster c) = [c]) clusters ->
  snd (Run clusters) = clusters.
Proof.
  induction clusters as [|c rest IH]; [reflexivity|].
  intros Hall. apply Forall_cons in Hall as [Hc Hrest]. specialize (IH Hrest).
  cbn [MipPhotonSeparation.Run].
  destruct (FragmentCluster c) as [|s|save delete pm pp]; [|reflexivity|];
    destruct (Run rest) as [status out]; cbn [snd] in *; rewrite Hc, IH; reflexivity.
Qed.

Lemma Run_not_fragmented (clusters : list Cluster) :
  Forall (fun c => FragmentCluster c = NotFragmented) clusters ->
  Run clusters = (STATUS_CODE_SUCCESS, clusters).
Proof.
  induction clusters as [|c rest IH]; [reflexivity|].
  intros Hall. apply Forall_cons in Hall as [Hc Hrest]. specialize (IH Hrest).
  cbn [MipPhotonSeparation.Run]. rewrite Hc, IH. reflexivity.
Qed.

Lemma FragmentCluster_kept_without_photon (c : Cluster) :
  (forall save delete pm pp,
     FragmentCluster c = EndFragmentation save delete pm pp -> pp = None) ->
  ClustersAfter c (FragmentCluster c) = [c].
Proof.
  intros Hnone.
  destruct (FragmentCluster c) as [|s|save delete pm pp] eqn:Hout; try reflexivity.
  destruct save; [reflexivity|].
  pose proof (Hnone _ _ _ _ eq_refl) as ->.
  apply FragmentCluster_EndFragmentation in Hout as (_ & _ & _ & _ & _ & _ & Hboth).
  destruct (Hboth eq_refl) as (mip & photon & _ & Hp). discriminate Hp.
Qed.

(** ** Layers without a mip hit or without a shower hit *)

Lemma ExamineCaloHit_not_mip (c : Cluster) (t : Track) (h : CaloHit) (f : LayerFlags) :
  IsPossibleMip h = false ->
  mipTrackHitFound (ExamineCaloHit c t h f) = mipTrackHitFound f.
Proof.
  intros Hmip. unfold MipPhotonSeparation.ExamineCaloHit.
  destruct (GetDistanceToTrack c t h FLOAT_MAX) as [s d].
  destruct (negb (StatusCode_eqb STATUS_CODE_SUCCESS s)); [reflexivity|].
  destruct (Qltb d (m_genericDistanceCut cfg)); [|reflexivity].
  rewrite Hmip. reflexivity.
Qed.

Lemma ExamineCaloHit_mip (c : Cluster) (t : Track) (h : CaloHit) (f : LayerFlags) :
  IsPossibleMip h = true ->
  showerTrackHitFound (ExamineCaloHit c t h f) = showerTrackHitFound f.
Proof.
  intros Hmip. unfold MipPhotonSeparation.ExamineCaloHit.
  destruct (GetDistanceToTrack c t h FLOAT_MAX) as [s d].
  destruct (negb (StatusCode_eqb STATUS_CODE_SUCCESS s)); [reflexivity|].
  destruct (Qltb d (m_genericDistanceCut cfg)); [|reflexivity].
  rewrite Hmip. reflexivity.
Qed.

Lemma ExamineCaloHit_no_separation (c : Cluster) (t : Track) (h : CaloHit) (f : LayerFlags) :
  (m_maxTrackSeparation cfg == 0)%Q -> ExamineCaloHit c t h f = f.
Proof.
  intros Hzero. unfold MipPhotonSeparation.ExamineCaloHit, MipPhotonSeparation.GetDistanceToTrack.
  assert (Heq : Qeqb 0 (m_maxTrackSeparation cfg) = true).
  { apply Qeqb_eq. symmetry. exact Hzero. }
  rewrite Heq. reflexivity.
Qed.

Lemma FindTrackHits_without (proj : LayerFlags -> bool) (P : CaloHit -> Prop)
    (c : Cluster) (t : Track) (iLayer : PseudoLayer) :
  proj (mkLayerFlags false false false) = false ->
  (forall h f, P h -> proj (ExamineCaloHit c t h f) = proj f) ->
  Forall P (ClusterOps.GetCaloHits c) ->
  proj (FindTrackHits c t iLayer) = false.
Proof.
  intros Hinit Hstep Hall. unfold MipPhotonSeparation.FindTrackHits.
  destruct (OrderedCaloHitList.find iLayer (GetOrderedCaloHitList c)) as [hits|] eqn:Hfind;
    [|exact Hinit].
  apply (find_Some_hits P) in Hfind; [|exact Hall].
  revert Hinit. generalize (mkLayerFlags false false false) as acc.
  induction Hfind as [|h hits Hh Hhits IH]; intros acc Hacc; simpl; [exact Hacc|].
  apply IH. rewrite Hstep by exact Hh. exact Hacc.
Qed.

Lemma ScanLayer_without_mip (iLayer : PseudoLayer) (f : LayerFlags) (s : ScanState) :
  mipTrackHitFound f = false ->
  mipRegion2EndLayer (ScanLayer cfg iLayer f s) = mipRegion2EndLayer s.
Proof.
  destruct s as [m1s m1e m2s m2e ss se cont missed mc sc r1 r2 rs].
  destruct f as [th mh sh].
  cbn [mipTrackHitFound]. intros ->.
  destruct th, sh, r1, r2, rs; scan_layer_cases; reflexivity.
Qed.

Lemma ScanLayer_without_shower (iLayer : PseudoLayer) (f : LayerFlags) (s : ScanState) :
  showerTrackHitFound f = false ->
  showerEndLayer (ScanLayer cfg iLayer f s) = showerEndLayer s.
Proof.
  destruct s as [m1s m1e m2s m2e ss se cont missed mc sc r1 r2 rs].
  destruct f as [th mh sh].
  cbn [showerTrackHitFound]. intros ->.
  destruct th, mh, r1, r2, rs; scan_layer_cases; reflexivity.
Qed.

Lemma ScanCluster_without_mip (c : Cluster) (t : Track) :
  (forall i, mipTrackHitFound (FindTrackHits c t i) = false) ->
  mipRegion2EndLayer (ScanCluster c t LAYER_MAX LAYER_MAX) = LAYER_MAX.
Proof.
  intros Hnone. unfold MipPhotonSeparation.ScanCluster.
  apply (ScanInvariants.ScanLayers_invariant_at _ _ _ _ _ _
           (fun x => mipRegion2EndLayer x = LAYER_MAX)); [|reflexivity].
  intros i s' Hs'. rewrite ScanLayer_without_mip; [exact Hs' | apply Hnone].
Qed.

Lemma ScanCluster_without_shower (c : Cluster) (t : Track) :
  (forall i, showerTrackHitFound (FindTrackHits c t i) = false) ->
  showerEndLayer (ScanCluster c t LAYER_MAX LAYER_MAX) = LAYER_MAX.
Proof.
  intros Hnone. unfold MipPhotonSeparation.ScanCluster.
  apply (ScanInvariants.ScanLayers_invariant_at _ _ _ _ _ _
           (fun x => showerEndLayer x = LAYER_MAX)); [|reflexivity].
  intros i s' Hs'. rewrite ScanLayer_without_shower; [exact Hs' | apply Hnone].
Qed.

Lemma FragmentationDecision_without_end_layer (s : ScanState) :
  mipRegion2EndLayer s = LAYER_MAX \/ showerEndLayer s = LAYER_MAX ->
  FragmentationDecision cfg s = false.
Proof.
  unfold FragmentationDecision. intros [-> | ->]; rewrite Z.eqb_refl; [reflexivity|].
  cbn [negb andb]. rewrite !andb_false_r.
  destruct (mipRegion2EndLayer s =? LAYER_MAX); reflexivity.
Qed.

Lemma FragmentCluster_not_decided (c : Cluster) :
  (forall t, FragmentationDecision cfg (ScanCluster c t LAYER_MAX LAYER_MAX) = false) ->
  FragmentCluster c = NotFragmented.
Proof.
  intros Hno. unfold MipPhotonSeparation.FragmentCluster.
  destruct (GetAssociatedTrackList c) as [|t [|t' ts]] eqn:Htracks; try reflexivity.
  unfold MipPhotonSeparation.ShouldFragmentCluster. rewrite Htracks, Hno. reflexivity.
Qed.

(** X9.  Run fragments a cluster only if its ordered hit list holds a hit
    that is a possible mip and one that is not: a cluster of possible mip
    hits only, or of none, is passed over. *)
Theorem fragmentation_needs_mip_and_shower_hits (c : Cluster) :
  Forall (fun h => IsPossibleMip h = true) (ClusterOps.GetCaloHits c) \/
  Forall (fun h => IsPossibleMip h = false) (ClusterOps.GetCaloHits c) ->
  FragmentCluster c = NotFragmented.
Proof.
  intros Hkind. apply FragmentCluster_not_decided. intros t.
  apply FragmentationDecision_without_end_layer.
  destruct Hkind as [Hmips | Hnone]; [right | left].
  - apply ScanCluster_without_shower. intros i.
    apply (FindTrackHits_without showerTrackHitFound (fun h => IsPossibleMip h = true));
      [reflexivity | | exact Hmips].
    intros h f. apply ExamineCaloHit_mip.
  - apply ScanCluster_without_mip. intros i.
    apply (FindTrackHits_without mipTrackHitFound (fun h => IsPossibleMip h = false));
      [reflexivity | | exact Hnone].
    intros h f. apply ExamineCaloHit_not_mip.
Qed.

Lemma GetDistanceToTrack_no_separation (c : Cluster) (t : Track) (h : CaloHit) (d : Q) :
  (m_maxTrackSeparation cfg == 0)%Q -> GetDistanceToTrack c t h d = (STATUS_CODE_FAILURE, d).
Proof.
  intros Hzero. unfold MipPhotonSeparation.GetDistanceToTrack.
  assert (Heq : Qeqb 0 (m_maxTrackSeparation cfg) = true).
  { apply Qeqb_eq. symmetry. exact Hzero. }
  rewrite Heq. reflexivity.
Qed.

Lemma FindTrackHits_no_separation (c : Cluster) (t : Track) (iLayer : PseudoLayer) :
  (m_maxTrackSeparation cfg == 0)%Q ->
  FindTrackHits c t iLayer = mkLayerFlags false false false.
Proof.
  intros Hzero. unfold MipPhotonSeparation.FindTrackHits.
  destruct (OrderedCaloHitList.find iLayer (GetOrderedCaloHitList c)) as [hits|];
    [|reflexivity].
  generalize (mkLayerFlags false false false) as f.
  induction hits as [|h rest IH]; intros f; cbn [fold_left]; [reflexivity|].
  rewrite ExamineCaloHit_no_separation by exact Hzero. apply IH.
Qed.

Lemma Run_no_separation (clusters : list Cluster) :
  (m_maxTrackSeparation cfg == 0)%Q -> Run clusters = (STATUS_CODE_SUCCESS, clusters).
Proof.
  intros Hzero. apply Run_not_fragmented. rewrite Forall_forall. intros c _.
  apply FragmentCluster_not_decided. intros t.
  apply FragmentationDecision_without_end_layer. left.
  apply ScanCluster_without_mip. intros i.
  rewrite FindTrackHits_no_separation by exact Hzero. reflexivity.
Qed.

Lemma FragmentCluster_unset_start (c : Cluster) (t : Track) (save delete : FragmentationList)
    (pm pp : option Cluster) :
  RealLayers c -> GetAssociatedTrackList c = [t] ->
  showerStartLayer (ScanCluster c t LAYER_MAX LAYER_MAX) = LAYER_MAX ->
  FragmentCluster c = EndFragmentation save delete pm pp ->
  save = OriginalClusters /\ pp = None.
Proof.
  intros [Hordered Hisolated] Htracks Hstart Hout.
  apply FragmentCluster_EndFragmentation in Hout
    as (t' & ss & se & Htracks' & Hshould & Hfrag & Hboth).
  rewrite Htracks in Htracks'. injection Htracks' as <-.
  unfold MipPhotonSeparation.ShouldFragmentCluster in Hshould. rewrite Htracks in Hshould.
  injection Hshould as _ Hss _. rewrite Hstart in Hss. subst ss.
  assert (Hnone : pp = None).
  { apply (FragmentLayers_outside LAYER_MAX se c t (MergedCaloHitList c)) in Hfrag;
      [exact Hfrag|].
    unfold LayersOutside, MergedCaloHitList.
    apply (Add_layers (fun k => k < LAYER_MAX \/ k > se)).
    - eapply Forall_impl; [exact Hisolated|]. intros h Hh. left. exact Hh.
    - eapply Forall_impl; [exact Hordered|]. intros kv Hkv. left. exact Hkv. }
  split; [|exact Hnone].
  destruct save; [reflexivity|].
  destruct (Hboth eq_refl) as (mip & photon & _ & Hp). congruence.
Qed.

(** X11.  With a shower region threshold (m_nLayersForShowerRegion) of one
    layer the shower start layer stays LAYER_MAX, every hit of a real layer
    goes to the mip fragment, and a successful Run has replaced no cluster by
    fragments: the clusters it leaves are the clusters it was given. *)
Theorem single_shower_layer_disables_fragmentation (clusters : list Cluster) :
  m_nLayersForShowerRegion cfg = 1 ->
  Forall RealLayers clusters ->
  fst (Run clusters) = STATUS_CODE_SUCCESS ->
  snd (Run clusters) = clusters.
Proof.
  intros Hthr Hreal _. apply Run_all_kept.
  eapply Forall_impl; [exact Hreal|]. intros c Hc.
  apply FragmentCluster_kept_without_photon. intros save delete pm pp Hout.
  destruct (FragmentCluster_EndFragmentation _ _ _ _ _ Hout) as (t & _ & _ & Htracks & _).
  refine (proj2 (FragmentCluster_unset_start c t save delete pm pp Hc Htracks _ Hout)).
  unfold MipPhotonSeparation.ScanCluster.
  apply (ScanInvariants.ScanLayers_invariant _ _ _ _ _ _ (fun x =>
    (mipRegion1 x = true -> showerCount x = 0) /\ showerStartLayer x = LAYER_MAX)).
  - intros i f s0. apply ScanInvariants.ScanLayer_single_shower_layer, Hthr.
  - split; reflexivity.
Qed.

(** X21.  The second rule of the decision never yields fragments: when
    the scan of a cluster of real layers ends without a shower start layer,
    every hit of the cluster goes to the mip fragment, no photon fragment is
    made, and if Run ends the fragmentation it saves the original cluster. *)
Theorem unset_shower_start_keeps_cluster (c : Cluster) (t : Track)
    (save delete : FragmentationList) (pm pp : option Cluster) :
  RealLayers c -> GetAssociatedTrackList c = [t] ->
  showerStartLayer (ScanCluster c t LAYER_MAX LAYER_MAX) = LAYER_MAX ->
  FragmentCluster c = EndFragmentation save delete pm pp ->
  save = OriginalClusters /\ pp = None.
Proof. apply FragmentCluster_unset_start. Qed.

End Fragmentation.

(** X10.  With a maximum track separation of zero GetDistanceToTrack fails
    for every hit and leaves the distance as it was, the scan of
    ShouldFragmentCluster finds no hit on a track in any layer and decides
    against fragmenting, and Run passes over every cluster: it returns the
    failure of the daughter algorithm or of GetCurrentClusterList if there
    is one, and otherwise SUCCESS with the clusters of the current list as
    they were handed out, in the order of the sort. *)
Theorem zero_track_separation_disables_fragmentation
    (fp : FloatArithmetic) (GetMagnitude : CartesianVector -> Q)
    (GetInitialDirection : Cluster -> CartesianVector)
    (TRACK_PROJECTION_LAYER : PseudoLayer)
    (GetCorrectedHadronicEnergy : Cluster -> Q) (IsPhotonFast : Cluster -> bool)
    (GetTrackClusterCompatibility : Q -> Q -> Q)
    (RunDaughterAlgorithm : string -> list Cluster -> StatusCode * list Cluster)
    (GetCurrentClusterList : list Cluster -> StatusCode * list Cluster)
    (std_sort : (Cluster -> Cluster -> bool) -> list Cluster -> list Cluster)
    (SortByInnerLayer : Cluster -> Cluster -> bool)
    (m_trackClusterAssociationAlgName : string) (cfg : Settings) :
  (m_maxTrackSeparation cfg == 0)%Q ->
  (forall c t h d,
     GetDistanceToTrack fp GetMagnitude GetInitialDirection cfg c t h d
     = (STATUS_CODE_FAILURE, d)) /\
  (forall c t iLayer,
     FindTrackHits fp GetMagnitude GetInitialDirection cfg c t iLayer
     = mkLayerFlags false false false) /\
  (forall c t tracks showerStart showerEnd,
     GetAssociatedTrackList c = t :: tracks ->
     exists ss se,
       ShouldFragmentCluster fp GetMagnitude GetInitialDirection TRACK_PROJECTION_LAYER cfg
         c showerStart showerEnd = Some (false, ss, se)) /\
  (forall clusters,
     let daughter := RunDaughterAlgorithm m_trackClusterAssociationAlgName clusters in
     let current := GetCurrentClusterList (snd daughter) in
     MipPhotonSeparationAlgorithm.Run fp GetMagnitude GetInitialDirection
       TRACK_PROJECTION_LAYER GetCorrectedHadronicEnergy IsPhotonFast
       GetTrackClusterCompatibility RunDaughterAlgorithm GetCurrentClusterList std_sort
       SortByInnerLayer m_trackClusterAssociationAlgName cfg clusters
     = if negb (StatusCode_eqb STATUS_CODE_SUCCESS (fst daughter))
       then (fst daughter, snd daughter)
       else if negb (StatusCode_eqb STATUS_CODE_SUCCESS (fst current))
            then (fst current, snd daughter)
            else (STATUS_CODE_SUCCESS, std_sort SortByInnerLayer (snd current))).
Proof.
  intros Hzero.
  split; [intros c t h d; apply GetDistanceToTrack_no_separation, Hzero|].
  split; [intros c t iLayer; apply FindTrackHits_no_separation, Hzero|].
  split.
  - intros c t tracks showerStart showerEnd Htracks.
    unfold ShouldFragmentCluster. rewrite Htracks. cbv zeta.
    rewrite FragmentationDecision_without_end_layer; [eauto|].
    left. unfold ScanCluster.
    apply (ScanInvariants.ScanLayers_invariant_at _ _ _ _ _ _
             (fun x => mipRegion2EndLayer x = LAYER_MAX)); [|reflexivity].
    intros i s' Hs'. rewrite ScanLayer_without_mip; [exact Hs'|].
    rewrite FindTrackHits_no_separation by exact Hzero. reflexivity.
  - intros clusters daughter current. unfold MipPhotonSeparationAlgorithm.Run.
    subst daughter current.
    destruct (RunDaughterAlgorithm m_trackClusterAssociationAlgName clusters)
      as [status associated].
    cbn [fst snd].
    destruct (negb (StatusCode_eqb STATUS_CODE_SUCCESS status)); [reflexivity|].
    destruct (GetCurrentClusterList associated) as [status1 pClusterList].
    cbn [fst snd].
    destruct (negb (StatusCode_eqb STATUS_CODE_SUCCESS status1)); [reflexivity|].
    apply Run_no_separation, Hzero.
Qed.

Lemma no_photon_fragment_outside_shower_range_witness :
  snd showerThenMipLateFragments = None.
Proof.
  apply (no_photon_fragment_outside_shower_range binary32 AxisMagnitude exampleDirection
           shortSpanSettings 7 9 showerThenMip STATUS_CODE_SUCCESS showerThenMipLateFragments).
  - vm_compute. repeat constructor.
  - vm_compute. reflexivity.
Defined.

Lemma fragmentation_needs_mip_and_shower_hits_witness :
  FragmentCluster binary32 AxisMagnitude exampleDirection 0 GetHadronicEnergy examplePhotonId
    exampleCompatibility shortSpanSettings mipOnlyCluster = NotFragmented.
Proof.
  apply (fragmentation_needs_mip_and_shower_hits binary32 AxisMagnitude exampleDirection 0
           GetHadronicEnergy examplePhotonId exampleCompatibility shortSpanSettings
           mipOnlyCluster).
  left. vm_compute. repeat constructor.
Defined.

(** Run with no track separation: the clusters come back in the order of
    their first layers; without a current cluster list Run returns the
    failure. *)
Lemma zero_track_separation_disables_fragmentation_witness :
  (m_maxTrackSeparation noSeparationSettings == 0)%Q /\
  MipPhotonSeparationAlgorithm.exampleRun MipPhotonSeparationAlgorithm.handOut
    noSeparationSettings [mipOnlyCluster; showerThenMip]
  = (STATUS_CODE_SUCCESS,
     MipPhotonSeparationAlgorithm.insertionSort MipPhotonSeparationAlgorithm.byFirstLayer
       [mipOnlyCluster; showerThenMip]) /\
  MipPhotonSeparationAlgorithm.exampleRun MipPhotonSeparationAlgorithm.noCurrentList
    noSeparationSettings [mipOnlyCluster; showerThenMip]
  = (STATUS_CODE_NOT_FOUND, [mipOnlyCluster; showerThenMip]).
Proof.
  split; [reflexivity|]. split.
  - exact (proj2 (proj2 (proj2
      (zero_track_separation_disables_fragmentation binary32 AxisMagnitude exampleDirection 0
         GetHadronicEnergy examplePhotonId exampleCompatibility
         MipPhotonSeparationAlgorithm.keepAssociations MipPhotonSeparationAlgorithm.handOut
         MipPhotonSeparationAlgorithm.insertionSort MipPhotonSeparationAlgorithm.byFirstLayer
         "TrackClusterAssociation"%string noSeparationSettings (reflexivity _))))
      [mipOnlyCluster; showerThenMip]).
  - exact (proj2 (proj2 (proj2
      (zero_track_separation_disables_fragmentation binary32 AxisMagnitude exampleDirection 0
         GetHadronicEnergy examplePhotonId exampleCompatibility
         MipPhotonSeparationAlgorithm.keepAssociations MipPhotonSeparationAlgorithm.noCurrentList
         MipPhotonSeparationAlgorithm.insertionSort MipPhotonSeparationAlgorithm.byFirstLayer
         "TrackClusterAssociation"%string noSeparationSettings (reflexivity _))))
      [mipOnlyCluster; showerThenMip]).
Defined.

Lemma single_shower_layer_disables_fragmentation_witness :
  snd (exampleRun singleShowerLayerSettings [showerThenMip; shortShower])
  = [showerThenMip; shortShower].
Proof.
  apply (single_shower_layer_disables_fragmentation binary32 AxisMagnitude exampleDirection 0
           GetHadronicEnergy examplePhotonId exampleCompatibility singleShowerLayerSettings).
  - reflexivity.
  - repeat constructor.
  - vm_compute. reflexivity.
Defined.


(** Under [singleShowerLayerSettings] the scan of [showerThenMip] decides by
    the second rule, and the fragmentation ends with the original cluster. *)
Lemma unset_shower_start_keeps_cluster_witness :
  FragmentCluster binary32 AxisMagnitude exampleDirection 0 GetHadronicEnergy examplePhotonId
    exampleCompatibility singleShowerLayerSettings showerThenMip
  = EndFragmentation OriginalClusters FragmentClusters (fst singleLayerFragments) None /\
  OriginalClusters = OriginalClusters /\ @None Cluster = None.
Proof.
  split; [vm_compute; reflexivity|].
  apply (unset_shower_start_keeps_cluster binary32 AxisMagnitude exampleDirection 0 GetHadronicEnergy
           examplePhotonId exampleCompatibility singleShowerLayerSettings showerThenMip
           exampleTrack OriginalClusters FragmentClusters (fst singleLayerFragments) None).
  - repeat constructor.
  - reflexivity.
  - vm_compute. reflexivity.
  - vm_compute. reflexivity.
Defined.

(** With a threshold of two layers the first of these clusters is split. *)
Example two_shower_layers_fragment :
  map (fun c => map hitId (ClusterOps.GetCaloHits c))
      (snd (exampleRun shortSpanSettings [showerThenMip]))
  = [[0; 1; 3; 4; 5; 6]; [2]]%nat.
Proof. vm_compute. reflexivity. Qed.

End FragmentationFacts.

(** * Further properties of the forced clustering *)

Module ForcedClusteringFacts.
Import ForcedClustering ForcedClusteringExamples ClusteringQuantities.
Import SortFacts WalkFacts SeedingFacts ExclusivityFacts.

(** ** RemoveEmptyClusters *)

Lemma RemovePointers_none (i : nat) (l : list Cluster) : RemovePointers [] i l = l.
Proof.
  revert i. induction l as [|c rest IH]; intros i; cbn [RemovePointers]; [reflexivity|].
  rewrite bool_decide_eq_false_2 by (intros Hin; inversion Hin).
  rewrite IH. reflexivity.
Qed.

Lemma RemovePointers_ClusterDeletionList (l : list Cluster) :
  forall (i : nat) (ptrs : list nat),
  (forall k, k ∈ ptrs -> (k < i)%nat) ->
  RemovePointers (ptrs ++ ClusterDeletionList i l) i l = List.filter NonEmpty l.
Proof.
  induction l as [|c rest IH]; intros i ptrs Hbelow; [reflexivity|].
  cbn [ClusterDeletionList List.filter RemovePointers]. unfold NonEmpty at 1.
  destruct (0 =? ClusterOps.GetNCaloHits c); cbn [negb].
  - rewrite bool_decide_eq_true_2 by (apply elem_of_app; right; left).
    change (i :: ClusterDeletionList (S i) rest) with ([i] ++ ClusterDeletionList (S i) rest).
    rewrite app_assoc. apply IH.
    intros k Hk. apply elem_of_app in Hk as [Hk|Hk]; [specialize (Hbelow k Hk); lia|].
    apply list_elem_of_singleton in Hk. lia.
  - rewrite bool_decide_eq_false_2.
    + f_equal. apply IH. intros k Hk. specialize (Hbelow k Hk). lia.
    + intros Hin. apply elem_of_app in Hin as [Hin|Hin]; [specialize (Hbelow i Hin); lia|].
      apply ClusterDeletionList_spec in Hin as (j & c' & Heq & _). lia.
Qed.

Lemma RemoveEmptyClusters_clusters (st : Pandora) :
  currentClusterList (snd (RemoveEmptyClusters st))
  = List.filter NonEmpty (currentClusterList st) /\
  unavailableCaloHits (snd (RemoveEmptyClusters st)) = unavailableCaloHits st.
Proof.
  unfold RemoveEmptyClusters.
  pose proof (RemovePointers_ClusterDeletionList (currentClusterList st) 0 []) as Hfilter.
  cbn [app] in Hfilter.
  destruct (ClusterDeletionList 0 (currentClusterList st)) as [|p ptrs].
  - rewrite RemovePointers_none in Hfilter. cbn [fst snd].
    split; [|reflexivity]. apply Hfilter. intros k Hk. inversion Hk.
  - cbn [DeleteClusters fst snd currentClusterList unavailableCaloHits].
    split; [|reflexivity]. apply Hfilter. intros k Hk. inversion Hk.
Qed.

Lemma RemoveEmptyClusters_status (st : Pandora) :
  fst (RemoveEmptyClusters st) = STATUS_CODE_SUCCESS.
Proof.
  unfold RemoveEmptyClusters.
  destruct (ClusterDeletionList 0 (currentClusterList st)); reflexivity.
Qed.

(** X12.  RemoveEmptyClusters returns SUCCESS and leaves in the current
    cluster list exactly the clusters that hold a hit, in their order,
    whichever algorithm created them; tracks, hits and availability are
    not touched. *)
Theorem RemoveEmptyClusters_keeps_nonempty (st : Pandora) :
  fst (RemoveEmptyClusters st) = STATUS_CODE_SUCCESS /\
  currentClusterList (snd (RemoveEmptyClusters st))
  = List.filter NonEmpty (currentClusterList st) /\
  unavailableCaloHits (snd (RemoveEmptyClusters st)) = unavailableCaloHits st /\
  currentTrackList (snd (RemoveEmptyClusters st)) = currentTrackList st /\
  currentOrderedCaloHitList (snd (RemoveEmptyClusters st)) = currentOrderedCaloHitList st.
Proof.
  split; [apply RemoveEmptyClusters_status|].
  destruct (RemoveEmptyClusters_clusters st) as [Hclusters Hunavailable].
  split; [exact Hclusters|]. split; [exact Hunavailable|].
  unfold RemoveEmptyClusters.
  destruct (ClusterDeletionList 0 (currentClusterList st)); split; reflexivity.
Qed.

Lemma ClusteredHitIds_filter_NonEmpty (l : list Cluster) :
  ClusteredHitIds (List.filter NonEmpty l) = ClusteredHitIds l.
Proof.
  unfold ClusteredHitIds. induction l as [|c rest IH]; [reflexivity|].
  cbn [List.filter]. unfold NonEmpty at 1, ClusterOps.GetNCaloHits.
  destruct (ClusterOps.GetCaloHits c) as [|h hs] eqn:Hhits; cbn [length].
  - cbn [Z.of_nat Z.eqb negb map concat]. rewrite Hhits. exact IH.
  - change (Z.of_nat (S (length hs))) with (Z.pos (Pos.of_succ_nat (length hs))).
    cbn [Z.eqb negb map concat]. rewrite IH. reflexivity.
Qed.

Lemma failed_false (s : StatusCode) : failed s = false -> s = STATUS_CODE_SUCCESS.
Proof. destruct s; cbv; intros Hs; first [reflexivity | discriminate Hs]. Qed.

Section Phases.

Variable Helix_GetDistanceToPoint : Helix -> CartesianVector -> StatusCode * CartesianVector.
Variable GetMagnitude : CartesianVector -> Q.
Variable std_sort : (TrackDistanceInfo -> TrackDistanceInfo -> bool) ->
                    list TrackDistanceInfo -> list TrackDistanceInfo.
Variable RunDaughterAlgorithm : string -> Pandora -> StatusCode * Pandora.
Variable cfg : Settings.

Local Abbreviation PopulateTrackDistanceInfo :=
  (PopulateTrackDistanceInfo Helix_GetDistanceToPoint GetMagnitude cfg).
Local Abbreviation MakeTrackSeededClusters :=
  (MakeTrackSeededClusters Helix_GetDistanceToPoint GetMagnitude cfg).
Local Abbreviation DistanceRecord := (DistanceRecord Helix_GetDistanceToPoint GetMagnitude).
Local Abbreviation ExpectedRecords := (ExpectedRecords Helix_GetDistanceToPoint GetMagnitude).
Local Abbreviation Run :=
  (Run Helix_GetDistanceToPoint GetMagnitude std_sort RunDaughterAlgorithm cfg).

(** ** The records of the seeding *)

Lemma PopulateTrackDistanceInfo_success (st : Pandora) (pCluster : nat) (pHelix : Helix)
    (trackEnergy : Q) (hits : list CaloHit) :
  forall (vec0 vec : list TrackDistanceInfo),
  PopulateTrackDistanceInfo st pCluster pHelix trackEnergy hits vec0
  = (STATUS_CODE_SUCCESS, vec) ->
  vec = vec0 ++ map (DistanceRecord pCluster pHelix trackEnergy)
                    (List.filter (IsClusterable cfg st) hits).
Proof.
  induction hits as [|h rest IH]; intros vec0 vec;
    cbn [ForcedClustering.PopulateTrackDistanceInfo List.filter].
  - intros Heq. injection Heq as <-. cbn [map]. rewrite app_nil_r. reflexivity.
  - destruct (IsClusterable cfg st h); [|apply IH].
    destruct (Helix_GetDistanceToPoint pHelix (GetPositionVector h)) as [s sep] eqn:Hhelix.
    destruct (failed s) eqn:Hfailed.
    + intros Heq. injection Heq as -> _. discriminate Hfailed.
    + intros Hrun. apply IH in Hrun. rewrite Hrun, <- app_assoc. cbn [map app].
      unfold ClusteringQuantities.DistanceRecord at 2. rewrite Hhelix. reflexivity.
Qed.

Lemma MakeTrackSeededClusters_success (tracks : list Track) (input : list CaloHit) :
  forall (st : Pandora) (vec0 : list TrackDistanceInfo) (st1 : Pandora)
         (vec : list TrackDistanceInfo),
  MakeTrackSeededClusters tracks input st vec0 = (STATUS_CODE_SUCCESS, st1, vec) ->
  vec = vec0 ++ ExpectedRecords (length (currentClusterList st)) tracks
                                (List.filter (IsClusterable cfg st) input).
Proof.
  induction tracks as [|t rest IH]; intros st vec0 st1 vec;
    cbn [ForcedClustering.MakeTrackSeededClusters ClusteringQuantities.ExpectedRecords].
  - intros Heq. injection Heq as _ <-. rewrite app_nil_r. reflexivity.
  - unfold Cluster_Create_FromTrack. cbn [failed StatusCode_eqb negb].
    destruct (PopulateTrackDistanceInfo _ _ _ _ input vec0) as [s2 vec2] eqn:Hpop.
    destruct (failed s2) eqn:Hfailed.
    + intros Heq. injection Heq as -> _ _. discriminate Hfailed.
    + apply failed_false in Hfailed. subst s2.
      intros Hrun. apply IH in Hrun. apply PopulateTrackDistanceInfo_success in Hpop.
      rewrite Hrun, Hpop, <- app_assoc. cbn [currentClusterList].
      rewrite length_app, Nat.add_1_r. reflexivity.
Qed.

Lemma ExpectedRecords_length (first : nat) (tracks : list Track) (candidates : list CaloHit) :
  length (ExpectedRecords first tracks candidates) = (length tracks * length candidates)%nat.
Proof.
  revert first. induction tracks as [|t rest IH]; intros first; [reflexivity|].
  cbn [ClusteringQuantities.ExpectedRecords length Nat.mul].
  rewrite length_app, length_map, IH. reflexivity.
Qed.

(** X13.  When the seeding of Run succeeds it has appended one empty
    cluster per track, in the order of the track list, and recorded one
    Distance Record for every pair of a track and a candidate hit (an
    available hit that passes the isolation policy): the tracks in turn,
    and for each track the candidate hits in the order of the input list.
    No availability flag is touched. *)
Theorem seeding_records (tracks : list Track) (input : list CaloHit) (st st1 : Pandora)
    (vec : list TrackDistanceInfo) :
  MakeTrackSeededClusters tracks input st [] = (STATUS_CODE_SUCCESS, st1, vec) ->
  let candidates := List.filter (IsClusterable cfg st) input in
  vec = ExpectedRecords (length (currentClusterList st)) tracks candidates /\
  length vec = (length tracks * length candidates)%nat /\
  currentClusterList st1
  = currentClusterList st ++ map ClusterOps.CreateFromTrack tracks /\
  unavailableCaloHits st1 = unavailableCaloHits st.
Proof.
  intros Hseed candidates.
  pose proof (MakeTrackSeededClusters_success _ _ _ _ _ _ Hseed) as Hvec. cbn [app] in Hvec.
  destruct (MakeTrackSeededClusters_state _ _ _ _ _ _ _ _ _ _ Hseed)
    as (_ & _ & Hunavailable & n & _ & Hn & Hclusters).
  split; [exact Hvec|]. split; [rewrite Hvec; apply ExpectedRecords_length|].
  split; [|exact Hunavailable].
  rewrite Hclusters, (Hn eq_refl), firstn_all. reflexivity.
Qed.

(** ** A failure of the helix fit *)

Lemma PopulateTrackDistanceInfo_failure (st : Pandora) (pCluster : nat) (pHelix : Helix)
    (trackEnergy : Q) (hits : list CaloHit) :
  forall (vec0 : list TrackDistanceInfo) (s : StatusCode) (vec : list TrackDistanceInfo),
  PopulateTrackDistanceInfo st pCluster pHelix trackEnergy hits vec0 = (s, vec) ->
  failed s = true ->
  exists h, In h hits /\ IsClusterable cfg st h = true /\
            fst (Helix_GetDistanceToPoint pHelix (GetPositionVector h)) = s.
Proof.
  induction hits as [|h rest IH]; intros vec0 s vec;
    cbn [ForcedClustering.PopulateTrackDistanceInfo].
  - intros Heq Hfailed. injection Heq as <- _. discriminate Hfailed.
  - destruct (IsClusterable cfg st h) eqn:Hclusterable.
    + destruct (Helix_GetDistanceToPoint pHelix (GetPositionVector h)) as [s1 sep] eqn:Hhelix.
      destruct (failed s1) eqn:Hf1.
      * intros Heq _. injection Heq as <- _. exists h.
        split; [left; reflexivity|]. split; [exact Hclusterable|]. rewrite Hhelix. reflexivity.
      * intros Hrun Hfailed. destruct (IH _ _ _ Hrun Hfailed) as (h' & Hin & Hrest).
        exists h'. split; [right; exact Hin | exact Hrest].
    + intros Hrun Hfailed. destruct (IH _ _ _ Hrun Hfailed) as (h' & Hin & Hrest).
      exists h'. split; [right; exact Hin | exact Hrest].
Qed.

Lemma MakeTrackSeededClusters_failure (tracks : list Track) (input : list CaloHit) :
  forall (st : Pandora) (vec0 : list TrackDistanceInfo) (s : StatusCode) (st1 : Pandora)
         (vec : list TrackDistanceInfo),
  MakeTrackSeededClusters tracks input st vec0 = (s, st1, vec) ->
  failed s = true ->
  (exists t h, In t tracks /\ In h input /\ IsClusterable cfg st h = true /\
     fst (Helix_GetDistanceToPoint (GetHelixFitAtCalorimeter t) (GetPositionVector h)) = s) /\
  (length (currentClusterList st) < length (currentClusterList st1))%nat.
Proof.
  induction tracks as [|t rest IH]; intros st vec0 s st1 vec;
    cbn [ForcedClustering.MakeTrackSeededClusters].
  - intros Heq Hfailed. injection Heq as <- _ _. discriminate Hfailed.
  - unfold Cluster_Create_FromTrack. cbn [failed StatusCode_eqb negb].
    destruct (PopulateTrackDistanceInfo _ _ _ _ input vec0) as [s2 vec2] eqn:Hpop.
    destruct (failed s2) eqn:Hf2.
    + intros Heq _. injection Heq as <- <- _.
      destruct (PopulateTrackDistanceInfo_failure _ _ _ _ _ _ _ _ Hpop Hf2)
        as (h & Hin & Hclusterable & Hhelix).
      split.
      * exists t, h. split; [left; reflexivity|]. split; [exact Hin|].
        split; [exact Hclusterable | exact Hhelix].
      * cbn [currentClusterList]. rewrite length_app. simpl. lia.
    + intros Hrun Hfailed.
      destruct (IH _ _ _ _ _ Hrun Hfailed) as ((t' & h & Ht & Hh & Hclusterable & Hhelix) & Hlen).
      split.
      * exists t', h. split; [right; exact Ht|]. split; [exact Hh|].
        split; [exact Hclusterable | exact Hhelix].
      * cbn [currentClusterList] in Hlen. rewrite length_app in Hlen. simpl in Hlen. lia.
Qed.

Lemma DealWithRemainingHits_status (input : list CaloHit) (st : Pandora) :
  m_shouldRunStandardClusteringAlgorithm cfg = false ->
  fst (DealWithRemainingHits RunDaughterAlgorithm cfg input st) = STATUS_CODE_SUCCESS.
Proof.
  intros Hstd. unfold DealWithRemainingHits. rewrite Hstd.
  destruct (RemnantCaloHitList cfg st input); reflexivity.
Qed.

Lemma Run_after_seeding (st : Pandora) :
  m_shouldRunStandardClusteringAlgorithm cfg = false ->
  m_shouldAssociateIsolatedHits cfg = false ->
  currentTrackList st <> [] -> currentOrderedCaloHitList st <> [] ->
  let input := OrderedCaloHitList.GetCaloHitList (currentOrderedCaloHitList st) in
  let seeding := MakeTrackSeededClusters (currentTrackList st) input st [] in
  if failed (fst (fst seeding)) then Run st = (fst (fst seeding), snd (fst seeding))
  else
    let st2 := snd (AssignCaloHits (std_sort SortByDistanceToTrack (snd seeding))
                                   (snd (fst seeding))) in
    let st3 := snd (DealWithRemainingHits RunDaughterAlgorithm cfg input st2) in
    Run st = (STATUS_CODE_SUCCESS, snd (RemoveEmptyClusters st3)).
Proof.
  intros Hstd Hiso Htracks Hhits input seeding.
  unfold ForcedClustering.Run.
  destruct (currentTrackList st) as [|t ts] eqn:Ht; [contradiction|].
  destruct (currentOrderedCaloHitList st) as [|kv l] eqn:Hl; [contradiction|].
  cbn [OrderedCaloHitList.empty]. fold input.
  unfold AssignToTrackSeededClusters. rewrite Ht. fold seeding.
  destruct seeding as [[s1 st1] vec]. cbn [fst snd].
  destruct (failed s1) eqn:Hf1; [cbv beta iota zeta; rewrite Hf1; reflexivity|].
  pose proof (AssignCaloHits_status (std_sort SortByDistanceToTrack vec) st1) as Hwalk.
  destruct (AssignCaloHits (std_sort SortByDistanceToTrack vec) st1) as [s2 st2].
  cbn [fst snd] in *. subst s2. cbn [failed StatusCode_eqb negb].
  pose proof (DealWithRemainingHits_status input st2 Hstd) as Hdeal.
  destruct (DealWithRemainingHits RunDaughterAlgorithm cfg input st2) as [s3 st3].
  cbn [fst snd] in *. subst s3. cbn [failed StatusCode_eqb negb].
  unfold AssociateIsolatedHits. rewrite Hiso. cbn [failed StatusCode_eqb negb].
  pose proof (RemoveEmptyClusters_status st3) as Hremove.
  destruct (RemoveEmptyClusters st3) as [s4 st4].
  cbn [fst snd] in *. subst s4. reflexivity.
Qed.

(** X14.  With no daughter algorithm configured and the calls of the
    content API succeeding, Run fails in two ways only.  With an empty track list or hit list it returns
    INVALID_PARAMETER and touches nothing.  Otherwise the helix fit of some
    track has failed for some hit, Run returns the status of the fit, no hit
    has been clustered, and the clusters seeded so far, at least one and all
    empty, are left in the current cluster list: RemoveEmptyClusters is not
    reached. *)
Theorem failed_run_leaves_seed_clusters (st : Pandora) :
  m_shouldRunStandardClusteringAlgorithm cfg = false ->
  m_shouldAssociateIsolatedHits cfg = false ->
  failed (fst (Run st)) = true ->
  (fst (Run st) = STATUS_CODE_INVALID_PARAMETER /\ snd (Run st) = st /\
   (currentTrackList st = [] \/ currentOrderedCaloHitList st = [])) \/
  ((exists t h,
      In t (currentTrackList st) /\
      In h (OrderedCaloHitList.GetCaloHitList (currentOrderedCaloHitList st)) /\
      fst (Helix_GetDistanceToPoint (GetHelixFitAtCalorimeter t) (GetPositionVector h))
      = fst (Run st)) /\
   unavailableCaloHits (snd (Run st)) = unavailableCaloHits st /\
   exists n, (1 <= n <= length (currentTrackList st))%nat /\
     currentClusterList (snd (Run st))
     = currentClusterList st
       ++ map ClusterOps.CreateFromTrack (take n (currentTrackList st))).
Proof.
  intros Hstd Hiso Hfailed.
  destruct (currentTrackList st) as [|t ts] eqn:Ht.
  { left. unfold ForcedClustering.Run. rewrite Ht. repeat split. left. reflexivity. }
  destruct (currentOrderedCaloHitList st) as [|kv l] eqn:Hl.
  { left. unfold ForcedClustering.Run. rewrite Ht, Hl. repeat split. right. reflexivity. }
  right.
  assert (Htracks : currentTrackList st <> []) by (rewrite Ht; discriminate).
  assert (Hhits : currentOrderedCaloHitList st <> []) by (rewrite Hl; discriminate).
  pose proof (Run_after_seeding st Hstd Hiso Htracks Hhits) as Hrun. cbv zeta in Hrun.
  rewrite Ht, Hl in Hrun.
  destruct (MakeTrackSeededClusters (t :: ts)
              (OrderedCaloHitList.GetCaloHitList (kv :: l)) st []) as [[s1 st1] vec] eqn:Hseed.
  cbn [fst snd] in Hrun.
  destruct (failed s1) eqn:Hf1; [|rewrite Hrun in Hfailed; discriminate Hfailed].
  rewrite Hrun. cbn [fst snd].
  destruct (MakeTrackSeededClusters_failure _ _ _ _ _ _ _ Hseed Hf1)
    as ((t' & h & Hin & Hh & _ & Hhelix) & Hlen).
  destruct (MakeTrackSeededClusters_state _ _ _ _ _ _ _ _ _ _ Hseed)
    as (_ & _ & Hunavailable & n & Hn & _ & Hclusters).
  split; [exists t', h; auto|]. split; [exact Hunavailable|].
  exists n. split; [|exact Hclusters].
  split; [|exact Hn].
  destruct n as [|n]; [|lia].
  rewrite Hclusters in Hlen. cbn in Hlen. rewrite app_nil_r in Hlen. lia.
Qed.

(** ** The closest pair *)

Lemma map_lookup_Some {A B : Type} (f : A -> B) (l : list A) (i : nat) (x : A) :
  l !! i = Some x -> map f l !! i = Some (f x).
Proof.
  revert i. induction l as [|a rest IH]; intros [|i]; simpl; try discriminate.
  - intros Heq. injection Heq as <-. reflexivity.
  - apply IH.
Qed.

Lemma AssignCaloHit_hits_grow (info : TrackDistanceInfo) (st : Pandora) (p : nat) (h : CaloHit) :
  In h (ClusterOps.GetCaloHits (ClusterAt st p)) ->
  In h (ClusterOps.GetCaloHits (ClusterAt (snd (AssignCaloHit info st)) p)).
Proof.
  intros Hin. destruct (AssignCaloHit_cluster info st p) as [-> | (_ & _ & ->)]; [exact Hin|].
  apply (Permutation_in _ (Permutation_sym (ClusterFacts.GetCaloHits_AddCaloHit _ _))).
  right. exact Hin.
Qed.

Lemma AssignCaloHits_hits_grow (recs : list TrackDistanceInfo) :
  forall (st : Pandora) (p : nat) (h : CaloHit),
  In h (ClusterOps.GetCaloHits (ClusterAt st p)) ->
  In h (ClusterOps.GetCaloHits (ClusterAt (snd (AssignCaloHits recs st)) p)).
Proof.
  induction recs as [|info rest IH]; intros st p h Hin; [exact Hin|].
  rewrite AssignCaloHits_cons. apply IH, AssignCaloHit_hits_grow, Hin.
Qed.

(** The records of a successful seeding point at the seeded clusters, which
    are empty, and their hits are available. *)
Lemma seeded_record (tracks : list Track) (input : list CaloHit) (st st1 : Pandora)
    (vec : list TrackDistanceInfo) (r : TrackDistanceInfo) :
  MakeTrackSeededClusters tracks input st [] = (STATUS_CODE_SUCCESS, st1, vec) ->
  In r vec ->
  (GetCluster r < length (currentClusterList st1))%nat /\
  GetHadronicEnergy (ClusterAt st1 (GetCluster r)) = 0%Q /\
  IsCaloHitAvailable st1 (GetCaloHit r) = true.
Proof.
  intros Hseed Hr.
  destruct (MakeTrackSeededClusters_records _ _ _ _ _ _ _ _ _ _ Hseed r Hr)
    as [[]|((i & t & Hi & Hp & _) & Hclusterable & _)].
  destruct (MakeTrackSeededClusters_state _ _ _ _ _ _ _ _ _ _ Hseed)
    as (_ & _ & Hunavailable & n & _ & Hn & Hclusters).
  rewrite (Hn eq_refl), firstn_all in Hclusters.
  assert (Hlookup : currentClusterList st1 !! GetCluster r
                    = Some (ClusterOps.CreateFromTrack t)).
  { rewrite Hclusters, Hp, lookup_app_r by lia.
    replace (length (currentClusterList st) + i - length (currentClusterList st))%nat
      with i by lia.
    apply map_lookup_Some, Hi. }
  split; [apply lookup_lt_Some in Hlookup; exact Hlookup|].
  split; [rewrite (ClusterAt_lookup _ _ _ Hlookup); reflexivity|].
  unfold IsClusterable in Hclusterable. apply andb_true_iff in Hclusterable as [Hav _].
  unfold IsCaloHitAvailable in *. rewrite Hunavailable. exact Hav.
Qed.

(** X15.  The walk always honours the closest pair: the first record of
    the sorted vector has the least distance of all records, and if its
    track energy is positive its hit is added to the cluster of its track and
    is still there at the end of the walk. *)
Theorem closest_pair_is_clustered (tracks : list Track) (input : list CaloHit)
    (st st1 : Pandora) (vec : list TrackDistanceInfo) (r : TrackDistanceInfo) :
  SortContract std_sort ->
  MakeTrackSeededClusters tracks input st [] = (STATUS_CODE_SUCCESS, st1, vec) ->
  head (std_sort SortByDistanceToTrack vec) = Some r ->
  (0 < GetTrackEnergy r)%Q ->
  (forall r', In r' vec -> (GetTrackDistance r <= GetTrackDistance r')%Q) /\
  In (GetCaloHit r)
     (ClusterOps.GetCaloHits
        (ClusterAt (snd (AssignCaloHits (std_sort SortByDistanceToTrack vec) st1))
                   (GetCluster r))).
Proof.
  intros Hsort Hseed Hhead Hpos.
  destruct (Hsort vec) as [Hperm Hascending].
  destruct (std_sort SortByDistanceToTrack vec) as [|r0 rest]; [discriminate Hhead|].
  injection Hhead as ->.
  split.
  - intros r' Hin. apply (Permutation_in _ Hperm) in Hin. destruct Hin as [<-|Hin].
    + apply Qle_refl.
    + apply StronglySorted_inv in Hascending as [_ Hall].
      rewrite List.Forall_forall in Hall. apply Hall, Hin.
  - assert (Hr : In r vec).
    { apply (Permutation_in _ (Permutation_sym Hperm)). left. reflexivity. }
    destruct (seeded_record _ _ _ _ _ _ Hseed Hr) as (Hvalid & Henergy & Havailable).
    rewrite AssignCaloHits_cons, AssignCaloHit_unfold.
    assert (Haccepts : Accepts r st1 = true).
    { unfold Accepts. rewrite Henergy, Havailable, andb_true_r. apply Qltb_lt, Hpos. }
    rewrite Haccepts. apply AssignCaloHits_hits_grow.
    rewrite ClusterAt_AddCaloHitToCluster_eq by exact Hvalid.
    apply (Permutation_in _ (Permutation_sym (ClusterFacts.GetCaloHits_AddCaloHit _ _))).
    left. reflexivity.
Qed.

(** ** Every eligible hit ends in a cluster *)

Lemma CaloHitList_insert_ids (h : CaloHit) (l : list CaloHit) :
  hitId h ∈ map hitId (CaloHitList_insert h l) /\
  forall id, id ∈ map hitId l -> id ∈ map hitId (CaloHitList_insert h l).
Proof.
  unfold CaloHitList_insert. case_bool_decide as Hin.
  - split; [exact Hin | auto].
  - rewrite map_app. cbn [map]. split.
    + apply elem_of_app. right. left.
    + intros id Hid. apply elem_of_app. left. exact Hid.
Qed.

Lemma RemnantCaloHitList_fold (st : Pandora) (input : list CaloHit) :
  forall acc : list CaloHit,
  let remnant :=
    fold_left (fun remnantCaloHitList pCaloHit =>
                 if IsClusterable cfg st pCaloHit
                 then CaloHitList_insert pCaloHit remnantCaloHitList
                 else remnantCaloHitList) input acc in
  (forall id, id ∈ map hitId acc -> id ∈ map hitId remnant) /\
  (forall h, In h input -> IsClusterable cfg st h = true -> hitId h ∈ map hitId remnant).
Proof.
  induction input as [|x rest IH]; intros acc; cbn [fold_left]; cbv zeta.
  - split; [auto | intros h []].
  - destruct (IH (if IsClusterable cfg st x then CaloHitList_insert x acc else acc))
      as [Hacc Hrest]. cbv zeta in Hacc, Hrest.
    split.
    + intros id Hid. apply Hacc.
      destruct (IsClusterable cfg st x); [apply (proj2 (CaloHitList_insert_ids x acc))|];
        exact Hid.
    + intros h [<-|Hin] Hclusterable; [|apply Hrest; assumption].
      apply Hacc. rewrite Hclusterable. apply (proj1 (CaloHitList_insert_ids x acc)).
Qed.

Lemma RemnantCaloHitList_covers (st : Pandora) (input : list CaloHit) (h : CaloHit) :
  In h input -> IsClusterable cfg st h = true ->
  hitId h ∈ map hitId (RemnantCaloHitList cfg st input).
Proof. intros Hin Hc. apply (RemnantCaloHitList_fold st input []); assumption. Qed.

Lemma AssignCaloHit_Tracked (before : gset nat) (info : TrackDistanceInfo) (st : Pandora) :
  (GetCluster info < length (currentClusterList st))%nat ->
  Tracked before st ->
  Tracked before (snd (AssignCaloHit info st)) /\
  unavailableCaloHits st ⊆ unavailableCaloHits (snd (AssignCaloHit info st)).
Proof.
  intros Hvalid Htracked. rewrite AssignCaloHit_unfold.
  destruct (Accepts info st); [|split; [exact Htracked | set_solver]].
  cbn [AddCaloHitToCluster snd]. split; [|cbn [unavailableCaloHits]; set_solver].
  intros id Hid. cbn [unavailableCaloHits currentClusterList] in Hid |- *.
  rewrite (ClusteredHitIds_alter _ _ _ Hvalid).
  apply elem_of_union in Hid as [Hid|Hid].
  - apply elem_of_singleton in Hid. subst id. right. left.
  - destruct (Htracked id Hid) as [Hb|Hc]; [left; exact Hb | right; right; exact Hc].
Qed.

Lemma AssignCaloHits_Tracked (before : gset nat) (recs : list TrackDistanceInfo) :
  forall st : Pandora,
  (forall info, In info recs -> (GetCluster info < length (currentClusterList st))%nat) ->
  Tracked before st ->
  Tracked before (snd (AssignCaloHits recs st)) /\
  unavailableCaloHits st ⊆ unavailableCaloHits (snd (AssignCaloHits recs st)).
Proof.
  induction recs as [|info rest IH]; intros st Hvalid Htracked.
  - split; [exact Htracked | set_solver].
  - rewrite AssignCaloHits_cons.
    destruct (AssignCaloHit_Tracked before info st) as [H1 Hsub1];
      [apply Hvalid; left; reflexivity | exact Htracked |].
    destruct (IH (snd (AssignCaloHit info st))) as [H2 Hsub2]; [|exact H1|].
    + intros r Hr. rewrite AssignCaloHit_length. apply Hvalid. right. exact Hr.
    + split; [exact H2 | intros x Hx; apply Hsub2, Hsub1, Hx].
Qed.

Lemma DealWithRemainingHits_covers (before : gset nat) (input : list CaloHit) (st : Pandora) :
  m_shouldRunStandardClusteringAlgorithm cfg = false ->
  let st3 := snd (DealWithRemainingHits RunDaughterAlgorithm cfg input st) in
  (Tracked before st -> Tracked before st3) /\
  (forall h, In h input -> IsEligible cfg h = true -> hitId h ∈ unavailableCaloHits st3).
Proof.
  intros Hstd. unfold DealWithRemainingHits. rewrite Hstd.
  pose proof (RemnantCaloHitList_covers st input) as Hcovers.
  destruct (RemnantCaloHitList cfg st input) as [|x remnant]; cbv zeta.
  - cbn [snd]. split; [auto|].
    intros h Hin Heligible.
    destruct (decide (hitId h ∈ unavailableCaloHits st)) as [Hun|Hav]; [exact Hun|].
    exfalso. apply available_iff in Hav.
    specialize (Hcovers h Hin). unfold IsClusterable in Hcovers.
    unfold IsEligible in Heligible. rewrite Hav, Heligible in Hcovers.
    specialize (Hcovers eq_refl). inversion Hcovers.
  - cbn [Cluster_Create_FromCaloHitList snd unavailableCaloHits currentClusterList]. split.
    + intros Htracked id Hid. cbn [unavailableCaloHits currentClusterList] in Hid |- *.
      apply elem_of_union in Hid as [Hid|Hid].
      * right. rewrite ClusteredHitIds_app. apply elem_of_app. right.
        unfold ClusteredHitIds. cbn [map concat]. rewrite app_nil_r.
        rewrite elem_of_list_to_set in Hid.
        rewrite (Permutation_map hitId (ClusterFacts.GetCaloHits_CreateFromCaloHitList _)).
        exact Hid.
      * destruct (Htracked id Hid) as [Hb|Hc]; [left; exact Hb|].
        right. rewrite ClusteredHitIds_app. apply elem_of_app. left. exact Hc.
    + intros h Hin Heligible. apply elem_of_union.
      destruct (decide (hitId h ∈ unavailableCaloHits st)) as [Hun|Hav]; [right; exact Hun|].
      left. apply elem_of_list_to_set. apply available_iff in Hav.
      apply Hcovers; [exact Hin|]. unfold IsClusterable.
      unfold IsEligible in Heligible. rewrite Hav, Heligible. reflexivity.
Qed.

(** X16.  With no daughter algorithm configured, a successful Run leaves
    no eligible hit of the input list behind: every hit of the input list that passes the
    isolation policy is unavailable afterwards, and if it was available
    before it is in a cluster of the current list, a track-seeded cluster or
    the remnant cluster.  No cluster of the list is empty. *)
Theorem eligible_hits_are_clustered (st : Pandora) (h : CaloHit) :
  SortContract std_sort ->
  m_shouldRunStandardClusteringAlgorithm cfg = false ->
  m_shouldAssociateIsolatedHits cfg = false ->
  fst (Run st) = STATUS_CODE_SUCCESS ->
  In h (OrderedCaloHitList.GetCaloHitList (currentOrderedCaloHitList st)) ->
  IsEligible cfg h = true ->
  IsCaloHitAvailable (snd (Run st)) h = false /\
  (IsCaloHitAvailable st h = true ->
   hitId h ∈ ClusteredHitIds (currentClusterList (snd (Run st)))) /\
  Forall (fun c => NonEmpty c = true) (currentClusterList (snd (Run st))).
Proof.
  intros Hsort Hstd Hiso Hsuccess Hin Heligible.
  assert (Hhits : currentOrderedCaloHitList st <> []).
  { intros Hnil. rewrite Hnil in Hin. exact Hin. }
  assert (Htracks : currentTrackList st <> []).
  { intros Hnil. unfold ForcedClustering.Run in Hsuccess. rewrite Hnil in Hsuccess.
    discriminate Hsuccess. }
  pose proof (Run_after_seeding st Hstd Hiso Htracks Hhits) as Hrun. cbv zeta in Hrun.
  set (input := OrderedCaloHitList.GetCaloHitList (currentOrderedCaloHitList st)) in *.
  destruct (MakeTrackSeededClusters (currentTrackList st) input st [])
    as [[s1 st1] vec] eqn:Hseed.
  cbn [fst snd] in Hrun.
  destruct (failed s1) eqn:Hf1.
  { rewrite Hrun in Hsuccess. cbn [fst] in Hsuccess. subst s1. discriminate Hf1. }
  apply failed_false in Hf1. subst s1.
  rewrite Hrun. cbn [snd]. clear Hrun Hsuccess.
  destruct (Hsort vec) as [Hperm _].
  destruct (MakeTrackSeededClusters_state _ _ _ _ _ _ _ _ _ _ Hseed)
    as (_ & _ & Hunavailable & n & _ & Hn & Hclusters).
  rewrite (Hn eq_refl), firstn_all in Hclusters.
  assert (Htracked1 : Tracked (unavailableCaloHits st) st1).
  { intros id Hid. left. rewrite <- Hunavailable. exact Hid. }
  destruct (AssignCaloHits_Tracked (unavailableCaloHits st)
              (std_sort SortByDistanceToTrack vec) st1) as [Htracked2 _]; [|exact Htracked1|].
  { intros r Hr. apply (Permutation_in _ (Permutation_sym Hperm)) in Hr.
    apply (seeded_record _ _ _ _ _ _ Hseed Hr). }
  set (st2 := snd (AssignCaloHits (std_sort SortByDistanceToTrack vec) st1)) in *.
  destruct (DealWithRemainingHits_covers (unavailableCaloHits st) input st2 Hstd)
    as [Htracked3 Hcovered].
  specialize (Htracked3 Htracked2). specialize (Hcovered h Hin Heligible).
  set (st3 := snd (DealWithRemainingHits RunDaughterAlgorithm cfg input st2)) in *.
  destruct (RemoveEmptyClusters_clusters st3) as [Hfilter Hsame].
  split; [|split].
  - unfold IsCaloHitAvailable. apply bool_decide_eq_false. rewrite Hsame.
    intros Hnot. exact (Hnot Hcovered).
  - intros Hav. apply available_iff in Hav.
    rewrite Hfilter, ClusteredHitIds_filter_NonEmpty.
    destruct (Htracked3 _ Hcovered) as [Hbefore|Hclustered]; [contradiction | exact Hclustered].
  - rewrite Hfilter. rewrite List.Forall_forall. intros c Hc.
    apply filter_In in Hc as [_ Hc]. exact Hc.
Qed.

End Phases.

Lemma seeding_records_witness :
  plainRecords
  = ExpectedRecords exampleHelixDistance AxisMagnitude 0 (currentTrackList plainEvent)
      (List.filter (IsClusterable DefaultSettings plainEvent) plainInput) /\
  length plainRecords = 6%nat.
Proof.
  destruct (seeding_records exampleHelixDistance AxisMagnitude DefaultSettings
              (currentTrackList plainEvent) plainInput plainEvent plainSeeded plainRecords
              eq_refl) as (Hvec & Hlen & _).
  split; [exact Hvec | exact Hlen].
Defined.

(** The helix fit of the second of three tracks fails: Run returns its
    status and leaves the two clusters seeded so far. *)
Lemma failed_run_leaves_seed_clusters_witness :
  let result := Run failingHelixDistance AxisMagnitude StableSort noDaughterAlgorithm
                    DefaultSettings threeTrackEvent in
  fst result = STATUS_CODE_FAILURE /\
  exists n, (1 <= n <= 3)%nat /\
    currentClusterList (snd result)
    = map ClusterOps.CreateFromTrack (take n (currentTrackList threeTrackEvent)).
Proof.
  cbv zeta.
  destruct (failed_run_leaves_seed_clusters failingHelixDistance AxisMagnitude StableSort
              noDaughterAlgorithm DefaultSettings threeTrackEvent eq_refl eq_refl eq_refl)
    as [(Hstatus & _) | (_ & _ & n & Hn & Hclusters)].
  - discriminate Hstatus.
  - split; [reflexivity|]. exists n. split; [exact Hn | exact Hclusters].
Defined.

Lemma closest_pair_is_clustered_witness :
  In (GetCaloHit plainClosest)
     (ClusterOps.GetCaloHits
        (ClusterAt (snd (AssignCaloHits plainSorted plainSeeded)) (GetCluster plainClosest))).
Proof.
  apply (closest_pair_is_clustered exampleHelixDistance AxisMagnitude StableSort DefaultSettings
           (currentTrackList plainEvent) plainInput plainEvent plainSeeded plainRecords
           plainClosest StableSort_contract eq_refl).
  - reflexivity.
  - reflexivity.
Defined.

Lemma eligible_hits_are_clustered_witness :
  IsCaloHitAvailable (snd (exampleForcedRun plainEvent)) (hitAt 2 4 1) = false /\
  hitId (hitAt 2 4 1) ∈ ClusteredHitIds (currentClusterList (snd (exampleForcedRun plainEvent))).
Proof.
  destruct (eligible_hits_are_clustered exampleHelixDistance AxisMagnitude StableSort
              noDaughterAlgorithm DefaultSettings plainEvent (hitAt 2 4 1)
              StableSort_contract eq_refl eq_refl eq_refl) as (Hunavailable & Hclustered & _).
  - right. right. left. reflexivity.
  - reflexivity.
  - split; [exact Hunavailable | apply Hclustered; reflexivity].
Defined.

End ForcedClusteringFacts.

(** * Properties of ReadSettings *)

Module ReadSettingsFacts.

Section ForcedClustering.
Import ForcedClustering ForcedClusteringReadSettings.

Variable ReadValue : string -> bool -> StatusCode * bool.
Variable ProcessAlgorithm : string -> string -> StatusCode * string.

Local Abbreviation ReadSettings := (ReadSettings ReadValue ProcessAlgorithm).

Lemma NeitherSuccessNorNotFound_true (s : StatusCode) :
  NeitherSuccessNorNotFound s = true -> s <> STATUS_CODE_SUCCESS.
Proof. intros Hs ->. discriminate Hs. Qed.

Lemma failed_true (s : StatusCode) : failed s = true -> s <> STATUS_CODE_SUCCESS.
Proof. intros Hs ->. discriminate Hs. Qed.

(** X17.  For a configuration with none of the three keys (ReadValue
    returns NOT_FOUND and leaves the member alone) ReadSettings of the
    forced clustering returns SUCCESS with the three flags false; no
    daughter algorithm is processed and the two algorithm names stay as
    they were. *)
Theorem forced_clustering_defaults (m : Settings) :
  (forall key value, ReadValue key value = (STATUS_CODE_NOT_FOUND, value)) ->
  ReadSettings m
  = (STATUS_CODE_SUCCESS,
     mkSettings false (m_standardClusteringAlgorithmName m) false false
                (m_isolatedHitAssociationAlgorithmName m)).
Proof.
  intros Habsent.
  unfold ForcedClusteringReadSettings.ReadSettings, ProcessStandardClustering,
    ProcessIsolatedHitAssociation.
  repeat (rewrite Habsent; cbn). reflexivity.
Qed.

(** X18.  When ReadSettings of the forced clustering returns SUCCESS,
    every daughter algorithm that a flag switches on has been processed
    with SUCCESS, and the name that Run will pass to RunDaughterAlgorithm
    is the one ProcessAlgorithm delivered; NOT_FOUND is accepted for the
    three flags but not for a daughter algorithm. *)
Theorem forced_clustering_daughters_processed (m m' : Settings) :
  ReadSettings m = (STATUS_CODE_SUCCESS, m') ->
  (m_shouldRunStandardClusteringAlgorithm m' = true ->
   ProcessAlgorithm "StandardClustering" (m_standardClusteringAlgorithmName m)
   = (STATUS_CODE_SUCCESS, m_standardClusteringAlgorithmName m')) /\
  (m_shouldAssociateIsolatedHits m' = true ->
   ProcessAlgorithm "IsolatedHitAssociation" (m_isolatedHitAssociationAlgorithmName m)
   = (STATUS_CODE_SUCCESS, m_isolatedHitAssociationAlgorithmName m')).
Proof.
  destruct m as [run standardName cluster associate isolatedName]. revert m'.
  unfold ForcedClusteringReadSettings.ReadSettings, ProcessStandardClustering,
    ProcessIsolatedHitAssociation.
  repeat (cbn -[failed NeitherSuccessNorNotFound];
          match goal with
          | H : ProcessAlgorithm ?k ?v = _ |- context [ProcessAlgorithm ?k ?v] => rewrite H
          | |- context [ReadValue ?k ?v] => destruct (ReadValue k v) as [? ?]
          | |- context [ProcessAlgorithm ?k ?v] =>
              destruct (ProcessAlgorithm k v) as [? ?] eqn:?
          | |- context [NeitherSuccessNorNotFound ?s] =>
              let E := fresh "E" in
              destruct (NeitherSuccessNorNotFound s) eqn:E; cbv iota;
              [intros m' Heq; injection Heq as Hs _; subst; discriminate E|]
          | |- context [failed ?s] =>
              let E := fresh "E" in
              destruct (failed s) eqn:E; cbv iota;
              [intros m' Heq; injection Heq as Hs _; subst; discriminate E
              |apply ForcedClusteringFacts.failed_false in E; subst s]
          | |- context [if ?b then _ else _] => is_var b; destruct b
          end);
    intros m' Heq; injection Heq as <-; cbn; split; intros Hflag;
    first [discriminate Hflag | reflexivity].
Qed.

End ForcedClustering.

Section MipPhotonSeparation.
Import MipPhotonSeparation MipPhotonSeparationReadSettings.

Variable ProcessFirstAlgorithm : string -> StatusCode * string.
Variable ReadValue_uint : string -> Z -> StatusCode * Z.
Variable ReadValue_float : string -> Q -> StatusCode * Q.

Local Abbreviation ReadSettings :=
  (ReadSettings ProcessFirstAlgorithm ReadValue_uint ReadValue_float).

(** X19.  For a configuration that names the daughter algorithm and holds
    none of the sixteen keys, ReadSettings of the mip-photon separation
    returns SUCCESS and the members are the defaults: 2, 2, 1, 4, 20, 4, 5,
    200 for the scan, 0, 1 and 6 for the selection, 1, 2, 1000, 2.5 and 2.5
    for the distance to the track. *)
Theorem mip_photon_separation_defaults (name : string) (m : Settings) :
  fst (ProcessFirstAlgorithm name) = STATUS_CODE_SUCCESS ->
  (forall key value, ReadValue_uint key value = (STATUS_CODE_NOT_FOUND, value)) ->
  (forall key value, ReadValue_float key value = (STATUS_CODE_NOT_FOUND, value)) ->
  ReadSettings name m
  = (STATUS_CODE_SUCCESS, (snd (ProcessFirstAlgorithm name), DefaultSettings)).
Proof.
  intros Hfirst Huint Hfloat.
  unfold MipPhotonSeparationReadSettings.ReadSettings.
  destruct (ProcessFirstAlgorithm name) as [s0 name0]. cbn [fst snd] in *. subst s0.
  cbn [StatusCode_eqb negb]. unfold OptionalSettings, ReadOptional.
  repeat (cbn; first [rewrite Huint | rewrite Hfloat]).
  reflexivity.
Qed.

(** X20.  When ReadSettings of the mip-photon separation returns SUCCESS
    it has assigned every one of the sixteen members: the result does not
    depend on the values the members had before. *)
Theorem mip_photon_separation_members_assigned (name name' : string) (m m' : Settings) :
  ReadSettings name m = (STATUS_CODE_SUCCESS, (name', m')) ->
  forall m2, ReadSettings name m2 = (STATUS_CODE_SUCCESS, (name', m')).
Proof.
  intros Hread m2. revert Hread.
  unfold MipPhotonSeparationReadSettings.ReadSettings.
  destruct (ProcessFirstAlgorithm name) as [s0 name0].
  destruct (negb (StatusCode_eqb STATUS_CODE_SUCCESS s0)) eqn:E0.
  { intros Heq. injection Heq as -> _ _. discriminate E0. }
  unfold OptionalSettings, ReadOptional.
  repeat (cbn;
          match goal with
          | |- context [ReadValue_uint ?k ?v] => destruct (ReadValue_uint k v) as [? ?]
          | |- context [ReadValue_float ?k ?v] => destruct (ReadValue_float k v) as [? ?]
          | |- context [NeitherSuccessNorNotFound ?s] =>
              let E := fresh "E" in
              destruct (NeitherSuccessNorNotFound s) eqn:E; cbv iota;
              [intros Heq; injection Heq as Hs _; subst; discriminate E|]
          end).
  intros Heq. exact Heq.
Qed.

End MipPhotonSeparation.

Lemma forced_clustering_defaults_witness :
  ForcedClusteringReadSettings.ReadSettings ForcedClusteringReadSettings.absent
    ForcedClusteringReadSettings.missingAlgorithm ForcedClustering.DefaultSettings
  = (STATUS_CODE_SUCCESS, ForcedClustering.DefaultSettings).
Proof.
  apply (forced_clustering_defaults ForcedClusteringReadSettings.absent
           ForcedClusteringReadSettings.missingAlgorithm ForcedClustering.DefaultSettings).
  intros key value. reflexivity.
Defined.

Lemma forced_clustering_daughters_processed_witness :
  ForcedClusteringReadSettings.ReadSettings ForcedClusteringReadSettings.standardClusteringOn
    ForcedClusteringReadSettings.exampleProcessAlgorithm ForcedClustering.DefaultSettings
  = (STATUS_CODE_SUCCESS,
     ForcedClustering.mkSettings true "StandardClustering" false false EmptyString) /\
  ForcedClusteringReadSettings.exampleProcessAlgorithm "StandardClustering" EmptyString
  = (STATUS_CODE_SUCCESS, "StandardClustering"%string).
Proof.
  split; [reflexivity|].
  apply (proj1 (forced_clustering_daughters_processed
                  ForcedClusteringReadSettings.standardClusteringOn
                  ForcedClusteringReadSettings.exampleProcessAlgorithm
                  ForcedClustering.DefaultSettings
                  (ForcedClustering.mkSettings true "StandardClustering" false false EmptyString)
                  eq_refl)).
  reflexivity.
Defined.

(** A flag that is set while the daughter algorithm is missing makes
    ReadSettings return NOT_FOUND. *)
Example forced_clustering_missing_daughter :
  ForcedClusteringReadSettings.ReadSettings ForcedClusteringReadSettings.standardClusteringOn
    ForcedClusteringReadSettings.missingAlgorithm ForcedClustering.DefaultSettings
  = (STATUS_CODE_NOT_FOUND, ForcedClustering.mkSettings true EmptyString false false EmptyString).
Proof. reflexivity. Qed.

Lemma mip_photon_separation_defaults_witness :
  MipPhotonSeparationReadSettings.ReadSettings
    MipPhotonSeparationReadSettings.exampleFirstAlgorithm
    MipPhotonSeparationReadSettings.absent MipPhotonSeparationReadSettings.absent
    EmptyString MipPhotonSeparation.shortSpanSettings
  = (STATUS_CODE_SUCCESS, ("TrackClusterAssociation"%string, MipPhotonSeparation.DefaultSettings)).
Proof.
  apply (mip_photon_separation_defaults MipPhotonSeparationReadSettings.exampleFirstAlgorithm
           MipPhotonSeparationReadSettings.absent MipPhotonSeparationReadSettings.absent
           EmptyString MipPhotonSeparation.shortSpanSettings).
  - reflexivity.
  - intros key value. reflexivity.
  - intros key value. reflexivity.
Defined.

Lemma mip_photon_separation_members_assigned_witness :
  MipPhotonSeparationReadSettings.ReadSettings
    MipPhotonSeparationReadSettings.exampleFirstAlgorithm
    MipPhotonSeparationReadSettings.absent MipPhotonSeparationReadSettings.zeroSeparationFloat
    EmptyString MipPhotonSeparation.shortSpanSettings
  = (STATUS_CODE_SUCCESS,
     ("TrackClusterAssociation"%string,
      MipPhotonSeparationReadSettings.set_m_maxTrackSeparation 0
        MipPhotonSeparation.DefaultSettings)).
Proof.
  apply (mip_photon_separation_members_assigned
           MipPhotonSeparationReadSettings.exampleFirstAlgorithm
           MipPhotonSeparationReadSettings.absent
           MipPhotonSeparationReadSettings.zeroSeparationFloat
           EmptyString "TrackClusterAssociation" MipPhotonSeparation.DefaultSettings).
  reflexivity.
Defined.

End ReadSettingsFacts.
